(** * SheepRL Dreamer agents: latent dynamics, imagination and returns

    A shallow embedding of the parts of
      - sheeprl/algos/dreamer_v1/agent.py   (RSSM, PlayerDV1, build_models)
      - sheeprl/algos/dreamer_v2/dreamer_v2.py (train)
      - sheeprl/algos/p2e/p2e.py            (train)
    that the specification talks about, followed by the properties the
    specification states of them (C1 to C10).

    Conventions.
      - Tensor entries are rationals ([Q]): the development is about the
        algebra of the computation, not about rounding.
      - A tensor is a nested list, one list level per dimension, outermost
        dimension first.  Rank is part of the type.
      - The neural networks are uninterpreted functions held in records;
        calls to them and draws of the random generator are effects of a
        small state monad that logs every network call with its inputs. *)

From Stdlib Require Import QArith Qminmax Qpower Qround ZArith String DecimalString.
From stdpp Require Import base option list strings sorting.

Local Open Scope Q_scope.
Local Open Scope string_scope.

(** ** Tensors *)

Module torch.

Abbreviation tensor1 := (list Q).
Abbreviation tensor2 := (list (list Q)).
Abbreviation tensor3 := (list (list (list Q))).
Abbreviation tensor4 := (list (list (list (list Q)))).

(** [torch.zeros(b, d)], without the leading singleton dimension. *)
Definition zeros (b d : nat) : tensor2 := replicate b (replicate d 0).

Definition zeros_like1 (x : tensor1) : tensor1 := (λ _, 0) <$> x.
Definition zeros_like2 (x : tensor2) : tensor2 := zeros_like1 <$> x.
Definition zeros_like3 (x : tensor3) : tensor3 := zeros_like2 <$> x.

Definition ones_like1 (x : tensor1) : tensor1 := (λ _, 1) <$> x.
Definition ones_like2 (x : tensor2) : tensor2 := ones_like1 <$> x.
Definition ones_like3 (x : tensor3) : tensor3 := ones_like2 <$> x.

(** [torch.cat((x, y), -1)] on two batches with the same number of rows. *)
Definition cat (x y : tensor2) : tensor2 := zip_with app x y.

(** Element-wise operations on tensors of one shape. *)
Definition add2 (x y : tensor2) : tensor2 := zip_with (zip_with Qplus) x y.
Definition mul2 (x y : tensor2) : tensor2 := zip_with (zip_with Qmult) x y.
Definition scale2 (c : Q) (x : tensor2) : tensor2 := map (map (Qmult c)) x.

(** [x[:-1]], [x[:-2]], [x[1:]], [x[:1]] and [x[-1:]] along dimension 0. *)
Definition but_last {A} (n : nat) (x : list A) : list A := take (length x - n) x.
Definition from {A} (n : nat) (x : list A) : list A := drop n x.
Definition upto {A} (n : nat) (x : list A) : list A := take n x.
Definition last_slice {A} (x : list A) : list A := drop (length x - 1) x.


(** Two tensors have one shape. *)
Definition same_shape1 (x y : tensor1) : Prop := length x = length y.
Definition same_shape2 (x y : tensor2) : Prop := Forall2 same_shape1 x y.
Definition same_shape3 (x y : tensor3) : Prop := Forall2 same_shape2 x y.

(** [torch.cumprod(x, 0)]: [out[0] = x[0]], [out[i] = out[i-1] * x[i]]. *)
Fixpoint cumprod_from (acc : tensor2) (xs : tensor3) : tensor3 :=
  match xs with
  | [] => []
  | x :: xs' => let acc' := mul2 acc x in acc' :: cumprod_from acc' xs'
  end.

Definition cumprod (xs : tensor3) : tensor3 :=
  match xs with
  | [] => []
  | x :: xs' => x :: cumprod_from x xs'
  end.

(** Broadcasting of one dimension: equal sizes pair up, a size of one is
    repeated, anything else is the RuntimeError "The size of tensor a must
    match the size of tensor b at non-singleton dimension". *)
Definition broadcast {A B C} (f : A → B → option C)
    (xs : list A) (ys : list B) : option (list C) :=
  if decide (length xs = length ys) then
    mapM (λ p, f p.1 p.2) (zip xs ys)
  else
    match xs, ys with
    | [x], _ => mapM (f x) ys
    | _, [y] => mapM (λ x, f x y) xs
    | _, _ => None
    end.

Definition lift0 (f : Q → Q → Q) (a b : Q) : option Q := Some (f a b).
Definition bop1 (f : Q → Q → Q) := broadcast (lift0 f).
Definition bop2 (f : Q → Q → Q) := broadcast (bop1 f).
Definition bop3 (f : Q → Q → Q) := broadcast (bop2 f).
Definition bop4 (f : Q → Q → Q) := broadcast (bop3 f).

(** [x.unsqueeze(-1)]: every scalar becomes a vector of length one. *)
Definition unsqueeze_last1 (x : tensor1) : tensor2 := (λ q, [q]) <$> x.
Definition unsqueeze_last2 (x : tensor2) : tensor3 := unsqueeze_last1 <$> x.
Definition unsqueeze_last3 (x : tensor3) : tensor4 := unsqueeze_last2 <$> x.

(** [x[..., 0]]: index 0 of the last dimension; IndexError on an empty one. *)
Definition select_last0 (x : tensor3) : option tensor2 :=
  mapM (mapM (λ v : tensor1, v !! 0%nat)) x.

Definition sum1 (x : tensor1) : Q := foldr Qplus 0 x.
Definition sum2 (x : tensor2) : Q := sum1 (sum1 <$> x).
Definition sum3 (x : tensor3) : Q := sum1 (sum2 <$> x).
Definition sum4 (x : tensor4) : Q := sum1 (sum3 <$> x).

Definition numel3 (x : tensor3) : nat := length (concat (concat x)).
Definition numel4 (x : tensor4) : nat := length (concat (concat (concat x))).

Definition mean3 (x : tensor3) : Q := sum3 x / inject_Z (Z.of_nat (numel3 x)).
Definition mean4 (x : tensor4) : Q := sum4 x / inject_Z (Z.of_nat (numel4 x)).

End torch.

Import torch.

(** ** sheeprl/algos/dreamer_v2/utils.py and sheeprl/algos/dreamer_v1/utils.py *)

Module utils.

(** One iteration of the backward recursion of the Return Estimator. *)
Definition lambda_step (lmbda : Q)
    (reward continuation next_value next_lambda : tensor2) : tensor2 :=
  add2 reward
    (mul2 continuation
       (add2 (scale2 (1 - lmbda) next_value) (scale2 lmbda next_lambda))).

Section lambda_values.
Variables (rewards values continues : tensor3) (bootstrap : tensor2).
Variables (horizon : nat) (lmbda : Q).

(** [value_{t+1}]: the bootstrap at the end of the horizon. *)
Definition next_value (t : nat) : option tensor2 :=
  if decide (S t = horizon) then Some bootstrap else values !! S t.

(** Iterations [t-1, t-2, ..., 0] of the reverse loop; [agg] is
    [lambda_value_t] and [buf] the pre-sized output buffer. *)
Fixpoint lambda_loop (t : nat) (agg : tensor2) (buf : tensor3) : option tensor3 :=
  match t with
  | O => Some buf
  | S t' =>
      r ← rewards !! t';
      c ← continues !! t';
      v ← next_value t';
      let lv := lambda_step lmbda r c v agg in
      lambda_loop t' lv (<[t' := lv]> buf)
  end.
End lambda_values.

(** Modelled from the spec: [compute_lambda_values] of
    sheeprl/algos/dreamer_v2/utils.py is imported by dreamer_v2.py but is
    not among the sources.  Section 4.6 of the specification:
    [lambda_value_H = value_H] (the bootstrap), and for [t = H-1] down to 0,
    [lambda_value_t = reward_t + continuation_t *
       ((1-lambda) * value_{t+1} + lambda * lambda_value_{t+1})],
    written as a reverse iteration over a fixed-length buffer.  An index
    outside [rewards], [values] or [continues] is Python's IndexError,
    [None] here. *)
Definition compute_lambda_values (rewards values continues : tensor3)
    (bootstrap : tensor2) (horizon : nat) (lmbda : Q) : option tensor3 :=
  lambda_loop rewards values continues bootstrap horizon lmbda
    horizon bootstrap (replicate horizon []).

End utils.

(** ** Effects: the random generator and the log of network calls *)

Module effects.

(** A call of one of the networks, with the tensors passed to it. *)
Inductive call :=
| Encoder (obs : tensor2)
| Recurrent (input recurrent_state : tensor2)
| Transition (recurrent_out : tensor2)
| Representation (input : tensor2)
| ActorNet (latent : tensor2).

Inductive call_kind := KEncoder | KRecurrent | KTransition | KRepresentation | KActor.

Definition kind (c : call) : call_kind :=
  match c with
  | Encoder _ => KEncoder
  | Recurrent _ _ => KRecurrent
  | Transition _ => KTransition
  | Representation _ => KRepresentation
  | ActorNet _ => KActor
  end.

#[export] Instance call_kind_eq_dec : EqDecision call_kind.
Proof. solve_decision. Defined.

(** The calls of one iteration of an imagination loop. *)
Definition roll : list call_kind := [KActor; KRecurrent; KTransition].

(** The inputs of the calls of the recurrent model, in order. *)
Definition recurrent_inputs (log : list call) : list (tensor2 * tensor2) :=
  omap (λ c, match c with Recurrent i h => Some (i, h) | _ => None end) log.

(** [generator d i j] is entry [(i, j)] of the [d]-th standard-normal draw. *)
Record world := World {
  generator : nat → nat → nat → Q;
  draws : nat;
  calls : list call
}.

Definition M (A : Type) : Type := world → A * world.

#[export] Instance M_ret : MRet M := λ A x w, (x, w).
#[export] Instance M_bind : MBind M := λ A B f m w, f (m w).1 (m w).2.

Definition log (c : call) : M unit :=
  λ w, (tt, World (generator w) (draws w) (calls w ++ [c])).

(** [torch.randn_like(x)]. *)
Definition randn_like (x : tensor2) : M tensor2 :=
  λ w, (imap (λ i row, imap (λ j _, generator w (draws w) i j) row) x,
        World (generator w) (S (draws w)) (calls w)).

(** [for i in range(start, start + count): s = body(i, s)]. *)
Fixpoint for_range {St} (body : nat → St → M St) (start count : nat) (s : St) : M St :=
  match count with
  | O => mret s
  | S n => s' ← body start s; for_range body (S start) n s'
  end.

End effects.

Import effects.

Module stochastic.

(** Modelled from the spec: the default of the [min_std] argument of
    [compute_stochastic_state]; PlayerDV1.get_greedy_action calls the
    function without the argument.  Section 3 of the specification names
    the floor "e.g. 0.1", the default of [RSSM.__init__] as well. *)
Definition default_min_std : Q := 0.1.

(** [torch.chunk(x, 2, -1)] on a batch. *)
Definition chunk2 (x : tensor2) : tensor2 * tensor2 :=
  ((λ row, take (length row / 2) row) <$> x,
   (λ row, drop (length row / 2) row) <$> x).

(** Modelled from the spec: [compute_stochastic_state] of
    sheeprl/algos/dreamer_v1/utils.py is imported by agent.py but is not
    among the sources.  Section 4.1 of the specification: the continuous
    variant clamps [std] to [max(raw_std, min_std)], and a sample is
    [mean + std * noise] with noise from a standard normal generator.
    The network output holds the means in its first half and the raw
    standard deviations in its second. *)
Definition compute_stochastic_state (state_information : tensor2) (min_std : Q)
    : M ((tensor2 * tensor2) * tensor2) :=
  let mean := (chunk2 state_information).1 in
  let std := map (map (λ raw, Qmax raw min_std)) (chunk2 state_information).2 in
  noise ← randn_like mean;
  mret ((mean, std), add2 mean (mul2 std noise)).

End stochastic.

(** ** sheeprl/algos/dreamer_v1/agent.py *)

Module dreamer_v1_agent.
Import stochastic.

(** class RSSM: the three wrapped networks and the floor. *)
Record RSSM := {
  recurrent_model : tensor2 → tensor2 → tensor2 * tensor2;
  representation_model : tensor2 → tensor2;
  transition_model : tensor2 → tensor2;
  min_std : Q
}.

Definition call_recurrent (f : tensor2 → tensor2 → tensor2 * tensor2)
    (input recurrent_state : tensor2) : M (tensor2 * tensor2) :=
  _ ← log (Recurrent input recurrent_state);
  mret (f input recurrent_state).

Definition call_representation (f : tensor2 → tensor2) (input : tensor2) : M tensor2 :=
  _ ← log (Representation input);
  mret (f input).

Definition call_transition (f : tensor2 → tensor2) (recurrent_out : tensor2) : M tensor2 :=
  _ ← log (Transition recurrent_out);
  mret (f recurrent_out).

(** RSSM._representation *)
Definition _representation (self : RSSM) (recurrent_state embedded_obs : tensor2)
    : M ((tensor2 * tensor2) * tensor2) :=
  out ← call_representation (representation_model self) (cat recurrent_state embedded_obs);
  compute_stochastic_state out (min_std self).

(** RSSM._transition *)
Definition _transition (self : RSSM) (recurrent_out : tensor2)
    : M ((tensor2 * tensor2) * tensor2) :=
  prior_mean_std ← call_transition (transition_model self) recurrent_out;
  compute_stochastic_state prior_mean_std (min_std self).

(** RSSM.dynamic *)
Definition dynamic (self : RSSM) (posterior recurrent_state action embedded_obs : tensor2)
    : M (tensor2 * tensor2 * tensor2 * (tensor2 * tensor2) * (tensor2 * tensor2)) :=
  rec ← call_recurrent (recurrent_model self) (cat posterior action) recurrent_state;
  let recurrent_out := rec.1 in
  let recurrent_state := rec.2 in
  pri ← _transition self recurrent_out;
  post ← _representation self recurrent_state embedded_obs;
  mret (recurrent_state, post.2, pri.2, post.1, pri.1).

(** RSSM.imagination *)
Definition imagination (self : RSSM) (stochastic_state recurrent_state actions : tensor2)
    : M (tensor2 * tensor2) :=
  rec ← call_recurrent (recurrent_model self) (cat stochastic_state actions) recurrent_state;
  let recurrent_output := rec.1 in
  let recurrent_state := rec.2 in
  pri ← _transition self recurrent_output;
  mret (pri.2, recurrent_state).

Definition call_encoder (f : tensor2 → tensor2) (obs : tensor2) : M tensor2 :=
  _ ← log (Encoder obs);
  mret (f obs).

(** The actor samples its actions: it consumes one draw of the generator.
    Its result stands for [torch.cat(actions, -1)] of the action heads. *)
Definition call_actor (f : (nat → nat → Q) → tensor2 → tensor2) (latent : tensor2)
    : M tensor2 :=
  λ w, (f (generator w (draws w)) latent,
        World (generator w) (S (draws w)) (calls w ++ [ActorNet latent])).

(** class PlayerDV1.  The fields assigned by [__init__] and the three
    tensors the methods mutate; a method returns the updated player.
    Tensors of shape (1, num_envs, size) are kept without the leading
    dimension: one row per environment. *)
Module PlayerDV1.

Record t := {
  encoder : tensor2 → tensor2;
  recurrent_model : tensor2 → tensor2 → tensor2 * tensor2;
  representation_model : tensor2 → tensor2;
  actor : (nat → nat → Q) → tensor2 → tensor2;
  actions_dim : list nat;
  expl_amount : Q;
  num_envs : nat;
  stochastic_size : nat;
  recurrent_state_size : nat;
  actions : tensor2;
  recurrent_state : tensor2;
  stochastic_state : tensor2
}.

Definition set_states (self : t) (a r s : tensor2) : t :=
  {| encoder := encoder self; recurrent_model := recurrent_model self;
     representation_model := representation_model self; actor := actor self;
     actions_dim := actions_dim self; expl_amount := expl_amount self;
     num_envs := num_envs self; stochastic_size := stochastic_size self;
     recurrent_state_size := recurrent_state_size self;
     actions := a; recurrent_state := r; stochastic_state := s |}.

(** A Python index into a dimension of size [n]: negative indices count
    from the end, anything outside [-n, n) is an IndexError. *)
Definition normalize_index (n : nat) (i : Z) : option nat :=
  if decide (0 ≤ i < Z.of_nat n)%Z then Some (Z.to_nat i)
  else if decide (- Z.of_nat n ≤ i < 0)%Z then Some (Z.to_nat (i + Z.of_nat n))
  else None.

(** [x[:, idx] = torch.zeros_like(x[:, idx])]: the rows at [idx] are
    read, zeroed and written back. *)
Definition zero_rows (idx : list Z) (x : tensor2) : option tensor2 :=
  ix ← mapM (normalize_index (length x)) idx;
  rows ← mapM (λ i, x !! i) ix;
  Some (foldl (λ acc iv, <[iv.1 := iv.2]> acc) x (zip ix (zeros_like2 rows))).

(** PlayerDV1.init_states *)
Definition init_states (self : t) (reset_envs : option (list Z)) : option t :=
  match reset_envs with
  | None | Some [] =>
      Some (set_states self
              (zeros (num_envs self) (sum_list (actions_dim self)))
              (zeros (num_envs self) (recurrent_state_size self))
              (zeros (num_envs self) (stochastic_size self)))
  | Some idx =>
      a ← zero_rows idx (actions self);
      r ← zero_rows idx (recurrent_state self);
      s ← zero_rows idx (stochastic_state self);
      Some (set_states self a r s)
  end.

(** The posterior of get_greedy_action: the representation model on the
    new recurrent state and the embedded observation, through
    [compute_stochastic_state] with its default arguments. *)
Definition greedy_posterior (self : t) (recurrent_state embedded_obs : tensor2)
    : M ((tensor2 * tensor2) * tensor2) :=
  out ← call_representation (representation_model self) (cat recurrent_state embedded_obs);
  compute_stochastic_state out default_min_std.

(** PlayerDV1.get_greedy_action *)
Definition get_greedy_action (self : t) (obs : tensor2) : M (tensor2 * t) :=
  embedded_obs ← call_encoder (encoder self) obs;
  rec ← call_recurrent (recurrent_model self)
          (cat (stochastic_state self) (actions self)) (recurrent_state self);
  let recurrent_state := rec.2 in
  post ← greedy_posterior self recurrent_state embedded_obs;
  let stochastic_state := post.2 in
  actions ← call_actor (actor self) (cat stochastic_state recurrent_state);
  mret (actions, set_states self actions recurrent_state stochastic_state).


(** [torch.cat(actions, -1)] of the tuple of action heads; an empty tuple
    is a RuntimeError ([None]). *)
Definition cat_heads (heads : list tensor2) : option tensor2 :=
  match heads with
  | [] => None
  | head :: heads' => Some (foldl cat head heads')
  end.

(** [torch.clip(x, -1, 1)] *)
Definition clip_unit (x : tensor2) : tensor2 :=
  map (map (λ q, Qmin (Qmax q (-1)) 1)) x.

(** [Normal(loc, scale).sample()]: one draw of the generator. *)
Definition normal_sample (loc : tensor2) (scale : Q) : M tensor2 :=
  noise ← randn_like loc;
  mret (add2 loc (scale2 scale noise)).

(** [OneHotCategorical(logits=torch.zeros_like(act)).sample()]: one draw of
    the generator, which gives for every environment the index of the
    entry that is one. *)
Definition one_hot (size index : nat) : tensor1 :=
  (λ j, if decide (j = index) then 1 else 0) <$> seq 0 size.

Definition one_hot_sample (act : tensor2) : M tensor2 :=
  λ w, (imap (λ i row,
                one_hot (length row)
                  (Z.to_nat (Qfloor (generator w (draws w) i 0%nat)) mod length row)%nat)
          act,
        World (generator w) (S (draws w)) (calls w)).

(** [torch.rand(act.shape[:1])]: the leading dimension of an action of
    the player has size one, so this is one number for all
    environments. *)
Definition rand : M Q :=
  λ w, (generator w (draws w) 0%nat 0%nat, World (generator w) (S (draws w)) (calls w)).

(** The body of [for act in actions] of the discrete case;
    [torch.where] takes the sample or the action as a whole. *)
Definition explore_head (self : t) (act : tensor2) : M tensor2 :=
  sample ← one_hot_sample act;
  u ← rand;
  mret (if Qlt_le_dec u (expl_amount self) then sample else act).

Fixpoint explore_heads (self : t) (actions : list tensor2) : M (list tensor2) :=
  match actions with
  | [] => mret []
  | act :: actions' =>
      expl ← explore_head self act;
      rest ← explore_heads self actions';
      mret (expl :: rest)
  end.

(** PlayerDV1.get_exploration_action after the call of
    [get_greedy_action], for the tuple [actions] it returned: the tuple of
    exploration actions and the player with [self.actions] set;
    [None] is the RuntimeError of [torch.cat] on an empty tuple. *)
Definition explore (self : t) (actions : list tensor2) (is_continuous : bool)
    : M (option (list tensor2 * t)) :=
  if is_continuous then
    match cat_heads actions with
    | None => mret None
    | Some greedy =>
        if Qlt_le_dec 0 (expl_amount self) then
          noisy ← normal_sample greedy (expl_amount self);
          let expl := clip_unit noisy in
          mret (Some ([expl],
                      set_states self expl (recurrent_state self) (stochastic_state self)))
        else
          mret (Some ([greedy],
                      set_states self greedy (recurrent_state self) (stochastic_state self)))
    end
  else
    expl_actions ← explore_heads self actions;
    match cat_heads expl_actions with
    | None => mret None
    | Some stored =>
        mret (Some (expl_actions,
                    set_states self stored (recurrent_state self) (stochastic_state self)))
    end.

End PlayerDV1.

(** *** build_models *)

(** The hyper-parameters read by [build_models] and, for [lmbda], by the
    training step ([DreamerV1Args] itself is declared in args.py). *)
Record DreamerV1Args := {
  cnn_channels_multiplier : Z;
  dense_units : Z;
  cnn_act : string;
  dense_act : string;
  stochastic_size : Z;
  recurrent_state_size : Z;
  hidden_size : Z;
  mlp_layers : Z;
  args_min_std : Q;
  use_continues : bool;
  env_id : string;
  actor_init_std : Q;
  actor_min_std : Q;
  lmbda : Q
}.

(** What the functions called by [build_models] raise: a Python exception,
    with its class and its message. *)
Inductive exception := Exception (type msg : string).

Definition ValueError (msg : string) : exception := Exception "ValueError" msg.
Definition KeyError (key : string) : exception := Exception "KeyError" key.

Inductive result (A : Type) :=
| Ok (a : A)
| Raised (e : exception).
Arguments Ok {A} a.
Arguments Raised {A} e.

#[export] Instance result_ret : MRet result := λ A a, Ok a.
#[export] Instance result_bind : MBind result :=
  λ A B f m, match m with Ok a => f a | Raised e => Raised e end.

(** [[f(x) for x in l]]: the first exception escapes. *)
Fixpoint for_each {A B} (f : A → result B) (l : list A) : result (list B) :=
  match l with
  | [] => Ok []
  | x :: l' => y ← f x; ys ← for_each f l'; Ok (y :: ys)
  end.

(** What the constructors are called with; weights are not modelled, and
    the constants [layer_norm=False] and [flatten_dim=None] are left out. *)
Record MLP := {
  input_dims : Z;
  output_dim : Z;
  hidden_sizes : list Z;
  activation : string
}.

Record RecurrentModel := {
  input_size : Z;
  rm_recurrent_state_size : Z
}.

Record CNNEncoder := {
  cnn_enc_keys : list string;
  cnn_enc_input_channels : list Z;
  cnn_enc_image_size : list Z;
  cnn_enc_channels_multiplier : Z;
  cnn_enc_activation : string
}.

Record MLPEncoder := {
  mlp_enc_keys : list string;
  mlp_enc_input_dims : list Z;
  mlp_enc_mlp_layers : Z;
  mlp_enc_dense_units : Z;
  mlp_enc_activation : string
}.

(** [MultiEncoder(cnn_encoder, mlp_encoder)] and the two attributes
    [build_models] reads of it. *)
Record MultiEncoder := {
  cnn_encoder : option CNNEncoder;
  mlp_encoder : option MLPEncoder;
  cnn_output_dim : Z;
  mlp_output_dim : Z
}.

Record CNNDecoder := {
  cnn_dec_keys : list string;
  cnn_dec_output_channels : list Z;
  cnn_dec_channels_multiplier : Z;
  cnn_dec_latent_state_size : Z;
  cnn_dec_encoder_output_dim : Z;
  cnn_dec_image_size : list Z;
  cnn_dec_activation : string
}.

Record MLPDecoder := {
  mlp_dec_keys : list string;
  mlp_dec_output_dims : list Z;
  mlp_dec_latent_state_size : Z;
  mlp_dec_mlp_layers : Z;
  mlp_dec_dense_units : Z;
  mlp_dec_activation : string
}.

Record MultiDecoder := {
  cnn_decoder : option CNNDecoder;
  mlp_decoder : option MLPDecoder
}.

(** [Actor(...)], or [MinedojoActor(...)] when [actor_minedojo] is set. *)
Record Actor := {
  actor_latent_state_size : Z;
  actor_actions_dim : list Z;
  actor_is_continuous : bool;
  actor_init : Q;
  actor_min : Q;
  actor_dense_units : Z;
  actor_activation : string;
  actor_mlp_layers : Z;
  actor_distribution : string;
  actor_minedojo : bool
}.

Record Models := {
  encoder : MultiEncoder;
  rssm_recurrent_model : RecurrentModel;
  rssm_representation_model : MLP;
  rssm_transition_model : MLP;
  rssm_min_std : Q;
  observation_model : MultiDecoder;
  reward_model : MLP;
  continue_model : option MLP;
  actor : Actor;
  critic : MLP
}.

(** The modules that [init_weights], a checkpoint or Fabric is applied
    to. *)
Inductive module :=
| ModEncoder | ModRecurrent | ModRepresentation | ModTransition | ModObservation
| ModReward | ModContinue | ModWorldModel | ModActor | ModCritic.

(** The calls [build_models] and [RecurrentModel.__init__] make into torch,
    Fabric and the parts of sheeprl outside this file. *)
Inductive library_call :=
| ModuleInit
| NewCNNEncoder (a : CNNEncoder)
| NewMLPEncoder (a : MLPEncoder)
| NewMultiEncoder (cnn : option CNNEncoder) (mlp : option MLPEncoder)
| NewLinear (in_features out_features : Z)
| NewActivation (name : string)
| NewSequential
| NewGRU (gru_input_size gru_hidden_size : Z)
| NewMLP (a : MLP)
| NewCNNDecoder (a : CNNDecoder)
| NewMLPDecoder (a : MLPDecoder)
| NewMultiDecoder (cnn : option CNNDecoder) (mlp : option MLPDecoder)
| NewActor (a : Actor)
| ApplyInitWeights (m : module)
| LoadStateDict (m : module) (state_keys : list string)
| SetupModule (m : module).

(** The library [build_models] runs against: the names [torch.nn]
    defines, the exception a call raises, if any, and the output sizes
    that the encoders compute from their arguments. *)
Record Library := {
  nn : list string;
  raises : library_call → option exception;
  cnn_encoder_output_dim : CNNEncoder → Z;
  encoder_output_dims : option CNNEncoder → option MLPEncoder → Z * Z
}.

Definition external (lib : Library) (c : library_call) : result unit :=
  match raises lib c with
  | Some e => Raised e
  | None => Ok tt
  end.

(** [str(n)] for an int. *)
Definition str (n : Z) : string := NilZero.string_of_int (Z.to_int n).

(** [getattr(nn, name)]: the attribute, or AttributeError ([None]). *)
Definition getattr (nn : list string) (name : string) : option string :=
  if decide (name ∈ nn) then Some name else None.

Definition nonlinearity_url : string :=
  "https://pytorch.org/docs/stable/nn.html#non-linear-activations-weighted-sum-nonlinearity".

(** [obs_space[k].shape]: KeyError for a key the space does not have. *)
Definition space_shape (obs_space : list (string * list Z)) (k : string)
    : result (list Z) :=
  match list_find (λ kv, kv.1 = k) obs_space with
  | Some (_, kv) => Ok kv.2
  | None => Raised (KeyError k)
  end.

(** [shape[0]], [int(np.prod(shape[:-2]))] and [shape[-2:]]. *)
Definition first_dim (shape : list Z) : result Z :=
  match shape with
  | d :: _ => Ok d
  | [] => Raised (Exception "IndexError" "tuple index out of range")
  end.
Definition leading_product (shape : list Z) : Z := foldr Z.mul 1%Z (but_last 2 shape).
Definition last_two (shape : list Z) : list Z := drop (length shape - 2) shape.

(** [[int(np.prod(obs_space[k].shape[:-2])) for k in cnn_keys]] *)
Definition channels (obs_space : list (string * list Z)) (keys : list string)
    : result (list Z) :=
  for_each (λ k, shape ← space_shape obs_space k; Ok (leading_product shape)) keys.

(** [RecurrentModel.__init__], with the default activation [nn.ELU]. *)
Definition new_RecurrentModel (lib : Library) (input_size recurrent_state_size : Z)
    : result RecurrentModel :=
  _ ← external lib ModuleInit;
  _ ← external lib (NewLinear input_size recurrent_state_size);
  _ ← external lib (NewActivation "ELU");
  _ ← external lib NewSequential;
  _ ← external lib (NewGRU recurrent_state_size recurrent_state_size);
  Ok {| input_size := input_size; rm_recurrent_state_size := recurrent_state_size |}.

Definition new_MLP (lib : Library) (a : MLP) : result MLP :=
  _ ← external lib (NewMLP a); Ok a.

(** The part of [build_models] under "Sizes" and "Define models", with
    the two activations the guards have looked up. *)
Definition define_models (lib : Library) (actions_dim : list Z) (is_continuous : bool)
    (args : DreamerV1Args) (obs_space : list (string * list Z))
    (cnn_keys mlp_keys : option (list string)) (cnn_act dense_act : string)
    : result Models :=
  let latent_state_size := (stochastic_size args + recurrent_state_size args)%Z in
  mlp_dims ← match mlp_keys with
             | None => Raised (Exception "TypeError" "'NoneType' object is not iterable")
             | Some keys =>
                 for_each (λ k, shape ← space_shape obs_space k; first_dim shape) keys
             end;
  cnn_encoder ← match cnn_keys with
                | Some (k0 :: ks) =>
                    input_channels ← channels obs_space (k0 :: ks);
                    image ← space_shape obs_space k0;
                    let a := {| cnn_enc_keys := k0 :: ks;
                                cnn_enc_input_channels := input_channels;
                                cnn_enc_image_size := last_two image;
                                cnn_enc_channels_multiplier := cnn_channels_multiplier args;
                                cnn_enc_activation := cnn_act |} in
                    _ ← external lib (NewCNNEncoder a);
                    Ok (Some a)
                | _ => Ok None
                end;
  mlp_encoder ← match mlp_keys with
                | Some (k0 :: ks) =>
                    let a := {| mlp_enc_keys := k0 :: ks;
                                mlp_enc_input_dims := mlp_dims;
                                mlp_enc_mlp_layers := mlp_layers args;
                                mlp_enc_dense_units := dense_units args;
                                mlp_enc_activation := dense_act |} in
                    _ ← external lib (NewMLPEncoder a);
                    Ok (Some a)
                | _ => Ok None
                end;
  _ ← external lib (NewMultiEncoder cnn_encoder mlp_encoder);
  let encoder := {| cnn_encoder := cnn_encoder;
                    mlp_encoder := mlp_encoder;
                    cnn_output_dim := (encoder_output_dims lib cnn_encoder mlp_encoder).1;
                    mlp_output_dim := (encoder_output_dims lib cnn_encoder mlp_encoder).2 |} in
  recurrent_model ← new_RecurrentModel lib
                      (foldr Z.add 0 actions_dim + stochastic_size args)%Z
                      (recurrent_state_size args);
  representation_model ←
    new_MLP lib {| input_dims := (recurrent_state_size args + cnn_output_dim encoder
                                  + mlp_output_dim encoder)%Z;
                   output_dim := (stochastic_size args * 2)%Z;
                   hidden_sizes := [hidden_size args];
                   activation := dense_act |};
  transition_model ←
    new_MLP lib {| input_dims := recurrent_state_size args;
                   output_dim := (stochastic_size args * 2)%Z;
                   hidden_sizes := [hidden_size args];
                   activation := dense_act |};
  _ ← external lib (ApplyInitWeights ModRecurrent);
  _ ← external lib (ApplyInitWeights ModRepresentation);
  _ ← external lib (ApplyInitWeights ModTransition);
  _ ← external lib ModuleInit;
  cnn_decoder ← match cnn_keys with
                | Some (k0 :: ks) =>
                    output_channels ← channels obs_space (k0 :: ks);
                    encoder_output_dim ←
                      match cnn_encoder with
                      | Some enc => Ok (cnn_encoder_output_dim lib enc)
                      | None =>
                          Raised (Exception "AttributeError"
                                    "'NoneType' object has no attribute 'output_dim'")
                      end;
                    image ← space_shape obs_space k0;
                    let a := {| cnn_dec_keys := k0 :: ks;
                                cnn_dec_output_channels := output_channels;
                                cnn_dec_channels_multiplier := cnn_channels_multiplier args;
                                cnn_dec_latent_state_size := latent_state_size;
                                cnn_dec_encoder_output_dim := encoder_output_dim;
                                cnn_dec_image_size := last_two image;
                                cnn_dec_activation := cnn_act |} in
                    _ ← external lib (NewCNNDecoder a);
                    Ok (Some a)
                | _ => Ok None
                end;
  mlp_decoder ← match mlp_keys with
                | Some (k0 :: ks) =>
                    let a := {| mlp_dec_keys := k0 :: ks;
                                mlp_dec_output_dims := mlp_dims;
                                mlp_dec_latent_state_size := latent_state_size;
                                mlp_dec_mlp_layers := mlp_layers args;
                                mlp_dec_dense_units := dense_units args;
                                mlp_dec_activation := dense_act |} in
                    _ ← external lib (NewMLPDecoder a);
                    Ok (Some a)
                | _ => Ok None
                end;
  _ ← external lib (NewMultiDecoder cnn_decoder mlp_decoder);
  let head := {| input_dims := latent_state_size; output_dim := 1;
                 hidden_sizes := replicate (Z.to_nat (mlp_layers args)) (dense_units args);
                 activation := dense_act |} in
  reward_model ← new_MLP lib head;
  continue_model ← (if use_continues args
                    then m ← new_MLP lib head; Ok (Some m) else Ok None);
  _ ← external lib (ApplyInitWeights ModEncoder);
  _ ← external lib (ApplyInitWeights ModObservation);
  _ ← external lib (ApplyInitWeights ModReward);
  _ ← (if use_continues args then external lib (ApplyInitWeights ModContinue) else Ok tt);
  _ ← external lib ModuleInit;
  let a := {| actor_latent_state_size := latent_state_size;
              actor_actions_dim := actions_dim;
              actor_is_continuous := is_continuous;
              actor_init := actor_init_std args;
              actor_min := actor_min_std args;
              actor_dense_units := dense_units args;
              actor_activation := dense_act;
              actor_mlp_layers := mlp_layers args;
              actor_distribution := "tanh_normal";
              actor_minedojo :=
                bool_decide (is_Some (String.index 0 "minedojo" (env_id args))) |} in
  _ ← external lib (NewActor a);
  critic ← new_MLP lib head;
  _ ← external lib (ApplyInitWeights ModActor);
  _ ← external lib (ApplyInitWeights ModCritic);
  Ok {| encoder := encoder;
        rssm_recurrent_model := recurrent_model;
        rssm_representation_model := representation_model;
        rssm_transition_model := transition_model;
        rssm_min_std := args_min_std args;
        observation_model := {| cnn_decoder := cnn_decoder; mlp_decoder := mlp_decoder |};
        reward_model := reward_model;
        continue_model := continue_model;
        actor := a;
        critic := critic |}.

(** [if state: module.load_state_dict(state)]: [None] and an empty
    dictionary are falsy. *)
Definition load_state_dict (lib : Library) (m : module) (state : option (list string))
    : result unit :=
  match state with
  | Some (k :: ks) => external lib (LoadStateDict m (k :: ks))
  | _ => Ok tt
  end.

(** The parts "Load models from checkpoint" and "Setup models with
    Fabric". *)
Definition load_and_setup (lib : Library)
    (world_model_state actor_state critic_state : option (list string)) (models : Models)
    : result Models :=
  _ ← load_state_dict lib ModWorldModel world_model_state;
  _ ← load_state_dict lib ModActor actor_state;
  _ ← load_state_dict lib ModCritic critic_state;
  _ ← external lib (SetupModule ModEncoder);
  _ ← external lib (SetupModule ModObservation);
  _ ← external lib (SetupModule ModReward);
  _ ← external lib (SetupModule ModRecurrent);
  _ ← external lib (SetupModule ModRepresentation);
  _ ← external lib (SetupModule ModTransition);
  _ ← (if continue_model models is Some _
       then external lib (SetupModule ModContinue) else Ok tt);
  _ ← external lib (SetupModule ModActor);
  _ ← external lib (SetupModule ModCritic);
  Ok models.

(** [build_models]: the four guards, then the construction. *)
Definition build_models (lib : Library) (actions_dim : list Z) (is_continuous : bool)
    (args : DreamerV1Args) (obs_space : list (string * list Z))
    (cnn_keys mlp_keys : option (list string))
    (world_model_state actor_state critic_state : option (list string))
    : result Models :=
  if decide (cnn_channels_multiplier args ≤ 0)%Z then
    Raised (ValueError ("cnn_channels_multiplier must be greater than zero, given "
                        +:+ str (cnn_channels_multiplier args)))
  else if decide (dense_units args ≤ 0)%Z then
    Raised (ValueError ("dense_units must be greater than zero, given "
                        +:+ str (dense_units args)))
  else
    match getattr (nn lib) (cnn_act args) with
    | None =>
        Raised (ValueError ("Invalid value for cnn_act, given " +:+ cnn_act args +:+ ", "
                            +:+ "must be one of " +:+ nonlinearity_url))
    | Some cnn_activation =>
    match getattr (nn lib) (dense_act args) with
    | None =>
        Raised (ValueError ("Invalid value for dense_act, given " +:+ dense_act args
                            +:+ ", " +:+ "must be one of " +:+ nonlinearity_url))
    | Some dense_activation =>
        models ← define_models lib actions_dim is_continuous args obs_space
                   cnn_keys mlp_keys cnn_activation dense_activation;
        load_and_setup lib world_model_state actor_state critic_state models
    end end.

End dreamer_v1_agent.

(** ** sheeprl/algos/dreamer_v2/dreamer_v2.py: train *)

Module dreamer_v2.
Import stochastic dreamer_v1_agent.

(** The entries of [data] (a TensorDict) that the step reads, each of
    shape (sequence_length, batch_size, size). *)
Record SequenceBatch := {
  actions : tensor3;
  is_first : tensor3;
  dones : tensor3;
  rewards : tensor3
}.

Record DreamerV2Args := {
  per_rank_batch_size : nat;
  per_rank_sequence_length : nat;
  recurrent_state_size : nat;
  stochastic_size : nat;
  discrete_size : nat;
  horizon : nat;
  lmbda : Q;
  gamma : Q;
  use_continues : bool;
  actor_ent_coef : Q;
  objective_mix : Q
}.

(** [x[i : i + 1]] without its leading dimension; past the end the slice
    is empty. *)
Definition time_slice (x : tensor3) (i : nat) : tensor2 := default [] (x !! i).

(** [data["is_first"][0, :] = torch.tensor([1.0]).expand_as(data["is_first"][0, :])];
    IndexError ([None]) on an empty sequence. *)
Definition override_is_first (data : SequenceBatch) : option SequenceBatch :=
  first ← is_first data !! 0%nat;
  Some {| actions := actions data;
          is_first := <[0%nat := ones_like2 first]> (is_first data);
          dones := dones data;
          rewards := rewards data |}.

(** *** Dynamic learning *)

Definition asserted (flag : tensor1) : bool :=
  match flag with
  | q :: _ => Qeq_bool q 1
  | [] => false
  end.

(** Step 1 of the Dynamics Stepper, per example. *)
Definition reset (is_first state : tensor2) : tensor2 :=
  zip_with (λ flag row, if asserted flag then zeros_like1 row else row) is_first state.

(** Modelled from the spec: [RSSM.dynamic] of
    sheeprl/algos/dreamer_v2/agent.py, called by [train] with the
    [is_first] slice, is not among the sources.  Section 4.4 of the
    specification: (1) where [is_first] is asserted the incoming recurrent
    and stochastic states are reset to zero, per example, before (2) the
    Recurrent Transition Unit updates the recurrent state from the
    previous stochastic state and the action, (3) the Prior Predictor and
    (4) the Posterior Estimator work from the new recurrent state; (5) it
    returns the new recurrent state, the posterior sample, the prior
    sample and both distribution parameters. *)
Definition dynamic (self : RSSM)
    (posterior recurrent_state action embedded_obs is_first : tensor2)
    : M (tensor2 * tensor2 * tensor2 * (tensor2 * tensor2) * (tensor2 * tensor2)) :=
  let recurrent_state := reset is_first recurrent_state in
  let posterior := reset is_first posterior in
  rec ← call_recurrent (recurrent_model self) (cat posterior action) recurrent_state;
  let recurrent_state := rec.2 in
  pri ← _transition self recurrent_state;
  post ← _representation self recurrent_state embedded_obs;
  mret (recurrent_state, post.2, pri.2, post.1, pri.1).

(** The variables of the dynamic-learning loop.  [torch.empty] buffers
    hold [None] where nothing was written yet. *)
Record DynamicState := {
  recurrent_state : tensor2;
  posterior : tensor2;
  recurrent_states : tensor3;
  priors_logits : list (option (tensor2 * tensor2));
  posteriors : list (option tensor2);
  posteriors_logits : list (option (tensor2 * tensor2))
}.

Definition dynamic_learning_init (args : DreamerV2Args) : DynamicState :=
  let batch_size := per_rank_batch_size args in
  let sequence_length := per_rank_sequence_length args in
  {| recurrent_state := zeros batch_size (recurrent_state_size args);
     posterior := zeros batch_size (stochastic_size args * discrete_size args);
     recurrent_states :=
       replicate sequence_length (zeros batch_size (recurrent_state_size args));
     priors_logits := replicate sequence_length None;
     posteriors := replicate sequence_length None;
     posteriors_logits := replicate sequence_length None |}.

(** [world_model.rssm.dynamic], as [train] uses it: a method of the world
    model handed to [train], called with the posterior, the recurrent
    state, the action, the embedded observation and the [is_first] flags of
    one timestep. *)
Definition Stepper : Type :=
  tensor2 → tensor2 → tensor2 → tensor2 → tensor2 →
  M (tensor2 * tensor2 * tensor2 * (tensor2 * tensor2) * (tensor2 * tensor2)).

(** The body of [for i in range(0, sequence_length)]. *)
Definition dynamic_learning_step_with (dynamic : Stepper) (data : SequenceBatch)
    (embedded_obs : tensor3) (i : nat) (st : DynamicState) : M DynamicState :=
  out ← dynamic (posterior st) (recurrent_state st)
          (time_slice (actions data) i) (time_slice embedded_obs i)
          (time_slice (is_first data) i);
  let '(recurrent_state, posterior, _, posterior_logits, prior_logits) := out in
  mret {| recurrent_state := recurrent_state;
          posterior := posterior;
          recurrent_states := <[i := recurrent_state]> (recurrent_states st);
          priors_logits := <[i := Some prior_logits]> (priors_logits st);
          posteriors := <[i := Some posterior]> (posteriors st);
          posteriors_logits := <[i := Some posterior_logits]> (posteriors_logits st) |}.

(** The first [n] iterations of the loop. *)
Definition dynamic_learning_upto_with (dynamic : Stepper) (args : DreamerV2Args)
    (data : SequenceBatch) (embedded_obs : tensor3) (n : nat) : M DynamicState :=
  for_range (dynamic_learning_step_with dynamic data embedded_obs) 0 n
    (dynamic_learning_init args).

Definition dynamic_learning_with (dynamic : Stepper) (args : DreamerV2Args)
    (data : SequenceBatch) (embedded_obs : tensor3) : M DynamicState :=
  dynamic_learning_upto_with dynamic args data embedded_obs (per_rank_sequence_length args).

(** The loop with the Dynamics Stepper of the specification. *)
Definition dynamic_learning_step (rssm : RSSM) (data : SequenceBatch)
    (embedded_obs : tensor3) (i : nat) (st : DynamicState) : M DynamicState :=
  dynamic_learning_step_with (dynamic rssm) data embedded_obs i st.

Definition dynamic_learning_upto (rssm : RSSM) (args : DreamerV2Args)
    (data : SequenceBatch) (embedded_obs : tensor3) (n : nat) : M DynamicState :=
  dynamic_learning_upto_with (dynamic rssm) args data embedded_obs n.

Definition dynamic_learning (rssm : RSSM) (args : DreamerV2Args)
    (data : SequenceBatch) (embedded_obs : tensor3) : M DynamicState :=
  dynamic_learning_with (dynamic rssm) args data embedded_obs.

(** The start of [train]: the override, written into [data] in place, then
    dynamic learning, which takes the flags of every timestep from the
    overwritten [data].  [train] returns nothing: the batch stands for
    what the caller's [data] holds after the call. *)
Definition train_dynamic_learning (dynamic : Stepper) (args : DreamerV2Args)
    (data : SequenceBatch) (embedded_obs : tensor3)
    : option (SequenceBatch * M DynamicState) :=
  data' ← override_is_first data;
  Some (data', dynamic_learning_with dynamic args data' embedded_obs).

(** *** Behaviour learning: imagination *)

Record ImaginationState := {
  imagined_prior : tensor2;
  imagined_recurrent_state : tensor2;
  imagined_latent_state : tensor2;
  imagined_trajectories : list (option tensor2);
  imagined_actions : list (option tensor2)
}.

(** [posteriors] and [recurrent_states] reshaped to
    (1, batch_size * sequence_length, size); the two buffers and their
    entries at index 0. *)
Definition imagination_init (args : DreamerV2Args) (action_size : nat)
    (posteriors recurrent_states : tensor3) : ImaginationState :=
  let imagined_prior := concat posteriors in
  let recurrent_state := concat recurrent_states in
  let imagined_latent_state := cat imagined_prior recurrent_state in
  {| imagined_prior := imagined_prior;
     imagined_recurrent_state := recurrent_state;
     imagined_latent_state := imagined_latent_state;
     imagined_trajectories :=
       <[0%nat := Some imagined_latent_state]> (replicate (horizon args + 1) None);
     imagined_actions :=
       <[0%nat := Some (zeros (per_rank_batch_size args * per_rank_sequence_length args)
                          action_size)]>
         (replicate (horizon args + 1) None) |}.

(** The body of [for i in range(1, args.horizon + 1)]. *)
Definition imagination_step (rssm : RSSM) (actor : (nat → nat → Q) → tensor2 → tensor2)
    (i : nat) (st : ImaginationState) : M ImaginationState :=
  actions ← call_actor actor (imagined_latent_state st);
  let imagined_actions := <[i := Some actions]> (imagined_actions st) in
  im ← imagination rssm (imagined_prior st) (imagined_recurrent_state st) actions;
  let imagined_prior := im.1 in
  let recurrent_state := im.2 in
  let imagined_latent_state := cat imagined_prior recurrent_state in
  mret {| imagined_prior := imagined_prior;
          imagined_recurrent_state := recurrent_state;
          imagined_latent_state := imagined_latent_state;
          imagined_trajectories :=
            <[i := Some imagined_latent_state]> (imagined_trajectories st);
          imagined_actions := imagined_actions |}.

(** The first [n] iterations of the loop. *)
Definition imagine_upto (rssm : RSSM) (actor : (nat → nat → Q) → tensor2 → tensor2)
    (args : DreamerV2Args) (action_size : nat) (posteriors recurrent_states : tensor3)
    (n : nat) : M ImaginationState :=
  for_range (imagination_step rssm actor) 1 n
    (imagination_init args action_size posteriors recurrent_states).

Definition imagine (rssm : RSSM) (actor : (nat → nat → Q) → tensor2 → tensor2)
    (args : DreamerV2Args) (action_size : nat) (posteriors recurrent_states : tensor3)
    : M ImaginationState :=
  imagine_upto rssm actor args action_size posteriors recurrent_states (horizon args).

(** *** Behaviour learning: returns and losses *)

(** [continues]: with a continue model, the true [(1 - dones) * gamma] of
    the replayed step followed by the predicted means past index 0;
    otherwise [gamma] everywhere. *)
Definition train_continues (args : DreamerV2Args) (has_continue_model : bool)
    (dones predicted_continues predicted_rewards : tensor3) : tensor3 :=
  if use_continues args && has_continue_model then
    let true_done := scale2 (gamma args) (map (map (λ d, 1 - d)) (concat dones)) in
    [true_done] ++ from 1 predicted_continues
  else
    map (scale2 (gamma args)) (ones_like3 predicted_rewards).

(** The call of [compute_lambda_values]; [predicted_target_values[-1:]]
    is the bootstrap. *)
Definition train_lambda_values (args : DreamerV2Args)
    (predicted_rewards predicted_target_values continues : tensor3) : option tensor3 :=
  bootstrap ← last predicted_target_values;
  utils.compute_lambda_values
    (but_last 1 predicted_rewards) (but_last 1 predicted_target_values)
    (but_last 1 continues) bootstrap (horizon args) (lmbda args).

(** [torch.cumprod(torch.cat((torch.ones_like(continues[:1]), continues[:-1]), 0), 0)] *)
Definition train_discount (continues : tensor3) : tensor3 :=
  cumprod (ones_like3 (upto 1 continues) ++ but_last 1 continues).

Inductive exn := NotImplementedError | RuntimeError | IndexError.

Inductive outcome (A : Type) :=
| Return (a : A)
| Raise (e : exn).
Arguments Return {A} a.
Arguments Raise {A} e.

Definition or_raise {A} (e : exn) (x : option A) : outcome A :=
  match x with
  | Some a => Return a
  | None => Raise e
  end.

(** A policy distribution over a batch of shape (H-1, N): [entropy()] and
    [log_prob(actions)] have that shape; a family without a closed form
    raises NotImplementedError from [entropy()]. *)
Record Distribution := {
  entropy : outcome tensor2;
  log_prob : tensor3 → tensor2
}.

(** [[p.entropy() for p in policies]]: the first exception escapes. *)
Fixpoint entropies (policies : list Distribution) : outcome (list tensor2) :=
  match policies with
  | [] => Return []
  | p :: ps =>
      match entropy p with
      | Raise e => Raise e
      | Return h =>
          match entropies ps with
          | Raise e => Raise e
          | Return hs => Return (h :: hs)
          end
      end
  end.

(** [torch.stack(xs, -1).sum(dim=-1)]: an empty list or unequal shapes are
    a RuntimeError. *)
Definition stack_sum2 (xs : list tensor2) : outcome tensor2 :=
  match xs with
  | [] => Raise RuntimeError
  | x :: xs' =>
      if forallb (λ y, bool_decide (map length y = map length x)) xs'
      then Return (foldl add2 x xs')
      else Raise RuntimeError
  end.

(** The value of [entropy] after the try statement carries its rank: the
    scaled entropies have the rank of the distributions' batch, the
    fallback [torch.zeros_like(objective)] has the rank of [objective]. *)
Inductive entropy_tensor :=
| Entropy2 (e : tensor2)
| Entropy3 (e : tensor3).

(** The try statement:
    [entropy = actor_ent_coef * stack([p.entropy() ...], -1).sum(dim=-1)],
    and on NotImplementedError [entropy = torch.zeros_like(objective)]. *)
Definition entropy_try (args : DreamerV2Args) (policies : list Distribution)
    : outcome tensor2 :=
  match entropies policies with
  | Raise e => Raise e
  | Return hs =>
      match stack_sum2 hs with
      | Raise e => Raise e
      | Return h => Return (scale2 (actor_ent_coef args) h)
      end
  end.

Definition actor_entropy (args : DreamerV2Args) (policies : list Distribution)
    (objective : tensor3) : outcome entropy_tensor :=
  match entropy_try args policies with
  | Return h => Return (Entropy2 h)
  | Raise NotImplementedError => Return (Entropy3 (zeros_like3 objective))
  | Raise e => Raise e
  end.

(** [-torch.mean(discount[:-2] * (objective + entropy.unsqueeze(-1)))].
    A tensor of rank 3 meets one of rank 4 as if it had a leading
    dimension of size one. *)
Definition policy_loss (discount objective : tensor3) (entropy : entropy_tensor)
    : outcome Q :=
  match entropy with
  | Entropy2 e =>
      or_raise RuntimeError
        (s ← bop3 Qplus objective (unsqueeze_last2 e);
         w ← bop3 Qmult (but_last 2 discount) s;
         Some (- mean3 w))
  | Entropy3 e =>
      or_raise RuntimeError
        (s ← bop4 Qplus [objective] (unsqueeze_last3 e);
         w ← bop4 Qmult [but_last 2 discount] s;
         Some (- mean4 w))
  end.

(** The actor part of the step from [objective] on. *)
Definition actor_loss (args : DreamerV2Args) (policies : list Distribution)
    (discount objective : tensor3) : outcome Q :=
  match actor_entropy args policies objective with
  | Raise e => Raise e
  | Return entropy => policy_loss discount objective entropy
  end.


End dreamer_v2.

(** ** sheeprl/algos/p2e/p2e.py: train *)

Module p2e.
Import dreamer_v1_agent.

Record ImaginationState := {
  imagined_stochastic_state : tensor2;
  recurrent_state : tensor2;
  imagined_latent_states : tensor2;
  imagined_trajectories : list (option tensor2);
  all_actions : tensor3
}.

(** [imagined_trajectories = torch.empty(horizon, ...)] and
    [all_actions = torch.zeros(horizon, ...)]. *)
Definition imagination_init (horizon batch action_size : nat)
    (stochastic_states recurrent_states : tensor3) : ImaginationState :=
  let imagined_stochastic_state := concat stochastic_states in
  let recurrent_state := concat recurrent_states in
  {| imagined_stochastic_state := imagined_stochastic_state;
     recurrent_state := recurrent_state;
     imagined_latent_states := cat imagined_stochastic_state recurrent_state;
     imagined_trajectories := replicate horizon None;
     all_actions := replicate horizon (zeros batch action_size) |}.

(** The body of [for i in range(args.horizon)]. *)
Definition imagination_step (rssm : RSSM) (actor : (nat → nat → Q) → tensor2 → tensor2)
    (i : nat) (st : ImaginationState) : M ImaginationState :=
  actions ← call_actor actor (imagined_latent_states st);
  let all_actions := <[0%nat := actions]> (all_actions st) in
  im ← imagination rssm (imagined_stochastic_state st) (recurrent_state st) actions;
  let imagined_stochastic_state := im.1 in
  let recurrent_state := im.2 in
  let imagined_latent_states := cat imagined_stochastic_state recurrent_state in
  mret {| imagined_stochastic_state := imagined_stochastic_state;
          recurrent_state := recurrent_state;
          imagined_latent_states := imagined_latent_states;
          imagined_trajectories :=
            <[i := Some imagined_latent_states]> (imagined_trajectories st);
          all_actions := all_actions |}.

(** The first [n] iterations of the loop. *)
Definition imagine_upto (rssm : RSSM) (actor : (nat → nat → Q) → tensor2 → tensor2)
    (horizon batch action_size : nat) (stochastic_states recurrent_states : tensor3)
    (n : nat) : M ImaginationState :=
  for_range (imagination_step rssm actor) 0 n
    (imagination_init horizon batch action_size stochastic_states recurrent_states).

Definition imagine (rssm : RSSM) (actor : (nat → nat → Q) → tensor2 → tensor2)
    (horizon batch action_size : nat) (stochastic_states recurrent_states : tensor3)
    : M ImaginationState :=
  imagine_upto rssm actor horizon batch action_size stochastic_states recurrent_states
    horizon.

(** [torch.cumprod(torch.cat((torch.ones_like(done_mask[:1]), done_mask[:-2]), 0), 0)] *)
Definition train_discount (done_mask : tensor3) : tensor3 :=
  cumprod (ones_like3 (upto 1 done_mask) ++ but_last 2 done_mask).


Definition critic_weights (discount : tensor3) : option tensor2 :=
  select_last0 discount.


(** *** The intrinsic reward *)

(** [buffer[i] = value]: the value is expanded to the shape of the slot,
    dimension by dimension; a size that is neither the size of the slot nor
    one is a RuntimeError. *)
Definition expand {A B} (f : A → B → option B) (slot : list A) (value : list B)
    : option (list B) :=
  if decide (length value = length slot) then mapM (λ p, f p.1 p.2) (zip slot value)
  else
    match value with
    | [v] => mapM (λ s, f s v) slot
    | _ => None
    end.

Definition expand1 : tensor1 → tensor1 → option tensor1 := expand (λ _ v, Some v).
Definition expand2 : tensor2 → tensor2 → option tensor2 := expand expand1.
Definition expand3 : tensor3 → tensor3 → option tensor3 := expand expand2.

(** The entries at index [t] of the first dimension of each of [xs], for
    [t] below [n]. *)
Definition columns {A} (n : nat) (xs : list (list A)) : list (list A) :=
  (λ t, omap (λ x : list A, x !! t) xs) <$> seq 0 n.

(** The unbiased variance of a sample. *)
Definition variance (l : tensor1) : Q :=
  let m := sum1 l / inject_Z (Z.of_nat (length l)) in
  sum1 ((λ x, (x - m) * (x - m)) <$> l) / inject_Z (Z.of_nat (length l) - 1).

(** [x.var(0)] for [x] of shape (E, T, N, D), given as its [E] entries. *)
Definition var0 (T N D : nat) (x : list tensor3) : tensor3 :=
  (λ xt, (λ xtb, variance <$> columns D xtb) <$> columns N xt) <$> columns T x.

(** [x.mean(-1, keepdim=True)] *)
Definition mean_last (x : tensor3) : tensor3 :=
  map (map (λ row, [sum1 row / inject_Z (Z.of_nat (length row))])) x.

Inductive reward_outcome :=
| Reward (intrinsic_reward : tensor3)
| NotANumber
| RewardRuntimeError.

(** [intrinsic_reward]: the variance over the ensemble members of their
    predictions, averaged over the embedding and scaled.  With fewer than
    two members, or an embedding of size zero, every entry is NaN. *)
Definition intrinsic_reward (horizon batch encoder_output_size : nat)
    (intrinsic_reward_multiplier : Q)
    (ensembles : list (tensor3 → tensor3 → tensor3))
    (imagined_trajectories all_actions : tensor3) : reward_outcome :=
  match horizon with
  | O => RewardRuntimeError
  | S steps =>
      let slot := replicate steps (zeros batch encoder_output_size) in
      match mapM (λ ens, expand3 slot (but_last 1 (ens imagined_trajectories all_actions)))
              ensembles with
      | None => RewardRuntimeError
      | Some next_obs_embedding =>
          if decide (2 ≤ length ensembles ∧ 0 < encoder_output_size)%nat then
            Reward (map (map (map (λ v, v * intrinsic_reward_multiplier)))
                      (mean_last (var0 steps batch encoder_output_size next_obs_embedding)))
          else NotANumber
      end
  end.

End p2e.


(** ** Concrete inputs used by the examples below *)

Module examples.
Import dreamer_v1_agent dreamer_v2.

(** A sequence of shape (T, 1, 1) from its entries. *)
Definition column (l : list Q) : tensor3 := (λ q, [[q]]) <$> l.

(** Horizon 3, one sequence of three steps, two environments' worth of
    state sizes. *)
Definition args_h3 (lmbda : Q) : DreamerV2Args :=
  {| per_rank_batch_size := 2; per_rank_sequence_length := 3;
     recurrent_state_size := 2; stochastic_size := 2; discrete_size := 1;
     horizon := 3; lmbda := lmbda; gamma := 0.99; use_continues := false;
     actor_ent_coef := 0.001; objective_mix := 1 |}.

(** A deterministic stand-in for the recurrent model, and the identity for
    the other networks. *)
Definition recurrent_net (input h : tensor2) : tensor2 * tensor2 :=
  let h' := (λ row, [sum1 row; 1]) <$> cat input h in (h', h').
Definition identity_net (x : tensor2) : tensor2 := x.
Definition first_noise_actor (noise : nat → nat → Q) (latent : tensor2) : tensor2 :=
  (λ _, [noise 0 0]%nat) <$> latent.

(** A player for three environments in the middle of an episode. *)
Definition player3 : PlayerDV1.t :=
  {| PlayerDV1.encoder := identity_net;
     PlayerDV1.recurrent_model := recurrent_net;
     PlayerDV1.representation_model := identity_net;
     PlayerDV1.actor := first_noise_actor;
     PlayerDV1.actions_dim := [2; 1]%nat;
     PlayerDV1.expl_amount := 0;
     PlayerDV1.num_envs := 3;
     PlayerDV1.stochastic_size := 2;
     PlayerDV1.recurrent_state_size := 2;
     PlayerDV1.actions := [[1; 1; 1]; [2; 2; 2]; [3; 3; 3]];
     PlayerDV1.recurrent_state := [[1; 1]; [2; 2]; [3; 3]];
     PlayerDV1.stochastic_state := [[4; 4]; [5; 5]; [6; 6]] |}.







Definition with_lmbda (args : DreamerV1Args) (l : Q) : DreamerV1Args :=
  {| cnn_channels_multiplier := cnn_channels_multiplier args;
     dense_units := dense_units args;
     cnn_act := cnn_act args;
     dense_act := dense_act args;
     dreamer_v1_agent.stochastic_size := dreamer_v1_agent.stochastic_size args;
     dreamer_v1_agent.recurrent_state_size := dreamer_v1_agent.recurrent_state_size args;
     hidden_size := hidden_size args;
     mlp_layers := mlp_layers args;
     args_min_std := args_min_std args;
     dreamer_v1_agent.use_continues := dreamer_v1_agent.use_continues args;
     env_id := env_id args;
     actor_init_std := actor_init_std args;
     actor_min_std := actor_min_std args;
     dreamer_v1_agent.lmbda := l |}.

(** Valid sizes and activations, a floor of 0.5 and a lambda of 2. *)
Definition args_lambda2 : DreamerV1Args :=
  {| cnn_channels_multiplier := 32;
     dense_units := 400;
     cnn_act := "ReLU";
     dense_act := "ELU";
     dreamer_v1_agent.stochastic_size := 30;
     dreamer_v1_agent.recurrent_state_size := 200;
     hidden_size := 200;
     mlp_layers := 3;
     args_min_std := 0.5;
     dreamer_v1_agent.use_continues := false;
     env_id := "dmc_walker_walk";
     actor_init_std := 5;
     actor_min_std := 0.0001;
     dreamer_v1_agent.lmbda := 2 |}.


(** An RSSM whose networks are the stand-ins, with the floor of
    [args_lambda2]. *)
Definition rssm_half : RSSM :=
  {| dreamer_v1_agent.recurrent_model := recurrent_net;
     dreamer_v1_agent.representation_model := identity_net;
     transition_model := identity_net;
     min_std := args_min_std args_lambda2 |}.

Definition world0 : world :=
  {| generator := λ d i j, inject_Z (Z.of_nat (d + i + j));
     draws := 0;
     calls := [] |}.

(** Three steps for two examples; the second example starts an episode at
    step 1, and the stored flag of step 0 is 0 for both. *)
Definition data3 : SequenceBatch :=
  {| dreamer_v2.actions := [[[1]; [1]]; [[2]; [2]]; [[3]; [3]]];
     is_first := [[[0]; [0]]; [[0]; [1]]; [[0]; [0]]];
     dones := [[[0]; [0]]; [[0]; [0]]; [[0]; [0]]];
     rewards := [[[0]; [0]]; [[1]; [1]]; [[1]; [1]]] |}.

Definition obs3 : tensor3 := [[[1]; [2]]; [[3]; [4]]; [[5]; [6]]].

(** A policy without a closed-form entropy and one with it, over a batch
    of shape (2, 3). *)
Definition no_entropy : Distribution :=
  {| entropy := Raise NotImplementedError; log_prob := λ _, [] |}.

Definition unit_entropy : Distribution :=
  {| entropy := Return [[1; 1; 1]; [1; 1; 1]]; log_prob := λ _, [] |}.

(** Horizon 3 and three imagined sequences: [objective] has shape
    (2, 3, 1), [discount] shape (4, 3, 1). *)
(** Posterior samples and recurrent states of two steps of one sequence. *)
Definition posteriors2 : tensor3 := [[[1; 2]]; [[3; 4]]].
Definition recurrents2 : tensor3 := [[[5; 6]]; [[7; 8]]].

Definition objective23 : tensor3 := [[[1]; [2]; [3]]; [[4]; [5]; [6]]].
Definition discount43 : tensor3 := replicate 4 [[1]; [1]; [1]].

End examples.

(** ** Python sequences *)

Module python.

(** [l[start:stop]] for bounds that are not negative: the slice is cut at
    the end of [l] and empty when [stop <= start]. *)
Definition slice {A} (start stop : nat) (l : list A) : list A :=
  take (stop - start) (drop start l).

(** [x.split(n)] of a non-empty [x], for [0 < n]: consecutive chunks of [n]
    entries, the last one shorter when [n] does not divide the length. *)
Fixpoint split_fuel {A} (fuel n : nat) (l : list A) : list (list A) :=
  match fuel with
  | O => []
  | S fuel' =>
      match l with
      | [] => []
      | _ :: _ => take n l :: split_fuel fuel' n (drop n l)
      end
  end.

Definition split {A} (n : nat) (l : list A) : list (list A) :=
  split_fuel (length l) n l.

End python.

(** ** sheeprl/algos/ppo_recurrent/ppo_recurrent.py *)

Module ppo_recurrent.

Record RecurrentPPOArgs := {
  per_rank_num_batches : Z;
  per_rank_batch_size : option Z;
  rollout_steps : nat;
  num_envs : nat;
  reset_recurrent_state_on_done : bool
}.

(** *** train *)

(** The first lines of [train]: the number of sequences per batch. *)
Definition train_batch_size (args : RecurrentPPOArgs) (num_sequences : Z) : Z :=
  if decide (per_rank_num_batches args > 0)%Z then
    let batch_size := (num_sequences / per_rank_num_batches args)%Z in
    if decide (batch_size > 0)%Z then batch_size else num_sequences
  else 1%Z.

(** [BatchSampler(sampler, batch_size, drop_last=False)] over the order
    [sampler] yields: a ValueError ([None]) unless [batch_size] is positive,
    else the order cut into batches. *)
Definition batch_sampler (batch_size : Z) (order : list nat) : option (list (list nat)) :=
  if decide (0 < batch_size)%Z then Some (python.split (Z.to_nat batch_size) order)
  else None.

(** The batches of one epoch; [order] is what
    [RandomSampler(range(num_sequences))] draws. *)
Definition train_batches (args : RecurrentPPOArgs) (num_sequences : Z) (order : list nat)
    : option (list (list nat)) :=
  batch_sampler (train_batch_size args num_sequences) order.

(** *** main: from the rollout buffer to sequences *)

(** One entry of the buffer for one environment; every field is a vector. *)
Record Step := {
  dones : tensor1;
  values : tensor1;
  actions : tensor1;
  rewards : tensor1;
  logprobs : tensor1;
  observations : tensor1;
  actor_hxs : tensor1;
  actor_cxs : tensor1;
  critic_hxs : tensor1;
  critic_cxs : tensor1;
  returns : tensor1;
  advantages : tensor1
}.

(** [x.nonzero(as_tuple=True)[0]] from row [i] on: the index of a row, once
    for each entry of the row that is not zero. *)
Fixpoint nonzero_rows_from (i : nat) (x : tensor2) : list nat :=
  match x with
  | [] => []
  | row :: x' =>
      (((λ _, i) <$> filter (λ q, Qeq_bool q 0 = false) row)
       ++ nonzero_rows_from (S i) x')%list
  end.

Definition nonzero_rows (x : tensor2) : list nat := nonzero_rows_from 0 x.

(** [for ep_end_idx in episode_ends], with the variables [start] and
    [episodes]. *)
Fixpoint split_episodes (env_data : list Step) (episode_ends : list nat)
    (start : nat) (episodes : list (list Step)) : list (list Step) :=
  match episode_ends with
  | [] => episodes
  | ep_end_idx :: episode_ends' =>
      let stop := ep_end_idx in
      let episode := python.slice start stop env_data in
      split_episodes env_data episode_ends' stop
        (if decide (0 < length episode)%nat then (episodes ++ [episode])%list
         else episodes)
  end.

(** The body of [for env_id in range(args.num_envs)] for the data of one
    environment. *)
Definition env_episodes (args : RecurrentPPOArgs) (env_data : list Step)
    (episodes : list (list Step)) : list (list Step) :=
  let episode_ends := (nonzero_rows (dones <$> env_data) ++ [rollout_steps args])%list in
  split_episodes env_data episode_ends 0 episodes.

(** [local_data[:, env_id]]; IndexError ([None]) past the last column. *)
Definition column (local_data : list (list Step)) (env_id : nat) : option (list Step) :=
  mapM (λ row : list Step, row !! env_id) local_data.

(** Step 1: the episodes of every environment, in the order of the
    environments. *)
Definition split_into_episodes (args : RecurrentPPOArgs) (local_data : list (list Step))
    : option (list (list Step)) :=
  foldl (λ acc env_id,
           episodes ← acc;
           env_data ← column local_data env_id;
           Some (env_episodes args env_data episodes))
        (Some []) (seq 0 (num_envs args)).

(** Step 2: the episodes cut into sequences of at most
    [per_rank_batch_size] steps. *)
Definition split_into_sequences (args : RecurrentPPOArgs) (episodes : list (list Step))
    : list (list Step) :=
  match per_rank_batch_size args with
  | Some n =>
      if decide (n > 0)%Z then concat (python.split (Z.to_nat n) <$> episodes)
      else episodes
  | None => episodes
  end.

(** *** main: the recurrent state after an environment step *)

(** [(1 - done) * e] for [done] of shape (N, 1) and [e] of shape (N, H). *)
Definition mask_done (done e : tensor2) : option tensor2 :=
  bop2 Qmult (map (map (λ d, 1 - d)) done) e.

Definition next_state (args : RecurrentPPOArgs) (done : tensor2)
    (state : (tensor2 * tensor2) * (tensor2 * tensor2))
    : option ((tensor2 * tensor2) * (tensor2 * tensor2)) :=
  if reset_recurrent_state_on_done args then
    actor_hx ← mask_done done state.1.1;
    actor_cx ← mask_done done state.1.2;
    critic_hx ← mask_done done state.2.1;
    critic_cx ← mask_done done state.2.2;
    Some ((actor_hx, actor_cx), (critic_hx, critic_cx))
  else Some state.


(** *** main: the rollout of an update *)

Abbreviation lstm_states := ((tensor2 * tensor2) * (tensor2 * tensor2))%type.

(** What the agent gives for an observation and a recurrent state: the
    values, the sampled action with its log-probability, and the new
    recurrent state. *)
Record AgentStep := {
  agent_values : tensor2;
  agent_action : tensor2;
  agent_logprob : tensor2;
  agent_state : lstm_states
}.

(** What [envs.step] returns. *)
Record EnvStep := {
  env_obs : tensor2;
  env_reward : tensor1;
  env_done : list bool;
  env_truncated : list bool
}.

(** The entries of [step_data], each without its leading dimension of
    size one. *)
Record StepData := {
  step_dones : tensor2;
  step_values : tensor2;
  step_actions : tensor2;
  step_rewards : tensor2;
  step_logprobs : tensor2;
  step_observations : tensor2;
  step_actor_hxs : tensor2;
  step_actor_cxs : tensor2;
  step_critic_hxs : tensor2;
  step_critic_cxs : tensor2
}.

(** The variables carried through the rollout, and the records added to
    the buffer during this update. *)
Record Rollout := {
  global_step : Z;
  next_obs : tensor2;
  next_done : tensor2;
  next_lstm_state : lstm_states;
  rb : list StepData
}.

(** One iteration of [for _ in range(0, args.rollout_steps)].  The agent
    samples its action: its third argument numbers the draw.  A
    RuntimeError of the product with [1 - done] is [None]. *)
Definition rollout_step (args : RecurrentPPOArgs) (world_size : Z)
    (agent : tensor2 → lstm_states → Z → AgentStep) (e : EnvStep) (st : Rollout)
    : option Rollout :=
  let global_step := (global_step st + Z.of_nat (num_envs args) * world_size)%Z in
  let out := agent (next_obs st) (next_lstm_state st) global_step in
  let state := agent_state out in
  let done := (λ d : bool, [if d then 1 else 0]) <$> zip_with orb (env_done e) (env_truncated e) in
  let reward := (λ r, [r]) <$> env_reward e in
  let step_data :=
    {| step_dones := next_done st;
       step_values := agent_values out;
       step_actions := agent_action out;
       step_rewards := reward;
       step_logprobs := agent_logprob out;
       step_observations := next_obs st;
       step_actor_hxs := (next_lstm_state st).1.1;
       step_actor_cxs := (next_lstm_state st).1.2;
       step_critic_hxs := (next_lstm_state st).2.1;
       step_critic_cxs := (next_lstm_state st).2.2 |} in
  next_state ← next_state args done state;
  Some {| global_step := global_step;
          next_obs := env_obs e;
          next_done := done;
          next_lstm_state := next_state;
          rb := (rb st ++ [step_data])%list |}.

(** The rollout for the results [steps] of [envs.step], in order. *)
Definition rollout (args : RecurrentPPOArgs) (world_size : Z)
    (agent : tensor2 → lstm_states → Z → AgentStep) (steps : list EnvStep) (st : Rollout)
    : option Rollout :=
  foldl (λ st e, st ≫= rollout_step args world_size agent e) (Some st) steps.

(** The variables before the first update. *)
Definition first_rollout (args : RecurrentPPOArgs) (reset_obs : tensor2)
    (initial_states : lstm_states) : Rollout :=
  {| global_step := 0;
     next_obs := reset_obs;
     next_done := zeros (num_envs args) 1;
     next_lstm_state := initial_states;
     rb := [] |}.

End ppo_recurrent.


(** ** sheeprl/algos/dreamer_v2/dreamer_v2.py: main, the observation keys *)

Module dreamer_v2_main.

(** [envs.single_observation_space]: a [gym.spaces.Dict] holds its
    sub-spaces by key, in the order of the dictionary, each with its
    shape; the keys of a dictionary are distinct. *)
Inductive observation_space :=
| Dict (spaces : list (string * list nat))
| NotDict.

(** What [fabric.print] is called with. *)
Inductive message :=
| NotAnImage (k : string) (shape : list nat)
| NotAVector (k : string) (shape : list nat)
| CNNKeys (keys : list string)
| MLPKeys (keys : list string).

Inductive runtime_error :=
| UnexpectedObservationType
| NoKeysSpecified.

Inductive keys_outcome :=
| Keys (cnn_keys mlp_keys obs_keys : list string)
| RaisedRuntimeError (e : runtime_error).

(** [args.cnn_keys and k in args.cnn_keys]: [None] and the empty list are
    falsy. *)
Definition requested (keys : option (list string)) (k : string) : bool :=
  match keys with
  | None | Some [] => false
  | Some l => bool_decide (k ∈ l)
  end.

(** One of the two loops over [observation_space.spaces.items()]: the
    selected keys and the messages printed. *)
Definition select_keys (rank : nat) (warning : string → list nat → message)
    (wanted : option (list string)) (spaces : list (string * list nat))
    : list string * list message :=
  foldl (λ acc kv,
           if requested wanted kv.1 then
             if decide (length kv.2 = rank) then ((acc.1 ++ [kv.1])%list, acc.2)
             else (acc.1, (acc.2 ++ [warning kv.1 kv.2])%list)
           else acc)
    ([], []) spaces.

(** The selection of the observation keys in [main]: the messages printed
    and either the three lists of keys or the RuntimeError raised. *)
Definition observation_keys (args_cnn_keys args_mlp_keys : option (list string))
    (observation_space : observation_space) : list message * keys_outcome :=
  match observation_space with
  | Dict spaces =>
      let cnn := select_keys 3%nat NotAnImage args_cnn_keys spaces in
      let mlp := select_keys 1%nat NotAVector args_mlp_keys spaces in
      let printed := (cnn.2 ++ mlp.2)%list in
      if decide (cnn.1 = [] ∧ mlp.1 = []) then
        (printed, RaisedRuntimeError NoKeysSpecified)
      else
        ((printed ++ [CNNKeys cnn.1; MLPKeys mlp.1])%list,
         Keys cnn.1 mlp.1 (cnn.1 ++ mlp.1)%list)
  | NotDict => ([], RaisedRuntimeError UnexpectedObservationType)
  end.


(** *** The training schedule of the main loop *)

(** The settings the schedule reads, and what a checkpoint provides when
    the run is resumed. *)
Record ScheduleArgs := {
  num_envs : Z;
  action_repeat : Z;
  train_every : Z;
  total_steps : Z;
  learning_starts : Z;
  pretrain_steps : nat;
  gradient_steps : nat;
  critic_target_network_update_freq : Z;
  max_step_expl_decay : Z;
  expl_decay : bool;
  dry_run : bool;
  checkpoint_buffer : bool
}.

Record Checkpoint := {
  state_global_step : Z;
  state_expl_decay_steps : Z
}.

(** Python's [a // b] and [a % b] on integers: ZeroDivisionError ([None])
    for a zero divisor, otherwise the floor and the remainder with the sign
    of the divisor. *)
Definition floordiv (a b : Z) : option Z :=
  if decide (b = 0)%Z then None else Some (a / b)%Z.
Definition pymod (a b : Z) : option Z :=
  if decide (b = 0)%Z then None else Some (a mod b)%Z.

(** The block "Global variables" of [main]. *)
Record Globals := {
  start_step : Z;
  single_global_step : Z;
  step_before_training0 : Z;
  num_updates : Z;
  learning_starts0 : Z;
  max_step_expl_decay0 : Z;
  expl_decay_steps0 : Z
}.

Definition global_variables (args : ScheduleArgs) (world_size : Z)
    (state : option Checkpoint) : option Globals :=
  start_step ← match state with
               | Some st => floordiv (state_global_step st) world_size
               | None => Some 1%Z
               end;
  let single_global_step := (num_envs args * world_size * action_repeat args)%Z in
  step_before_training ←
    (if dry_run args then Some 0%Z else floordiv (train_every args) single_global_step);
  num_updates ←
    (if dry_run args then Some 1%Z else floordiv (total_steps args) single_global_step);
  learning_starts ←
    (if dry_run args then Some 0%Z
     else floordiv (learning_starts args) single_global_step);
  let learning_starts :=
    match state with
    | Some _ => if checkpoint_buffer args then learning_starts
                else (learning_starts + start_step)%Z
    | None => learning_starts
    end in
  max_step_expl_decay ←
    floordiv (max_step_expl_decay args) (Z.of_nat (gradient_steps args) * world_size);
  Some {| start_step := start_step;
          single_global_step := single_global_step;
          step_before_training0 := step_before_training;
          num_updates := num_updates;
          learning_starts0 := learning_starts;
          max_step_expl_decay0 := max_step_expl_decay;
          expl_decay_steps0 :=
            match state with Some st => state_expl_decay_steps st | None => 0%Z end |}.

(** What the training part of an iteration does, in order: the sampling of
    [n_samples] batches at a global step, the copies of the critic into the
    target critic and the calls of [train], each with the count of gradient
    steps taken before it, and the decay of the exploration amount. *)
Inductive event :=
| Sample (global_step : Z) (n_samples : nat)
| UpdateTarget (gradient_steps : Z)
| Train (gradient_steps : Z)
| DecayExploration (expl_decay_steps : Z).

Record LoopState := {
  step_before_training : Z;
  gradient_steps_taken : Z;
  expl_decay_steps : Z;
  events : list event
}.

(** [for i in distributed_sampler]: one pass per sampled batch. *)
Fixpoint train_batches (freq : Z) (n : nat) (gradient_steps : Z) (log : list event)
    : option (Z * list event) :=
  match n with
  | O => Some (gradient_steps, log)
  | S n' =>
      r ← pymod gradient_steps freq;
      let log := if decide (r = 0)%Z
                 then (log ++ [UpdateTarget gradient_steps])%list else log in
      train_batches freq n' (gradient_steps + 1)%Z (log ++ [Train gradient_steps])%list
  end.

(** The schedule of one iteration of [for global_step in range(...)]. *)
Definition schedule_step (args : ScheduleArgs) (g : Globals) (global_step : Z)
    (st : LoopState) : option LoopState :=
  let step_before_training := (step_before_training st - 1)%Z in
  if decide (learning_starts0 g ≤ global_step ∧ step_before_training ≤ 0)%Z then
    let n_samples :=
      if decide (global_step = learning_starts0 g) then pretrain_steps args
      else gradient_steps args in
    trained ← train_batches (critic_target_network_update_freq args) n_samples
                 (gradient_steps_taken st)
                 (events st ++ [Sample global_step n_samples])%list;
    step_before_training ← floordiv (train_every args) (single_global_step g);
    Some (if expl_decay args then
            {| step_before_training := step_before_training;
               gradient_steps_taken := trained.1;
               expl_decay_steps := (expl_decay_steps st + 1)%Z;
               events := (trained.2 ++ [DecayExploration (expl_decay_steps st + 1)])%list |}
          else
            {| step_before_training := step_before_training;
               gradient_steps_taken := trained.1;
               expl_decay_steps := expl_decay_steps st;
               events := trained.2 |})
  else
    Some {| step_before_training := step_before_training;
            gradient_steps_taken := gradient_steps_taken st;
            expl_decay_steps := expl_decay_steps st;
            events := events st |}.

(** [count] iterations from [global_step] on. *)
Fixpoint schedule_from (args : ScheduleArgs) (g : Globals) (count : nat) (global_step : Z)
    (st : LoopState) : option LoopState :=
  match count with
  | O => Some st
  | S n =>
      st' ← schedule_step args g global_step st;
      schedule_from args g n (global_step + 1)%Z st'
  end.

(** [for global_step in range(start_step, num_updates + 1)], with
    [gradient_steps = 0] before it. *)
Definition schedule (args : ScheduleArgs) (g : Globals) : option LoopState :=
  schedule_from args g (Z.to_nat (num_updates g + 1 - start_step g)) (start_step g)
    {| step_before_training := step_before_training0 g;
       gradient_steps_taken := 0%Z;
       expl_decay_steps := expl_decay_steps0 g;
       events := [] |}.

End dreamer_v2_main.


(** ** sheeprl/algos/dreamer_v2/dreamer_v2.py: main, the data of a step *)

Module dreamer_v2_rollout.

(** [args.buffer_type.lower()]; any other value raised a ValueError
    before the loop. *)
Inductive buffer_type := Sequential | Episode.

Record RolloutArgs := {
  num_envs : nat;
  per_rank_sequence_length : nat;
  dry_run : bool;
  buffer : buffer_type;
  actions_dim : list nat
}.

(** A TensorDict with the entries that [main] writes; the entries of the
    observation keys are kept as one tensor.  The tensor under ["dones"] is
    the one that is written in place while slices of the TensorDict are
    still held, so it is kept by reference: its index in the store of the
    tensors allocated so far.  The other tensors are only ever replaced,
    and are kept by value. *)
Record TensorDict := {
  observations : tensor2;
  dones : nat;
  actions : tensor2;
  rewards : tensor2;
  is_first : tensor2
}.

(** The slice [td[i : i + 1]]: a view of the rows [i] of the tensors of
    [td]. *)
Abbreviation View := (TensorDict * nat)%type.

(** The values a TensorDict holds at some moment. *)
Record Data := {
  data_observations : tensor2;
  data_dones : tensor2;
  data_actions : tensor2;
  data_rewards : tensor2;
  data_is_first : tensor2
}.

Definition read (store : list tensor2) (td : TensorDict) : Data :=
  {| data_observations := observations td;
     data_dones := default [] (store !! dones td);
     data_actions := actions td;
     data_rewards := rewards td;
     data_is_first := is_first td |}.

Definition read_view (store : list tensor2) (v : View) : Data :=
  let d := read store v.1 in
  let i := v.2 in
  {| data_observations := python.slice i (i + 1) (data_observations d);
     data_dones := python.slice i (i + 1) (data_dones d);
     data_actions := python.slice i (i + 1) (data_actions d);
     data_rewards := python.slice i (i + 1) (data_rewards d);
     data_is_first := python.slice i (i + 1) (data_is_first d) |}.

(** The calls of [rb.add], with the values passed: the buffers copy what
    they are given.  [AddEpisode] is the call with
    [torch.cat(episode_steps[d], dim=0)]. *)
Inductive buffer_call :=
| Add (data : Data)
| AddAt (data : Data) (indices : list nat)
| AddEpisode (steps : list Data).

(** What [envs.step] returns and the actions it was given:
    [o] holds, for an environment that finished, the first observation
    after the automatic reset, [infos["final_observation"]] the last
    observation of the finished episode. *)
Record EnvStep := {
  o : tensor2;
  final_observation : option (list (option tensor1));
  env_rewards : tensor1;
  terminated : list bool;
  truncated : list bool;
  env_actions : tensor2
}.

Record State := {
  store : list tensor2;
  step_data : TensorDict;
  obs : tensor2;
  episode_steps : list (list View);
  rb : list buffer_call;
  init_states_calls : list (option (list nat))
}.

(** [for i, env_ep in enumerate(episode_steps): env_ep.append(step_data[i : i + 1])] *)
Definition append_views (step_data : TensorDict) (episode_steps : list (list View))
    : list (list View) :=
  imap (λ i env_ep, (env_ep ++ [(step_data, i)])%list) episode_steps.

(** The first observation, before the loop. *)
Definition start (args : RolloutArgs) (o : tensor2) : State :=
  let store := [zeros (num_envs args) 1] in
  let step_data :=
    {| observations := o;
       dones := 0%nat;
       actions := zeros (num_envs args) (sum_list (actions_dim args));
       rewards := zeros (num_envs args) 1;
       is_first := ones_like2 (zeros (num_envs args) 1) |} in
  let episode_steps := replicate (num_envs args) [] in
  match buffer args with
  | Sequential =>
      {| store := store; step_data := step_data; obs := o;
         episode_steps := episode_steps;
         rb := [Add (read store step_data)];
         init_states_calls := [None] |}
  | Episode =>
      {| store := store; step_data := step_data; obs := o;
         episode_steps := append_views step_data episode_steps;
         rb := [];
         init_states_calls := [None] |}
  end.

(** [np.logical_or(dones, truncated)], all ones in a dry run with the
    episode buffer, as a float tensor of shape (num_envs, 1). *)
Definition step_dones (args : RolloutArgs) (e : EnvStep) : tensor2 :=
  let dones := zip_with orb (terminated e) (truncated e) in
  let dones :=
    match buffer args with
    | Episode => if dry_run args then (λ _, true) <$> dones else dones
    | Sequential => dones
    end in
  (λ d : bool, [if d then 1 else 0]) <$> dones.

(** [real_next_obs]: [o] with the final observations written over the
    rows of the environments that finished. *)
Definition real_next_obs (e : EnvStep) : tensor2 :=
  match final_observation e with
  | Some finals =>
      foldl (λ acc (p : nat * option tensor1),
               match p.2 with
               | Some v => <[p.1 := v]> acc
               | None => acc
               end)
        (o e) (imap (λ idx final_obs, (idx, final_obs)) finals)
  | None => o e
  end.

(** [step_data["dones"][d] = torch.zeros_like(step_data["dones"][d])]: a
    write into the tensor itself. *)
Definition zero_done (id d : nat) (store : list tensor2) : list tensor2 :=
  alter (alter zeros_like1 d) id store.

(** [for i, d in enumerate(dones_idxes)] of the episode buffer: an episode
    of at least [per_rank_sequence_length] steps is handed to the buffer
    and the list of the environment starts again from the reset data; a
    shorter one is left as it is. *)
Definition flush_episodes (args : RolloutArgs) (store : list tensor2)
    (reset_data : TensorDict) (dones_idxes : list nat)
    (rb : list buffer_call) (episode_steps : list (list View))
    : option (list buffer_call * list (list View)) :=
  foldl (λ acc (p : nat * nat),
           st ← acc;
           env_ep ← st.2 !! p.2;
           if decide (per_rank_sequence_length args ≤ length env_ep)%nat then
             Some ((st.1 ++ [AddEpisode (read_view store <$> env_ep)])%list,
                   <[p.2 := [(reset_data, p.1)]]> st.2)
           else Some st)
    (Some (rb, episode_steps)) (imap (λ i d, (i, d)) dones_idxes).

(** One iteration of the loop, from [step_data["is_first"] = ...] to
    [player.init_states(dones_idxes)], for the result [e] of
    [envs.step]. *)
Definition step (args : RolloutArgs) (clip_rewards_fn : tensor2 → tensor2)
    (e : EnvStep) (st : State) : option State :=
  let is_first := default [] (store st !! dones (step_data st)) in
  let dones := step_dones args e in
  let next_obs := o e in
  let rewards := (λ r, [r]) <$> env_rewards e in
  let dones_id := length (store st) in
  let store := (store st ++ [dones])%list in
  let step_data :=
    {| observations := real_next_obs e;
       dones := dones_id;
       actions := env_actions e;
       rewards := clip_rewards_fn rewards;
       is_first := is_first |} in
  let rb :=
    match buffer args with
    | Sequential => (rb st ++ [Add (read store step_data)])%list
    | Episode => rb st
    end in
  let episode_steps :=
    match buffer args with
    | Sequential => episode_steps st
    | Episode => append_views step_data (episode_steps st)
    end in
  let dones_idxes := ppo_recurrent.nonzero_rows dones in
  let reset_envs := length dones_idxes in
  if decide (0 < reset_envs)%nat then
    reset_obs ← mapM (λ d, next_obs !! d) dones_idxes;
    let reset_id := length store in
    let store := (store ++ [zeros reset_envs 1])%list in
    let reset_data :=
      {| observations := reset_obs;
         dones := reset_id;
         actions := zeros reset_envs (sum_list (actions_dim args));
         rewards := zeros reset_envs 1;
         is_first := ones_like2 (zeros reset_envs 1) |} in
    added ← match buffer args with
            | Episode => flush_episodes args store reset_data dones_idxes rb episode_steps
            | Sequential =>
                Some ((rb ++ [AddAt (read store reset_data) dones_idxes])%list,
                      episode_steps)
            end;
    let store := foldl (λ s d, zero_done dones_id d s) store dones_idxes in
    Some {| store := store; step_data := step_data; obs := next_obs;
            episode_steps := added.2; rb := added.1;
            init_states_calls := (init_states_calls st ++ [Some dones_idxes])%list |}
  else
    Some {| store := store; step_data := step_data; obs := next_obs;
            episode_steps := episode_steps; rb := rb;
            init_states_calls := init_states_calls st |}.

(** The iterations for the results [steps] of [envs.step], in order. *)
Definition rollout (args : RolloutArgs) (clip_rewards_fn : tensor2 → tensor2)
    (o : tensor2) (steps : list EnvStep) : option State :=
  foldl (λ st e, st ≫= step args clip_rewards_fn e) (Some (start args o)) steps.

End dreamer_v2_rollout.


(** ** sheeprl/algos/dreamer_v2/dreamer_v2.py: train, the three updates *)

Module dreamer_v2_updates.

Inductive network := WorldModel | Actor | Critic.

(** The calls on the optimizers, on Fabric and on the aggregator, in the
    order of [train]. *)
Inductive event :=
| ZeroGrad (m : network)
| Backward (m : network)
| ClipGradients (m : network) (max_norm : Q)
| OptimizerStep (m : network)
| Update (name : string).

Inductive raised := UnboundLocalError (name : string).

(** The events so far and the local variables that have been assigned. *)
Record Frame := {
  events : list event;
  locals : list string
}.

Definition call (e : event) (f : Frame) : Frame :=
  {| events := (events f ++ [e])%list; locals := locals f |}.

(** [if args.clip_gradients is not None and args.clip_gradients > 0:
        grads = fabric.clip_gradients(module=m, ..., max_norm=args.clip_gradients)] *)
Definition clip (clip_gradients : option Q) (m : network) (grads : string) (f : Frame)
    : Frame :=
  match clip_gradients with
  | Some c =>
      if Qlt_le_dec 0 c then
        {| events := (events f ++ [ClipGradients m c])%list;
           locals := (locals f ++ [grads])%list |}
      else f
  | None => f
  end.

(** [aggregator.update(name, grads.mean().detach())]: reading a local
    variable that was never assigned raises UnboundLocalError. *)
Definition update_from (name grads : string) (f : Frame) : Frame + raised :=
  if decide (grads ∈ locals f) then inl (call (Update name) f)
  else inr (UnboundLocalError grads).

(** The optimizer steps of [train] and the metrics logged with them; on
    an exception, the events up to it. *)
Definition train (clip_gradients : option Q) : list event * option raised :=
  let start := {| events := []; locals := [] |} in
  let world := call (ZeroGrad WorldModel) start in
  let world := call (Backward WorldModel) world in
  let world := clip clip_gradients WorldModel "world_model_grads" world in
  let world := call (OptimizerStep WorldModel) world in
  match update_from "Grads/world_model" "world_model_grads" world with
  | inr e => (events world, Some e)
  | inl world =>
      let world :=
        foldl (λ f name, call (Update name) f) world
          ["Loss/reconstruction_loss"; "Loss/observation_loss"; "Loss/reward_loss";
           "Loss/state_loss"; "Loss/continue_loss"; "State/kl"; "State/post_entropy";
           "State/prior_entropy"] in
      let actor := call (ZeroGrad Actor) world in
      let actor := call (Backward Actor) actor in
      let actor := clip clip_gradients Actor "actor_grads" actor in
      let actor := call (OptimizerStep Actor) actor in
      match update_from "Grads/actor" "actor_grads" actor with
      | inr e => (events actor, Some e)
      | inl actor =>
          let actor := call (Update "Loss/policy_loss") actor in
          let critic := call (ZeroGrad Critic) actor in
          let critic := call (Backward Critic) critic in
          let critic := clip clip_gradients Critic "critic_grads" critic in
          let critic := call (OptimizerStep Critic) critic in
          match update_from "Grads/critic" "critic_grads" critic with
          | inr e => (events critic, Some e)
          | inl critic =>
              let critic := call (Update "Loss/value_loss") critic in
              let final := call (ZeroGrad Actor) critic in
              let final := call (ZeroGrad Critic) final in
              let final := call (ZeroGrad WorldModel) final in
              (events final, None)
          end
      end
  end.

End dreamer_v2_updates.

(** ** Further concrete inputs *)

Module more_examples.


(** A buffer entry with a done flag and an observation. *)
Definition step_of (d o : Q) : ppo_recurrent.Step :=
  {| ppo_recurrent.dones := [d]; ppo_recurrent.values := [];
     ppo_recurrent.actions := []; ppo_recurrent.rewards := [];
     ppo_recurrent.logprobs := []; ppo_recurrent.observations := [o];
     ppo_recurrent.actor_hxs := []; ppo_recurrent.actor_cxs := [];
     ppo_recurrent.critic_hxs := []; ppo_recurrent.critic_cxs := [];
     ppo_recurrent.returns := []; ppo_recurrent.advantages := [] |}.

(** Six steps of one environment; the episode ends before steps 2 and 5. *)
Definition rollout6 : list ppo_recurrent.Step :=
  [step_of 0 1; step_of 0 2; step_of 1 3; step_of 0 4; step_of 0 5; step_of 1 6].

Definition ppo_args : ppo_recurrent.RecurrentPPOArgs :=
  {| ppo_recurrent.per_rank_num_batches := 4;
     ppo_recurrent.per_rank_batch_size := Some 2%Z;
     ppo_recurrent.rollout_steps := 6;
     ppo_recurrent.num_envs := 1;
     ppo_recurrent.reset_recurrent_state_on_done := true |}.


(** The buffer of [rollout6]: six rows of one environment. *)
Definition buffer6 : list (list ppo_recurrent.Step) := (λ s, [s]) <$> rollout6.


(** A policy whose [entropy()] fails with a RuntimeError. *)
Definition broken_entropy : dreamer_v2.Distribution :=
  {| dreamer_v2.entropy := dreamer_v2.Raise dreamer_v2.RuntimeError;
     dreamer_v2.log_prob := λ _, [] |}.


(** Horizon 3 with the continue model in use. *)
Definition args_continues : dreamer_v2.DreamerV2Args :=
  {| dreamer_v2.per_rank_batch_size := 2; dreamer_v2.per_rank_sequence_length := 1;
     dreamer_v2.recurrent_state_size := 2; dreamer_v2.stochastic_size := 2;
     dreamer_v2.discrete_size := 1; dreamer_v2.horizon := 3; dreamer_v2.lmbda := 0.95;
     dreamer_v2.gamma := 0.99; dreamer_v2.use_continues := true;
     dreamer_v2.actor_ent_coef := 0.001; dreamer_v2.objective_mix := 1 |}.

(** Two seed states, the second one terminal, and the predicted
    continuation probabilities over four imagined steps. *)
Definition dones_second : tensor3 := [[[0]; [1]]].
Definition predicted_continues4 : tensor3 := replicate 4 [[0.5]; [0.5]].


(** An environment with an image, a vector and a depth map of rank 2. *)
Definition spaces3 : list (string * list nat) :=
  [("rgb", [3; 64; 64]%nat); ("state", [7]%nat); ("depth", [64; 64]%nat)].


(** Four environments with action repeat 2: a global step counts 8 policy
    steps; training every 16, learning from 40 on, 80 steps in all. *)
Definition schedule_args : dreamer_v2_main.ScheduleArgs :=
  {| dreamer_v2_main.num_envs := 4; dreamer_v2_main.action_repeat := 2;
     dreamer_v2_main.train_every := 16; dreamer_v2_main.total_steps := 80;
     dreamer_v2_main.learning_starts := 40; dreamer_v2_main.pretrain_steps := 3;
     dreamer_v2_main.gradient_steps := 1;
     dreamer_v2_main.critic_target_network_update_freq := 2;
     dreamer_v2_main.max_step_expl_decay := 100; dreamer_v2_main.expl_decay := true;
     dreamer_v2_main.dry_run := false; dreamer_v2_main.checkpoint_buffer := false |}.

Definition schedule_globals : dreamer_v2_main.Globals :=
  {| dreamer_v2_main.start_step := 1; dreamer_v2_main.single_global_step := 8;
     dreamer_v2_main.step_before_training0 := 2; dreamer_v2_main.num_updates := 10;
     dreamer_v2_main.learning_starts0 := 5; dreamer_v2_main.max_step_expl_decay0 := 100;
     dreamer_v2_main.expl_decay_steps0 := 0 |}.


(** Two environments; the second one finishes at the first step. *)
Definition rollout_args (b : dreamer_v2_rollout.buffer_type) (num_envs : nat)
    : dreamer_v2_rollout.RolloutArgs :=
  {| dreamer_v2_rollout.num_envs := num_envs;
     dreamer_v2_rollout.per_rank_sequence_length := 3;
     dreamer_v2_rollout.dry_run := false;
     dreamer_v2_rollout.buffer := b;
     dreamer_v2_rollout.actions_dim := [1%nat] |}.

Definition env_step2 (x : Q) (second_done : bool) : dreamer_v2_rollout.EnvStep :=
  {| dreamer_v2_rollout.o := [[x]; [x + 1]];
     dreamer_v2_rollout.final_observation :=
       if second_done then Some [None; Some [x + 2]] else None;
     dreamer_v2_rollout.env_rewards := [1; 1];
     dreamer_v2_rollout.terminated := [false; second_done];
     dreamer_v2_rollout.truncated := [false; false];
     dreamer_v2_rollout.env_actions := [[0.5]; [0.5]] |}.

(** One environment; an observation and whether the episode ended. *)
Definition env_step1 (x : Q) (done : bool) : dreamer_v2_rollout.EnvStep :=
  {| dreamer_v2_rollout.o := [[x]];
     dreamer_v2_rollout.final_observation := None;
     dreamer_v2_rollout.env_rewards := [1];
     dreamer_v2_rollout.terminated := [done];
     dreamer_v2_rollout.truncated := [false];
     dreamer_v2_rollout.env_actions := [[0.5]] |}.


(** An agent for two environments with recurrent states of width 2: the
    new states are the old ones shifted by one. *)
Definition ppo_agent (obs : tensor2) (state : ppo_recurrent.lstm_states) (k : Z)
    : ppo_recurrent.AgentStep :=
  let bump := map (map (Qplus 1)) in
  {| ppo_recurrent.agent_values := [[inject_Z k]; [inject_Z k]];
     ppo_recurrent.agent_action := [[0]; [1]];
     ppo_recurrent.agent_logprob := [[0]; [0]];
     ppo_recurrent.agent_state :=
       ((bump [[1; 1]; [1; 1]], bump [[2; 2]; [2; 2]]),
        (bump [[3; 3]; [3; 3]], bump [[4; 4]; [4; 4]])) |}.

Definition ppo_env_step (x : Q) (second_done : bool) : ppo_recurrent.EnvStep :=
  {| ppo_recurrent.env_obs := [[x]; [x + 1]];
     ppo_recurrent.env_reward := [1; 1];
     ppo_recurrent.env_done := [false; second_done];
     ppo_recurrent.env_truncated := [false; false] |}.

Definition ppo_args2 : ppo_recurrent.RecurrentPPOArgs :=
  {| ppo_recurrent.per_rank_num_batches := 4;
     ppo_recurrent.per_rank_batch_size := Some 2%Z;
     ppo_recurrent.rollout_steps := 3;
     ppo_recurrent.num_envs := 2;
     ppo_recurrent.reset_recurrent_state_on_done := true |}.


(** Two ensemble members that disagree by one on every prediction, and a
    trajectory of three imagined states for one sequence. *)
Definition member (shift : Q) (trajectories actions : tensor3) : tensor3 :=
  map (map (map (Qplus shift))) trajectories.
Definition trajectory3 : tensor3 := [[[1; 2]]; [[3; 4]]; [[5; 6]]].


(** A player with exploration amount [expl], and a generator whose draws
    are all [3]. *)
Definition explorer (expl : Q) : dreamer_v1_agent.PlayerDV1.t :=
  {| dreamer_v1_agent.PlayerDV1.encoder := examples.identity_net;
     dreamer_v1_agent.PlayerDV1.recurrent_model := examples.recurrent_net;
     dreamer_v1_agent.PlayerDV1.representation_model := examples.identity_net;
     dreamer_v1_agent.PlayerDV1.actor := examples.first_noise_actor;
     dreamer_v1_agent.PlayerDV1.actions_dim := [2%nat];
     dreamer_v1_agent.PlayerDV1.expl_amount := expl;
     dreamer_v1_agent.PlayerDV1.num_envs := 2;
     dreamer_v1_agent.PlayerDV1.stochastic_size := 1;
     dreamer_v1_agent.PlayerDV1.recurrent_state_size := 1;
     dreamer_v1_agent.PlayerDV1.actions := [[0; 0]; [0; 0]];
     dreamer_v1_agent.PlayerDV1.recurrent_state := [[0]; [0]];
     dreamer_v1_agent.PlayerDV1.stochastic_state := [[0]; [0]] |}.

Definition world3 : world :=
  {| generator := λ _ _ _, 3; draws := 0; calls := [] |}.

End more_examples.

(** * Properties *)

Local Close Scope string_scope.
Local Open Scope nat_scope.

(** ** Lists, broadcasting and loops *)





Lemma mapM_zip_total {A B C} (f : A → B → option C) (g : A → B → C) xs ys :
  Forall2 (λ x y, f x y = Some (g x y)) xs ys →
  mapM (λ p, f p.1 p.2) (zip xs ys) = Some (zip_with g xs ys).
Proof.
  induction 1 as [|x y xs ys Hxy _ IH]; [done|].
  simpl. rewrite Hxy. simpl. by rewrite IH.
Qed.

Lemma broadcast_same {A B C} (f : A → B → option C) (g : A → B → C) xs ys :
  Forall2 (λ x y, f x y = Some (g x y)) xs ys →
  broadcast f xs ys = Some (zip_with g xs ys).
Proof.
  intros HF. unfold broadcast.
  rewrite decide_True by by eapply Forall2_length.
  by apply mapM_zip_total.
Qed.




Lemma concat_replicate_S {A} (l : list A) (n : nat) :
  concat (replicate (S n) l) = concat (replicate n l) ++ l.
Proof.
  induction n as [|n IH]; [simpl; by rewrite app_nil_r|].
  simpl in *. rewrite <- app_assoc. f_equal. exact IH.
Qed.

(** A loop of [n + 1] iterations is a loop of [n] iterations and one more. *)
Lemma for_range_snoc {St} (body : nat → St → M St) (n : nat) :
  ∀ start s w,
    for_range body start (S n) s w
    = body (start + n) (for_range body start n s w).1 (for_range body start n s w).2.
Proof.
  induction n as [|n IH]; intros start s w.
  - simpl. unfold mbind, M_bind, mret, M_ret. simpl. rewrite Nat.add_0_r.
    by destruct (body start s w).
  - change (for_range body start (S (S n)) s w)
      with (for_range body (S start) (S n) (body start s w).1 (body start s w).2).
    rewrite IH. by replace (S start + n)%nat with (start + S n)%nat by lia.
Qed.

(** ** The Return Estimator *)

Section lambda_loop_facts.
Variables (rewards values continues : tensor3) (bootstrap : tensor2).
Variables (H : nat) (lmbda : Q).
Hypothesis Hrewards : length rewards = H.
Hypothesis Hvalues : length values = H.
Hypothesis Hcontinues : length continues = H.

Lemma next_value_app t :
  t < H → utils.next_value values bootstrap H t = (values ++ [bootstrap]) !! S t.
Proof.
  intros Ht. unfold utils.next_value. case_decide as Hd.
  - rewrite lookup_app_r by lia. by replace (S t - length values)%nat with 0%nat by lia.
  - by rewrite lookup_app_l by lia.
Qed.

Lemma lambda_loop_spec t :
  ∀ agg buf, t ≤ H → length buf = H →
  ∃ lv, utils.lambda_loop rewards values continues bootstrap H lmbda t agg buf = Some lv
    ∧ length lv = H
    ∧ (∀ i, t ≤ i → lv !! i = buf !! i)
    ∧ (∀ i r c v l, i < t →
         rewards !! i = Some r → continues !! i = Some c →
         utils.next_value values bootstrap H i = Some v →
         (if decide (S i = t) then Some agg else lv !! S i) = Some l →
         lv !! i = Some (utils.lambda_step lmbda r c v l)).
Proof.
  induction t as [|t IH]; intros agg buf Ht Hbuf.
  - exists buf. repeat split; [done..|]. intros; lia.
  - destruct (lookup_lt_is_Some_2 rewards t) as [r Hr]; [lia|].
    destruct (lookup_lt_is_Some_2 continues t) as [c Hc]; [lia|].
    destruct (lookup_lt_is_Some_2 (values ++ [bootstrap]) (S t)) as [v Hv].
    { rewrite length_app. simpl. lia. }
    rewrite <- next_value_app in Hv by lia.
    set (lv_t := utils.lambda_step lmbda r c v agg).
    destruct (IH lv_t (<[t := lv_t]> buf)) as (lv & Heq & Hlen & Hkeep & Hrec);
      [lia | by rewrite length_insert |].
    exists lv. split.
    { simpl. rewrite Hr. simpl. rewrite Hc. simpl. rewrite Hv. simpl. exact Heq. }
    split; [done|]. split.
    + intros i Hi. rewrite Hkeep by lia. apply list_lookup_insert_ne. lia.
    + intros i r0 c0 v0 l Hi Hr0 Hc0 Hv0 Hl.
      assert (lv !! t = Some lv_t) as Hlvt.
      { rewrite Hkeep by lia. apply list_lookup_insert_eq. lia. }
      destruct (decide (i = t)) as [->|Hne].
      * rewrite decide_True in Hl by done. by simplify_eq.
      * rewrite decide_False in Hl by lia.
        apply Hrec; [lia|done..|]. case_decide as Hd; [|done].
        rewrite Hd in Hl. congruence.
Qed.

Lemma compute_lambda_values_spec :
  ∃ lv, utils.compute_lambda_values rewards values continues bootstrap H lmbda = Some lv
    ∧ length lv = H
    ∧ (∀ t r c v l,
         rewards !! t = Some r → continues !! t = Some c →
         (values ++ [bootstrap]) !! S t = Some v →
         (lv ++ [bootstrap]) !! S t = Some l →
         lv !! t = Some (utils.lambda_step lmbda r c v l)).
Proof.
  destruct (lambda_loop_spec H bootstrap (replicate H [])) as (lv & Heq & Hlen & _ & Hrec);
    [lia | by rewrite length_replicate |].
  exists lv. split; [exact Heq|]. split; [done|].
  intros t r c v l Hr Hc Hv Hl.
  assert (t < H) as Ht by (apply lookup_lt_Some in Hr; lia).
  apply Hrec; [done..| by rewrite next_value_app |].
  case_decide as Hd.
  - rewrite lookup_app_r in Hl by lia.
    by replace (S t - length lv)%nat with 0%nat in Hl by lia.
  - by rewrite lookup_app_l in Hl by lia.
Qed.

End lambda_loop_facts.

(** C1. The lambda-return computation is the backward recursion with
    bootstrap [lambda_value_H = value_H] and
    [lambda_value_t = reward_t + continuation_t *
       ((1 - lambda) * value_{t+1} + lambda * lambda_value_{t+1})]
    for [t = H-1] down to 0; for rewards [1,1,1], values [0,0,0], bootstrap
    5 and continuation [1,1,1] it returns [8,7,6] when lambda is 1 and
    [1,1,6] when lambda is 0, also through the call made by [train]. *)
Theorem lambda_return_backward_recursion :
  (∀ rewards values continues bootstrap H lmbda,
     length rewards = H → length values = H → length continues = H →
     ∃ lv,
       utils.compute_lambda_values rewards values continues bootstrap H lmbda = Some lv
       ∧ length lv = H
       ∧ (lv ++ [bootstrap]) !! H = Some bootstrap
       ∧ ∀ t r c v l,
           rewards !! t = Some r → continues !! t = Some c →
           (values ++ [bootstrap]) !! S t = Some v →
           (lv ++ [bootstrap]) !! S t = Some l →
           lv !! t = Some (utils.lambda_step lmbda r c v l))
  ∧ (∀ lmbda r c v l,
       utils.lambda_step lmbda [[r]] [[c]] [[v]] [[l]]
       = [[(r + c * ((1 - lmbda) * v + lmbda * l))%Q]])
  ∧ utils.compute_lambda_values (examples.column [1; 1; 1]%Q)
      (examples.column [0; 0; 0]%Q) (examples.column [1; 1; 1]%Q) [[5%Q]] 3 1%Q
    = Some (examples.column [8; 7; 6]%Q)
  ∧ utils.compute_lambda_values (examples.column [1; 1; 1]%Q)
      (examples.column [0; 0; 0]%Q) (examples.column [1; 1; 1]%Q) [[5%Q]] 3 0%Q
    = Some (examples.column [1; 1; 6]%Q)
  ∧ dreamer_v2.train_lambda_values (examples.args_h3 1%Q)
      (examples.column [1; 1; 1; 1]%Q) (examples.column [0; 0; 0; 5]%Q)
      (examples.column [1; 1; 1; 1]%Q)
    = Some (examples.column [8; 7; 6]%Q)
  ∧ dreamer_v2.train_lambda_values (examples.args_h3 0%Q)
      (examples.column [1; 1; 1; 1]%Q) (examples.column [0; 0; 0; 5]%Q)
      (examples.column [1; 1; 1; 1]%Q)
    = Some (examples.column [1; 1; 6]%Q).
Proof.
  split; [|split; [|repeat split; vm_compute; reflexivity]].
  - intros rewards values continues bootstrap H lmbda Hr Hv Hc.
    destruct (compute_lambda_values_spec rewards values continues bootstrap H lmbda Hr Hv Hc)
      as (lv & Heq & Hlen & Hrec).
    exists lv. repeat split; [done..| |done].
    rewrite lookup_app_r by lia. by replace (H - length lv) with 0 by lia.
  - reflexivity.
Qed.

Lemma lambda_return_backward_recursion_witness :
  ∃ lv,
    utils.compute_lambda_values (examples.column [1; 1; 1]%Q)
      (examples.column [0; 0; 0]%Q) (examples.column [1; 1; 1]%Q) [[5%Q]] 3 (1 # 2)
    = Some lv
    ∧ length lv = 3
    ∧ (lv ++ [[[5%Q]]]) !! 3 = Some [[5%Q]]
    ∧ ∀ t r c v l,
        examples.column [1; 1; 1]%Q !! t = Some r →
        examples.column [1; 1; 1]%Q !! t = Some c →
        (examples.column [0; 0; 0]%Q ++ [[[5%Q]]]) !! S t = Some v →
        (lv ++ [[[5%Q]]]) !! S t = Some l →
        lv !! t = Some (utils.lambda_step (1 # 2) r c v l).
Proof.
  apply (proj1 lambda_return_backward_recursion); reflexivity.
Defined.

(** ** The cumulative discount *)

Lemma cumprod_from_lookup (xs : tensor3) :
  ∀ acc t, t < length xs →
    cumprod_from acc xs !! t = Some (foldl mul2 acc (take (S t) xs)).
Proof.
  induction xs as [|x xs IH]; intros acc t Ht; simpl in *; [lia|].
  destruct t as [|t]; simpl.
  - by destruct xs.
  - apply IH. lia.
Qed.

Lemma cumprod_cons_lookup (x : tensor2) (xs : tensor3) (t : nat) :
  t ≤ length xs → cumprod (x :: xs) !! t = Some (foldl mul2 x (take t xs)).
Proof.
  intros Ht. destruct t as [|t]; simpl; [by destruct xs|].
  apply cumprod_from_lookup. lia.
Qed.

Lemma length_cumprod_from (xs : tensor3) : ∀ acc, length (cumprod_from acc xs) = length xs.
Proof. induction xs as [|x xs IH]; intros acc; simpl; [done|]. by rewrite IH. Qed.

Lemma length_cumprod (xs : tensor3) : length (cumprod xs) = length xs.
Proof. destruct xs; simpl; [done|]. by rewrite length_cumprod_from. Qed.

(** The cumulative product of [ones] followed by all but the last [k]
    entries of [xs] holds, at [t], the product of the first [t] entries. *)
Lemma discount_lookup (k : nat) (xs : tensor3) (c0 : tensor2) (t : nat) :
  xs !! 0 = Some c0 → t ≤ length xs - k →
  cumprod (ones_like3 (upto 1 xs) ++ but_last k xs) !! t
  = Some (foldl mul2 (ones_like2 c0) (take t xs)).
Proof.
  intros H0 Ht. destruct xs as [|x xs]; [done|]. simpl in H0. simplify_eq.
  change (ones_like3 (upto 1 (c0 :: xs)) ++ but_last k (c0 :: xs))
    with (ones_like2 c0 :: but_last k (c0 :: xs)).
  unfold but_last. rewrite cumprod_cons_lookup.
  - rewrite take_take. by replace (t `min` (length (c0 :: xs) - k)) with t by lia.
  - rewrite length_take. lia.
Qed.



(** ** The player's reset *)

Section player_reset.
Import dreamer_v1_agent.PlayerDV1.

Lemma zeros_like1_replicate (row : tensor1) :
  zeros_like1 row = replicate (length row) 0%Q.
Proof. induction row as [|q row IH]; simpl; [done|]. by f_equal. Qed.

Lemma normalize_index_valid (n : nat) (idx : list Z) :
  Forall (λ i, (0 ≤ i < Z.of_nat n)%Z) idx →
  mapM (normalize_index n) idx = Some (Z.to_nat <$> idx).
Proof.
  intros Hvalid. apply mapM_Some. apply Forall2_fmap_r, Forall_Forall2_diag.
  eapply Forall_impl; [exact Hvalid|]. intros i Hi. unfold normalize_index.
  by rewrite decide_True.
Qed.

Lemma scatter_zeros_lookup (x : tensor2) (ix : list nat) (rows : tensor2) :
  Forall2 (λ i row, x !! i = Some row) ix rows →
  ∀ acc, length acc = length x →
    length (foldl (λ acc iv, <[iv.1 := iv.2]> acc) acc (zip ix (zeros_like2 rows)))
    = length x
    ∧ ∀ j, foldl (λ acc iv, <[iv.1 := iv.2]> acc) acc (zip ix (zeros_like2 rows)) !! j
           = if decide (j ∈ ix) then zeros_like1 <$> x !! j else acc !! j.
Proof.
  induction 1 as [|i row ix rows Hi _ IH]; intros acc Hacc.
  - split; [done|]. intros j. rewrite decide_False; [done|]. apply not_elem_of_nil.
  - simpl. destruct (IH (<[i := zeros_like1 row]> acc)) as [Hlen Hlook].
    { by rewrite length_insert. }
    split; [done|]. intros j. rewrite Hlook.
    destruct (decide (j ∈ ix)) as [Hin|Hnin].
    + rewrite decide_True; [done|]. by apply list_elem_of_further.
    + destruct (decide (j = i)) as [->|Hne].
      * rewrite decide_True by apply list_elem_of_here.
        rewrite Hi. simpl. apply list_lookup_insert_eq.
        apply lookup_lt_Some in Hi. lia.
      * rewrite decide_False.
        -- by apply list_lookup_insert_ne.
        -- intros Hin. apply elem_of_cons in Hin as [?|?]; done.
Qed.

Lemma zero_rows_spec (x : tensor2) (idx : list Z) :
  Forall (λ i, (0 ≤ i < Z.of_nat (length x))%Z) idx →
  ∃ x', zero_rows idx x = Some x'
    ∧ length x' = length x
    ∧ ∀ j, x' !! j
           = if decide (Z.of_nat j ∈ idx) then zeros_like1 <$> x !! j else x !! j.
Proof.
  intros Hvalid. unfold zero_rows.
  rewrite (normalize_index_valid _ _ Hvalid). simpl.
  destruct (mapM_is_Some_2 (λ i, x !! i) (Z.to_nat <$> idx)) as [rows Hrows].
  { apply Forall_fmap. eapply Forall_impl; [exact Hvalid|]. intros i Hi. simpl.
    apply lookup_lt_is_Some_2. simpl in Hi. lia. }
  rewrite Hrows. simpl. apply mapM_Some in Hrows.
  destruct (scatter_zeros_lookup x _ _ Hrows x eq_refl) as [Hlen Hlook].
  eexists. split; [done|]. split; [done|].
  intros j. rewrite Hlook.
  destruct (decide (j ∈ Z.to_nat <$> idx)) as [Hin|Hnin].
  - rewrite decide_True; [done|].
    apply list_elem_of_fmap in Hin as (i & -> & Hi).
    rewrite Forall_forall in Hvalid. specialize (Hvalid i Hi).
    by rewrite Z2Nat.id by lia.
  - rewrite decide_False; [done|]. intros Hin. apply Hnin.
    apply list_elem_of_fmap. exists (Z.of_nat j). split; [|done].
    by rewrite Nat2Z.id.
Qed.

End player_reset.

(** C9. The player's reset with a non-empty list of environment indices
    zeroes the stored last action, recurrent state and stochastic state at
    exactly those indices and leaves the rows of every other environment
    unchanged; with [None] or an empty list it resets the state of all
    environments to zero.  The three tensors are read from the player the
    reset returns. *)
Theorem init_states_resets_selected_environments :
  (∀ (self : dreamer_v1_agent.PlayerDV1.t) (idx : list Z),
     let n := dreamer_v1_agent.PlayerDV1.num_envs self in
     idx ≠ [] →
     Forall (λ i, (0 ≤ i < Z.of_nat n)%Z) idx →
     length (dreamer_v1_agent.PlayerDV1.actions self) = n →
     length (dreamer_v1_agent.PlayerDV1.recurrent_state self) = n →
     length (dreamer_v1_agent.PlayerDV1.stochastic_state self) = n →
     ∃ player,
       dreamer_v1_agent.PlayerDV1.init_states self (Some idx) = Some player
       ∧ length (dreamer_v1_agent.PlayerDV1.actions player) = n
       ∧ length (dreamer_v1_agent.PlayerDV1.recurrent_state player) = n
       ∧ length (dreamer_v1_agent.PlayerDV1.stochastic_state player) = n
       ∧ ∀ j,
           if decide (Z.of_nat j ∈ idx) then
             dreamer_v1_agent.PlayerDV1.actions player !! j
             = zeros_like1 <$> dreamer_v1_agent.PlayerDV1.actions self !! j
             ∧ dreamer_v1_agent.PlayerDV1.recurrent_state player !! j
               = zeros_like1 <$> dreamer_v1_agent.PlayerDV1.recurrent_state self !! j
             ∧ dreamer_v1_agent.PlayerDV1.stochastic_state player !! j
               = zeros_like1 <$> dreamer_v1_agent.PlayerDV1.stochastic_state self !! j
           else
             dreamer_v1_agent.PlayerDV1.actions player !! j
             = dreamer_v1_agent.PlayerDV1.actions self !! j
             ∧ dreamer_v1_agent.PlayerDV1.recurrent_state player !! j
               = dreamer_v1_agent.PlayerDV1.recurrent_state self !! j
             ∧ dreamer_v1_agent.PlayerDV1.stochastic_state player !! j
               = dreamer_v1_agent.PlayerDV1.stochastic_state self !! j)
  ∧ (∀ row : tensor1, zeros_like1 row = replicate (length row) 0%Q)
  ∧ (∀ self : dreamer_v1_agent.PlayerDV1.t,
       let n := dreamer_v1_agent.PlayerDV1.num_envs self in
       ∃ player,
         dreamer_v1_agent.PlayerDV1.init_states self None = Some player
         ∧ dreamer_v1_agent.PlayerDV1.init_states self (Some []) = Some player
         ∧ dreamer_v1_agent.PlayerDV1.actions player
           = replicate n (replicate
               (sum_list (dreamer_v1_agent.PlayerDV1.actions_dim self)) 0%Q)
         ∧ dreamer_v1_agent.PlayerDV1.recurrent_state player
           = replicate n (replicate
               (dreamer_v1_agent.PlayerDV1.recurrent_state_size self) 0%Q)
         ∧ dreamer_v1_agent.PlayerDV1.stochastic_state player
           = replicate n (replicate
               (dreamer_v1_agent.PlayerDV1.stochastic_size self) 0%Q)).
Proof.
  split; [|split; [apply zeros_like1_replicate | by eexists]].
  intros self idx n Hne Hvalid Ha Hr Hs.
  destruct (zero_rows_spec (dreamer_v1_agent.PlayerDV1.actions self) idx)
    as (a & Hza & Hla & Hja); [by rewrite Ha|].
  destruct (zero_rows_spec (dreamer_v1_agent.PlayerDV1.recurrent_state self) idx)
    as (r & Hzr & Hlr & Hjr); [by rewrite Hr|].
  destruct (zero_rows_spec (dreamer_v1_agent.PlayerDV1.stochastic_state self) idx)
    as (s & Hzs & Hls & Hjs); [by rewrite Hs|].
  exists (dreamer_v1_agent.PlayerDV1.set_states self a r s). split.
  { unfold dreamer_v1_agent.PlayerDV1.init_states. destruct idx as [|i idx]; [done|].
    rewrite Hza. simpl. rewrite Hzr. simpl. by rewrite Hzs. }
  simpl. repeat split; [congruence..|].
  intros j. specialize (Hja j). specialize (Hjr j). specialize (Hjs j).
  by case_decide.
Qed.

Lemma init_states_resets_selected_environments_witness :
  ∃ player,
    dreamer_v1_agent.PlayerDV1.init_states examples.player3 (Some [2; 0]%Z) = Some player
    ∧ (dreamer_v1_agent.PlayerDV1.actions player !! 0
       = zeros_like1 <$> dreamer_v1_agent.PlayerDV1.actions examples.player3 !! 0
       ∧ dreamer_v1_agent.PlayerDV1.recurrent_state player !! 0
         = zeros_like1 <$> dreamer_v1_agent.PlayerDV1.recurrent_state examples.player3 !! 0
       ∧ dreamer_v1_agent.PlayerDV1.stochastic_state player !! 0
         = zeros_like1 <$> dreamer_v1_agent.PlayerDV1.stochastic_state examples.player3 !! 0)
    ∧ (dreamer_v1_agent.PlayerDV1.actions player !! 1
       = dreamer_v1_agent.PlayerDV1.actions examples.player3 !! 1
       ∧ dreamer_v1_agent.PlayerDV1.recurrent_state player !! 1
         = dreamer_v1_agent.PlayerDV1.recurrent_state examples.player3 !! 1
       ∧ dreamer_v1_agent.PlayerDV1.stochastic_state player !! 1
         = dreamer_v1_agent.PlayerDV1.stochastic_state examples.player3 !! 1)
    ∧ dreamer_v1_agent.PlayerDV1.actions player = [[0; 0; 0]; [2; 2; 2]; [0; 0; 0]]%Q
    ∧ dreamer_v1_agent.PlayerDV1.recurrent_state player = [[0; 0]; [2; 2]; [0; 0]]%Q
    ∧ dreamer_v1_agent.PlayerDV1.stochastic_state player = [[0; 0]; [5; 5]; [0; 0]]%Q.
Proof.
  destruct (proj1 init_states_resets_selected_environments examples.player3 [2; 0]%Z)
    as (player & Hreset & _ & _ & _ & Hrows).
  - discriminate.
  - repeat constructor; simpl; lia.
  - reflexivity.
  - reflexivity.
  - reflexivity.
  - exists player. split; [exact Hreset|]. split; [exact (Hrows 0)|].
    split; [exact (Hrows 1)|].
    vm_compute in Hreset. injection Hreset as <-. by split_and!.
Defined.

(** ** Construction-time validation *)

Section build_models_facts.
Import dreamer_v1_agent.









(** An exception that does not come from a check of [build_models]: it was
    raised by a call into the library, or by the look-up of the keys in
    the observation space. *)
Local Abbreviation foreign lib obs_space cnn_keys mlp_keys e :=
  ((∃ c, raises lib c = Some e)
   ∨ (mlp_keys = None ∧ e = Exception "TypeError" "'NoneType' object is not iterable")
   ∨ (∃ k, (k ∈ default [] cnn_keys ∨ k ∈ default [] mlp_keys)
           ∧ (k ∉ obs_space.*1) ∧ e = KeyError k)
   ∨ (∃ k, k ∈ default [] mlp_keys ∧ (k, []) ∈ obs_space
           ∧ e = Exception "IndexError" "tuple index out of range")).













(** [build_models] never reads [lmbda]. *)
Lemma build_models_ignores_lmbda lib actions_dim is_continuous args obs_space
    cnn_keys mlp_keys wms acs crs l :
  build_models lib actions_dim is_continuous (examples.with_lmbda args l) obs_space
    cnn_keys mlp_keys wms acs crs
  = build_models lib actions_dim is_continuous args obs_space cnn_keys mlp_keys wms acs crs.
Proof. reflexivity. Qed.

End build_models_facts.




(** ** The override of [is_first] and the reset of the Dynamics Stepper *)

Section is_first_facts.
Import dreamer_v2.

Lemma ones_like1_replicate (row : tensor1) : ones_like1 row = replicate (length row) 1%Q.
Proof. induction row as [|q row IH]; simpl; [done|]. by f_equal. Qed.

Lemma asserted_ones_like1 (flag : tensor1) : flag ≠ [] → asserted (ones_like1 flag) = true.
Proof. by destruct flag. Qed.

(** Per example, [reset] zeroes the row whose flag is asserted and keeps
    any other row. *)
Lemma reset_lookup (flags state : tensor2) (b : nat) (flag : tensor1) :
  flags !! b = Some flag →
  reset flags state !! b
  = if asserted flag then zeros_like1 <$> state !! b else state !! b.
Proof.
  intros Hflag. unfold reset. rewrite lookup_zip_with, Hflag. simpl.
  destruct (state !! b) as [row|]; simpl; by destruct (asserted flag).
Qed.

Lemma time_slice_Some (x : tensor3) (i : nat) (y : tensor2) :
  x !! i = Some y → time_slice x i = y.
Proof. intros Hx. unfold time_slice. by rewrite Hx. Qed.

Lemma ones_like2_same_shape (x y : tensor2) :
  map length x = map length y → ones_like2 x = ones_like2 y.
Proof.
  revert y. induction x as [|row x IH]; intros [|row' y] Hshape; try done.
  simpl in Hshape. injection Hshape as Hrow Hrest. simpl. f_equal; [|by apply IH].
  by rewrite !ones_like1_replicate, Hrow.
Qed.

Lemma upto_with_S (dynamic : Stepper) args data obs n w :
  dynamic_learning_upto_with dynamic args data obs (S n) w
  = dynamic_learning_step_with dynamic data obs n
      (dynamic_learning_upto_with dynamic args data obs n w).1
      (dynamic_learning_upto_with dynamic args data obs n w).2.
Proof. unfold dynamic_learning_upto_with. by rewrite for_range_snoc. Qed.

(** The first [t] steps read, of the batch, the actions and the flags at
    the timesteps below [t] and nothing else. *)
Lemma upto_with_agree (dynamic : Stepper) args data obs data' obs' w t :
  (∀ i, i < t →
     time_slice (dreamer_v2.actions data') i = time_slice (dreamer_v2.actions data) i
     ∧ time_slice obs' i = time_slice obs i
     ∧ time_slice (is_first data') i = time_slice (is_first data) i) →
  dynamic_learning_upto_with dynamic args data' obs' t w
  = dynamic_learning_upto_with dynamic args data obs t w.
Proof.
  induction t as [|t IH]; intros Hagree; [done|].
  rewrite !upto_with_S, IH by (intros i Hi; apply Hagree; lia).
  destruct (Hagree t) as (Ha & Ho & Hf); [lia|].
  unfold dynamic_learning_step_with. by rewrite Ha, Ho, Hf.
Qed.

Lemma for_range_agree {St} (f g : nat → St → M St) (n : nat) :
  ∀ i st w,
    (∀ j st' w', i ≤ j → f j st' w' = g j st' w') →
    for_range f i n st w = for_range g i n st w.
Proof.
  induction n as [|n IH]; intros i st w Hagree; [done|].
  change (for_range f i (S n) st w)
    with (for_range f (S i) n (f i st w).1 (f i st w).2).
  change (for_range g i (S n) st w)
    with (for_range g (S i) n (g i st w).1 (g i st w).2).
  rewrite Hagree by lia. apply IH. intros j st' w' Hj. apply Hagree. lia.
Qed.

(** An iteration reads, of the batch, the action and the flags of its
    timestep. *)
Lemma step_with_agree (dynamic : Stepper) data data' obs i st w :
  time_slice (dreamer_v2.actions data') i = time_slice (dreamer_v2.actions data) i →
  time_slice (is_first data') i = time_slice (is_first data) i →
  dynamic_learning_step_with dynamic data' obs i st w
  = dynamic_learning_step_with dynamic data obs i st w.
Proof. intros Ha Hf. unfold dynamic_learning_step_with. by rewrite Ha, Hf. Qed.

(** What an iteration hands on is what the stepper returned. *)
Lemma step_with_returns (dynamic : Stepper) data obs i st w :
  let out := dynamic (posterior st) (dreamer_v2.recurrent_state st)
               (time_slice (dreamer_v2.actions data) i) (time_slice obs i)
               (time_slice (is_first data) i) w in
  (dynamic_learning_step_with dynamic data obs i st w).2 = out.2
  ∧ dreamer_v2.recurrent_state (dynamic_learning_step_with dynamic data obs i st w).1
    = out.1.1.1.1.1
  ∧ posterior (dynamic_learning_step_with dynamic data obs i st w).1 = out.1.1.1.1.2.
Proof.
  intros out. unfold out, dynamic_learning_step_with, mbind, M_bind. cbv beta.
  by destruct (dynamic _ _ _ _ _ w) as [[[[[? ?] ?] ?] ?] ?].
Qed.

End is_first_facts.

(** C10. At the start of every training call the [is_first] flag of the
    first timestep is overwritten with 1 for every batch element, whatever
    the replay data held.  After the call the batch holds ones at timestep
    0 and is otherwise untouched.  The stepper, whichever it is, is called
    at timestep 0 on the initial state with the all-ones flags, and the
    remaining iterations run with the stored flags.  The run is the same
    for any batch that differs in the flags of timestep 0 only.  The
    Dynamics Stepper of the specification then resets every example at
    timestep 0. *)
Theorem first_timestep_is_first_overridden :
  ∀ (dynamic : dreamer_v2.Stepper) (args : dreamer_v2.DreamerV2Args)
    (data : dreamer_v2.SequenceBatch) (obs : tensor3) (first : tensor2),
    dreamer_v2.is_first data !! 0 = Some first →
    ∃ data' run,
      dreamer_v2.train_dynamic_learning dynamic args data obs = Some (data', run)
      ∧ dreamer_v2.is_first data' !! 0 = Some (ones_like2 first)
      ∧ (∀ b flag,
           first !! b = Some flag →
           dreamer_v2.time_slice (dreamer_v2.is_first data') 0 !! b
           = Some (replicate (length flag) 1%Q))
      ∧ length (dreamer_v2.is_first data') = length (dreamer_v2.is_first data)
      ∧ (∀ t, 0 < t → dreamer_v2.is_first data' !! t = dreamer_v2.is_first data !! t)
      ∧ dreamer_v2.actions data' = dreamer_v2.actions data
      ∧ dreamer_v2.dones data' = dreamer_v2.dones data
      ∧ dreamer_v2.rewards data' = dreamer_v2.rewards data
      ∧ (∀ w,
           0 < dreamer_v2.per_rank_sequence_length args →
           let init := dreamer_v2.dynamic_learning_init args in
           let out := dynamic (dreamer_v2.posterior init) (dreamer_v2.recurrent_state init)
                        (dreamer_v2.time_slice (dreamer_v2.actions data) 0)
                        (dreamer_v2.time_slice obs 0) (ones_like2 first) w in
           let after := dreamer_v2.dynamic_learning_upto_with dynamic args data' obs 1 w in
           after.2 = out.2
           ∧ dreamer_v2.recurrent_state after.1 = out.1.1.1.1.1
           ∧ dreamer_v2.posterior after.1 = out.1.1.1.1.2
           ∧ run w
             = for_range (dreamer_v2.dynamic_learning_step_with dynamic data obs) 1
                 (dreamer_v2.per_rank_sequence_length args - 1) after.1 after.2)
      ∧ (∀ (other : dreamer_v2.SequenceBatch) (stored : tensor2),
           dreamer_v2.is_first other !! 0 = Some stored →
           map length stored = map length first →
           (∀ t, 0 < t → dreamer_v2.is_first other !! t = dreamer_v2.is_first data !! t) →
           dreamer_v2.actions other = dreamer_v2.actions data →
           ∃ other' run',
             dreamer_v2.train_dynamic_learning dynamic args other obs = Some (other', run')
             ∧ dreamer_v2.is_first other' = dreamer_v2.is_first data'
             ∧ ∀ w, run' w = run w)
      ∧ (∀ (state : tensor2) b flag,
           first !! b = Some flag → flag ≠ [] →
           dreamer_v2.reset (dreamer_v2.time_slice (dreamer_v2.is_first data') 0) state !! b
           = zeros_like1 <$> state !! b).
Proof.
  intros dynamic args data obs first Hfirst.
  assert (0 < length (dreamer_v2.is_first data)) as Hlen
    by (by apply lookup_lt_Some in Hfirst).
  eexists _, _. split.
  { unfold dreamer_v2.train_dynamic_learning, dreamer_v2.override_is_first.
    rewrite Hfirst. reflexivity. }
  set (data' := {| dreamer_v2.actions := dreamer_v2.actions data;
                   dreamer_v2.is_first :=
                     <[0 := ones_like2 first]> (dreamer_v2.is_first data);
                   dreamer_v2.dones := dreamer_v2.dones data;
                   dreamer_v2.rewards := dreamer_v2.rewards data |}).
  assert (dreamer_v2.is_first data' !! 0 = Some (ones_like2 first)) as Hzero
    by (by apply list_lookup_insert_eq).
  assert (dreamer_v2.time_slice (dreamer_v2.is_first data') 0 = ones_like2 first)
    as Hslice by (by apply time_slice_Some).
  assert (∀ t, 0 < t → dreamer_v2.is_first data' !! t = dreamer_v2.is_first data !! t)
    as Hlater.
  { intros t Ht. apply list_lookup_insert_ne. lia. }
  split; [exact Hzero|]. split.
  { intros b flag Hb. rewrite Hslice. unfold ones_like2.
    rewrite list_lookup_fmap, Hb. simpl. by rewrite ones_like1_replicate. }
  split; [apply length_insert|]. split; [exact Hlater|].
  split; [done|]. split; [done|]. split; [done|]. split; [|split].
  - intros w HT init out after.
    assert (after = dreamer_v2.dynamic_learning_step_with dynamic data' obs 0 init w)
      as Hafter by apply upto_with_S.
    destruct (step_with_returns dynamic data' obs 0 init w) as (Hw & Hr & Hp).
    rewrite Hslice in Hw, Hr, Hp. rewrite Hafter.
    split; [exact Hw|]. split; [exact Hr|]. split; [exact Hp|].
    unfold dreamer_v2.dynamic_learning_with, dreamer_v2.dynamic_learning_upto_with.
    destruct (dreamer_v2.per_rank_sequence_length args) as [|n]; [lia|].
    replace (S n - 1) with n by lia.
    change (for_range ?body 0 (S n) ?s w)
      with (for_range body 1 n (body 0 s w).1 (body 0 s w).2).
    apply for_range_agree. intros j st' w' Hj. apply step_with_agree; [done|].
    unfold dreamer_v2.time_slice. by rewrite Hlater by lia.
  - intros other stored Hstored Hshape Hother Hactions.
    eexists _, _. split.
    { unfold dreamer_v2.train_dynamic_learning, dreamer_v2.override_is_first.
      rewrite Hstored. reflexivity. }
    cbn [dreamer_v2.is_first].
    assert (<[0 := ones_like2 stored]> (dreamer_v2.is_first other)
            = dreamer_v2.is_first data') as Hsame.
    { apply list_eq. intros [|t].
      - rewrite Hzero, (ones_like2_same_shape _ _ Hshape).
        apply list_lookup_insert_eq. by apply lookup_lt_Some in Hstored.
      - rewrite list_lookup_insert_ne, Hlater by lia. apply Hother. lia. }
    split; [exact Hsame|]. intros w.
    apply upto_with_agree. intros i _. cbn [dreamer_v2.is_first dreamer_v2.actions].
    by rewrite Hsame, Hactions.
  - intros state b flag Hb Hne. rewrite Hslice.
    rewrite (reset_lookup _ _ _ (ones_like1 flag)).
    + by rewrite asserted_ones_like1.
    + unfold ones_like2. by rewrite list_lookup_fmap, Hb.
Qed.

Lemma first_timestep_is_first_overridden_witness :
  ∃ data' run,
    dreamer_v2.train_dynamic_learning (dreamer_v2.dynamic examples.rssm_half)
      (examples.args_h3 1%Q) examples.data3 examples.obs3
    = Some (data', run)
    ∧ dreamer_v2.is_first examples.data3 = [[[0]; [0]]; [[0]; [1]]; [[0]; [0]]]%Q
    ∧ dreamer_v2.is_first data' = [[[1]; [1]]; [[0]; [1]]; [[0]; [0]]]%Q
    ∧ dreamer_v2.is_first data' !! 0 = Some (ones_like2 [[0]; [0]]%Q).
Proof.
  destruct (first_timestep_is_first_overridden (dreamer_v2.dynamic examples.rssm_half)
              (examples.args_h3 1%Q) examples.data3 examples.obs3 [[0]; [0]]%Q eq_refl)
    as (data' & run & Htrain & Hones & _).
  exists data', run. split; [exact Htrain|]. split; [reflexivity|].
  split; [|exact Hones].
  vm_compute in Htrain. injection Htrain as <- _. reflexivity.
Defined.

(** ** The floor on the standard deviation *)

Section min_std_facts.
Import stochastic dreamer_v1_agent.

(** Every standard deviation that [compute_stochastic_state] returns is at
    least the floor it was called with. *)
Lemma compute_stochastic_state_floor (x : tensor2) (m : Q) (w : world) :
  Forall (Forall (λ s, (m <= s)%Q)) (compute_stochastic_state x m w).1.1.2.
Proof.
  simpl. apply Forall_fmap, Forall_true. intros row.
  apply Forall_fmap, Forall_true. intros raw. simpl. apply Q.le_max_r.
Qed.

(** The prior and the posterior of the RSSM go through the same utility
    with the floor of the RSSM. *)
Lemma rssm_paths_share_the_floor (self : RSSM) (h obs : tensor2) (w : world) :
  Forall (Forall (λ s, (min_std self <= s)%Q)) (_representation self h obs w).1.1.2
  ∧ Forall (Forall (λ s, (min_std self <= s)%Q)) (_transition self h w).1.1.2.
Proof. split; apply compute_stochastic_state_floor. Qed.

(** The posterior of the player is floored at the default of the utility,
    whatever floor was configured. *)
Lemma player_posterior_floor (self : PlayerDV1.t) (h obs : tensor2) (w : world) :
  Forall (Forall (λ s, (default_min_std <= s)%Q)) (PlayerDV1.greedy_posterior self h obs w).1.1.2.
Proof. apply compute_stochastic_state_floor. Qed.

End min_std_facts.

(** C4.  With a configured floor of 0.5 and a representation model that
    emits a raw standard deviation of 0, the posterior and the prior of the
    RSSM have standard deviation 0.5, while the posterior computed by
    PlayerDV1.get_greedy_action with the same representation model has
    standard deviation 0.1, below the configured floor. *)
Theorem player_posterior_below_configured_floor :
  dreamer_v1_agent.min_std examples.rssm_half = 0.5%Q
  ∧ (dreamer_v1_agent._representation examples.rssm_half [[0%Q]] [[0%Q]]
       examples.world0).1.1.2 = [[0.5%Q]]
  ∧ (dreamer_v1_agent._transition examples.rssm_half [[0; 0]%Q] examples.world0).1.1.2
    = [[0.5%Q]]
  ∧ dreamer_v1_agent.PlayerDV1.representation_model examples.player3
    = dreamer_v1_agent.representation_model examples.rssm_half
  ∧ (dreamer_v1_agent.PlayerDV1.greedy_posterior examples.player3 [[0%Q]] [[0%Q]]
       examples.world0).1.1.2 = [[0.1%Q]]
  ∧ ¬ (0.5 <= 0.1)%Q.
Proof.
  repeat split. intros Hle. vm_compute in Hle. by apply Hle.
Qed.

(** ** The entropy bonus and its fallback *)

Section entropy_facts.
Import dreamer_v2.

(** Where every policy implements [entropy()], the bonus is the
    coefficient times the sum of the entropies over the action heads. *)
Lemma actor_entropy_implemented args policies objective hs h :
  entropies policies = Return hs →
  stack_sum2 hs = Return h →
  actor_entropy args policies objective = Return (Entropy2 (scale2 (actor_ent_coef args) h)).
Proof.
  intros Hhs Hh. unfold actor_entropy, entropy_try. by rewrite Hhs, Hh.
Qed.

(** Where a policy raises NotImplementedError, the exception is caught and
    [entropy] becomes a tensor of zeros shaped like [objective]. *)
Lemma actor_entropy_not_implemented args policies objective :
  entropies policies = Raise NotImplementedError →
  actor_entropy args policies objective = Return (Entropy3 (zeros_like3 objective)).
Proof.
  intros Hhs. unfold actor_entropy, entropy_try. by rewrite Hhs.
Qed.

(** [zeros_like(objective).unsqueeze(-1)] has shape (h, n, 1, 1) where
    [objective] has shape (h, n, 1): unless [h = n] or one of them is 1 the
    two do not broadcast. *)
Lemma fallback_does_not_broadcast (objective : tensor3) (h n : nat) :
  length objective = h → Forall (λ row, length row = n) objective →
  2 ≤ h → 2 ≤ n → h ≠ n →
  bop4 Qplus [objective] (unsqueeze_last3 (zeros_like3 objective)) = None.
Proof.
  intros Hh Hn Hh2 Hn2 Hne.
  destruct objective as [|o1 [|o2 os]]; simpl in Hh; [lia..|].
  unfold bop4 at 1, broadcast at 1.
  rewrite decide_False.
  2:{ unfold unsqueeze_last3, zeros_like3. rewrite !length_fmap. simpl. lia. }
  change (unsqueeze_last3 (zeros_like3 (o1 :: o2 :: os)))
    with (unsqueeze_last2 (zeros_like2 o1) :: unsqueeze_last3 (zeros_like3 (o2 :: os))).
  assert (bop3 Qplus (o1 :: o2 :: os) (unsqueeze_last2 (zeros_like2 o1)) = None) as Hrow.
  { apply Forall_cons in Hn as [Hn1 _].
    destruct o1 as [|r1 [|r2 rs]]; simpl in Hn1; [lia..|].
    unfold bop3, broadcast. rewrite decide_False; [done|].
    unfold unsqueeze_last2, zeros_like2. rewrite !length_fmap. simpl in *. lia. }
  simpl. by rewrite Hrow.
Qed.

Lemma fallback_raises args policies discount (objective : tensor3) (h n : nat) :
  entropies policies = Raise NotImplementedError →
  length objective = h → Forall (λ row, length row = n) objective →
  2 ≤ h → 2 ≤ n → h ≠ n →
  actor_loss args policies discount objective = Raise RuntimeError.
Proof.
  intros Hhs Hh Hn Hh2 Hn2 Hne. unfold actor_loss.
  rewrite actor_entropy_not_implemented by done. unfold policy_loss.
  by rewrite (fallback_does_not_broadcast objective h n).
Qed.

End entropy_facts.

(** C7.  A policy without a closed-form entropy, a horizon of 3 and three
    imagined sequences: NotImplementedError is caught and [entropy] is set to
    zeros shaped like [objective], but the policy loss then raises a
    RuntimeError, because the fallback has one dimension more than the
    entropy it replaces; a zero bonus of the regular shape gives the loss
    -7/2, and a policy with an entropy gives the coefficient times it. *)
Theorem entropy_fallback_raises_in_policy_loss :
  dreamer_v2.actor_entropy (examples.args_h3 1%Q) [examples.no_entropy] examples.objective23
  = dreamer_v2.Return (dreamer_v2.Entropy3 [[[0]; [0]; [0]]; [[0]; [0]; [0]]]%Q)
  ∧ dreamer_v2.actor_loss (examples.args_h3 1%Q) [examples.no_entropy]
      examples.discount43 examples.objective23
    = dreamer_v2.Raise dreamer_v2.RuntimeError
  ∧ dreamer_v2.policy_loss examples.discount43 examples.objective23
      (dreamer_v2.Entropy2 [[0; 0; 0]; [0; 0; 0]]%Q)
    = dreamer_v2.Return (- (21 # 6))%Q
  ∧ dreamer_v2.actor_entropy (examples.args_h3 1%Q) [examples.unit_entropy]
      examples.objective23
    = dreamer_v2.Return
        (dreamer_v2.Entropy2 (scale2 0.001%Q [[1; 1; 1]; [1; 1; 1]]%Q)).
Proof.
  repeat split.
Qed.

(** ** The Imagination Roller *)

Section imagination_facts.
Import dreamer_v1_agent.
Variables (rssm : RSSM) (actor : (nat → nat → Q) → tensor2 → tensor2).

(** One imagination step calls the recurrent model and the transition
    model, in this order, and nothing else. *)
Lemma imagination_calls (z h a : tensor2) (w : world) :
  calls (imagination rssm z h a w).2
  = calls w ++ [Recurrent (cat z a) h; Transition (recurrent_model rssm (cat z a) h).1].
Proof. simpl. by rewrite <- app_assoc. Qed.

Section dreamer_v2_loop.
Variables (args : dreamer_v2.DreamerV2Args) (action_size : nat).
Variables (posteriors recurrent_states : tensor3) (w : world).

Local Abbreviation run n :=
  (dreamer_v2.imagine_upto rssm actor args action_size posteriors recurrent_states n w).

Lemma dv2_run_S n :
  run (S n) = dreamer_v2.imagination_step rssm actor (S n) (run n).1 (run n).2.
Proof. unfold dreamer_v2.imagine_upto. by rewrite for_range_snoc. Qed.

Lemma dv2_step_kinds i st w' :
  kind <$> calls (dreamer_v2.imagination_step rssm actor i st w').2
  = (kind <$> calls w') ++ roll.
Proof. simpl. rewrite !fmap_app. by rewrite <- !app_assoc. Qed.

Lemma dv2_run_kinds n :
  kind <$> calls (run n).2 = (kind <$> calls w) ++ concat (replicate n roll).
Proof.
  induction n as [|n IH].
  - simpl. by rewrite ?app_nil_r.
  - rewrite dv2_run_S, dv2_step_kinds, IH, <- app_assoc. f_equal.
    by rewrite concat_replicate_S.
Qed.

Lemma dv2_lengths n :
  length (dreamer_v2.imagined_trajectories (run n).1) = dreamer_v2.horizon args + 1
  ∧ length (dreamer_v2.imagined_actions (run n).1) = dreamer_v2.horizon args + 1.
Proof.
  induction n as [|n [IH1 IH2]].
  - simpl. by rewrite !length_insert, !length_replicate.
  - rewrite dv2_run_S. simpl. by rewrite !length_insert.
Qed.

Lemma dv2_seed n :
  dreamer_v2.imagined_trajectories (run n).1 !! 0
  = Some (Some (cat (concat posteriors) (concat recurrent_states)))
  ∧ dreamer_v2.imagined_actions (run n).1 !! 0
    = Some (Some (zeros (dreamer_v2.per_rank_batch_size args
                         * dreamer_v2.per_rank_sequence_length args) action_size)).
Proof.
  induction n as [|n [IH1 IH2]].
  - simpl. rewrite !list_lookup_insert_eq; [done|..]; rewrite length_replicate; lia.
  - rewrite dv2_run_S. simpl. by rewrite !list_lookup_insert_ne by lia.
Qed.

Lemma dv2_slots n i :
  1 ≤ i ≤ n → n ≤ dreamer_v2.horizon args →
  dreamer_v2.imagined_trajectories (run n).1 !! i
  = Some (Some (dreamer_v2.imagined_latent_state (run i).1))
  ∧ dreamer_v2.imagined_actions (run n).1 !! i
    = Some (Some (actor (generator (run (i - 1)).2 (draws (run (i - 1)).2))
                    (dreamer_v2.imagined_latent_state (run (i - 1)).1))).
Proof.
  induction n as [|n IH]; intros Hi Hn; [lia|].
  destruct (decide (i = S n)) as [->|Hne].
  - destruct (dv2_lengths n) as [Hl1 Hl2].
    replace (S n - 1) with n by lia. rewrite dv2_run_S. simpl.
    rewrite !list_lookup_insert_eq by lia. done.
  - destruct IH as [IH1 IH2]; [lia..|].
    rewrite dv2_run_S. simpl. rewrite !list_lookup_insert_ne by lia.
    rewrite <- IH1, <- IH2. done.
Qed.

End dreamer_v2_loop.

Section p2e_loop.
Variables (horizon batch action_size : nat).
Variables (stochastic_states recurrent_states : tensor3) (w : world).

Local Abbreviation run n :=
  (p2e.imagine_upto rssm actor horizon batch action_size stochastic_states
     recurrent_states n w).

Lemma p2e_run_S n :
  run (S n) = p2e.imagination_step rssm actor n (run n).1 (run n).2.
Proof. unfold p2e.imagine_upto. by rewrite for_range_snoc. Qed.

Lemma p2e_step_kinds i st w' :
  kind <$> calls (p2e.imagination_step rssm actor i st w').2 = (kind <$> calls w') ++ roll.
Proof. simpl. rewrite !fmap_app. by rewrite <- !app_assoc. Qed.

Lemma p2e_run_kinds n :
  kind <$> calls (run n).2 = (kind <$> calls w) ++ concat (replicate n roll).
Proof.
  induction n as [|n IH].
  - simpl. by rewrite ?app_nil_r.
  - rewrite p2e_run_S, p2e_step_kinds, IH, <- app_assoc. f_equal.
    by rewrite concat_replicate_S.
Qed.

Lemma p2e_lengths n :
  length (p2e.imagined_trajectories (run n).1) = horizon
  ∧ length (p2e.all_actions (run n).1) = horizon.
Proof.
  induction n as [|n [IH1 IH2]].
  - simpl. by rewrite !length_replicate.
  - rewrite p2e_run_S. simpl. by rewrite !length_insert.
Qed.

Lemma p2e_slots n i :
  i < n → n ≤ horizon →
  p2e.imagined_trajectories (run n).1 !! i
  = Some (Some (p2e.imagined_latent_states (run (S i)).1)).
Proof.
  induction n as [|n IH]; intros Hi Hn; [lia|].
  destruct (decide (i = n)) as [->|Hne].
  - destruct (p2e_lengths n) as [Hl1 _].
    rewrite p2e_run_S. simpl. by rewrite list_lookup_insert_eq by lia.
  - rewrite (p2e_run_S n). simpl. rewrite list_lookup_insert_ne by lia.
    apply IH; lia.
Qed.

End p2e_loop.

End imagination_facts.

Section imagination_log.
Import dreamer_v1_agent.

Lemma count_roll (k : call_kind) (n : nat) :
  k ∈ roll → length (filter (λ k', k' = k) (concat (replicate n roll))) = n.
Proof.
  intros Hk. induction n as [|n IH]; [done|].
  change (concat (replicate (S n) roll)) with (roll ++ concat (replicate n roll)).
  rewrite filter_app, length_app, IH.
  unfold roll in *. repeat (apply elem_of_cons in Hk as [->|Hk]); [done..|].
  by apply elem_of_nil in Hk.
Qed.

Lemma roll_has_no_representation (n : nat) :
  Forall (λ k, k ≠ KRepresentation) (concat (replicate n roll)).
Proof.
  apply Forall_concat, Forall_replicate. by repeat constructor.
Qed.

Lemma dv2_run_extends rssm actor args action_size posteriors recurrent_states w n :
  ∃ new,
    calls (dreamer_v2.imagine_upto rssm actor args action_size posteriors
             recurrent_states n w).2 = calls w ++ new.
Proof.
  induction n as [|n [new IH]].
  - exists []. simpl. by rewrite app_nil_r.
  - rewrite dv2_run_S. eexists. simpl. rewrite IH. by rewrite <- !app_assoc.
Qed.

Lemma p2e_run_extends rssm actor horizon batch action_size stoch recurrent_states w n :
  ∃ new,
    calls (p2e.imagine_upto rssm actor horizon batch action_size stoch
             recurrent_states n w).2 = calls w ++ new.
Proof.
  induction n as [|n [new IH]].
  - exists []. simpl. by rewrite app_nil_r.
  - rewrite p2e_run_S. eexists. simpl. rewrite IH. by rewrite <- !app_assoc.
Qed.

(** What a log whose kinds are [n] rolls says. *)
Lemma rolls_summary (new : list call) (n : nat) :
  kind <$> new = concat (replicate n roll) →
  Forall (λ c, kind c ≠ KRepresentation) new
  ∧ length (filter (λ k, k = KActor) (kind <$> new)) = n
  ∧ length (filter (λ k, k = KRecurrent) (kind <$> new)) = n
  ∧ length (filter (λ k, k = KTransition) (kind <$> new)) = n.
Proof.
  intros Hk. split.
  - pose proof (roll_has_no_representation n) as Hroll.
    rewrite <- Hk in Hroll. rewrite Forall_forall in Hroll.
    apply Forall_forall. intros c Hc. apply Hroll. by apply list_elem_of_fmap_2.
  - rewrite Hk. repeat split; apply count_roll; unfold roll;
      repeat (apply list_elem_of_here || apply list_elem_of_further).
Qed.

End imagination_log.

(** C6. During an imagination rollout the representation model is never
    called: each of the [H] iterations calls the actor, the recurrent model
    and the transition model, once each and in this order, and there are
    exactly [H] iterations whatever the networks compute: no prediction,
    of continuation or otherwise, ends the loop early.  This holds for the
    loop of dreamer_v2.py and for the loop of p2e.py. *)
Theorem imagination_uses_prior_only_for_H_steps :
  (∀ rssm z h a w,
     calls (dreamer_v1_agent.imagination rssm z h a w).2
     = calls w ++ [Recurrent (cat z a) h;
                   Transition (dreamer_v1_agent.recurrent_model rssm (cat z a) h).1])
  ∧ (∀ rssm actor args action_size posteriors recurrent_states w,
       ∃ new,
         calls (dreamer_v2.imagine rssm actor args action_size posteriors
                  recurrent_states w).2 = calls w ++ new
         ∧ kind <$> new = concat (replicate (dreamer_v2.horizon args) roll)
         ∧ Forall (λ c, kind c ≠ KRepresentation) new
         ∧ length (filter (λ k, k = KActor) (kind <$> new)) = dreamer_v2.horizon args
         ∧ length (filter (λ k, k = KRecurrent) (kind <$> new)) = dreamer_v2.horizon args
         ∧ length (filter (λ k, k = KTransition) (kind <$> new)) = dreamer_v2.horizon args)
  ∧ (∀ rssm actor horizon batch action_size stochastic_states recurrent_states w,
       ∃ new,
         calls (p2e.imagine rssm actor horizon batch action_size stochastic_states
                  recurrent_states w).2 = calls w ++ new
         ∧ kind <$> new = concat (replicate horizon roll)
         ∧ Forall (λ c, kind c ≠ KRepresentation) new
         ∧ length (filter (λ k, k = KActor) (kind <$> new)) = horizon
         ∧ length (filter (λ k, k = KRecurrent) (kind <$> new)) = horizon
         ∧ length (filter (λ k, k = KTransition) (kind <$> new)) = horizon).
Proof.
  split; [apply imagination_calls|]. split.
  - intros rssm actor args action_size posteriors recurrent_states w.
    unfold dreamer_v2.imagine.
    destruct (dv2_run_extends rssm actor args action_size posteriors recurrent_states w
                (dreamer_v2.horizon args)) as [new Hnew].
    exists new. split; [done|].
    assert (kind <$> new = concat (replicate (dreamer_v2.horizon args) roll)) as Hk.
    { pose proof (dv2_run_kinds rssm actor args action_size posteriors recurrent_states w
                    (dreamer_v2.horizon args)) as Hkinds.
      rewrite Hnew, fmap_app in Hkinds. by apply app_inv_head in Hkinds. }
    split; [done|]. by apply rolls_summary.
  - intros rssm actor horizon batch action_size stochastic_states recurrent_states w.
    unfold p2e.imagine.
    destruct (p2e_run_extends rssm actor horizon batch action_size stochastic_states
                recurrent_states w horizon) as [new Hnew].
    exists new. split; [done|].
    assert (kind <$> new = concat (replicate horizon roll)) as Hk.
    { pose proof (p2e_run_kinds rssm actor horizon batch action_size stochastic_states
                    recurrent_states w horizon) as Hkinds.
      rewrite Hnew, fmap_app in Hkinds. by apply app_inv_head in Hkinds. }
    split; [done|]. by apply rolls_summary.
Qed.

(** C5, as the specification states it, fails on the roller of p2e.py: with a
    horizon of 3 its trajectory holds three latent states, not four. *)
Lemma p2e_trajectory_has_horizon_states :
  ¬ (length (p2e.imagined_trajectories
               (p2e.imagine examples.rssm_half examples.first_noise_actor 3 2 1
                  examples.posteriors2 examples.recurrents2 examples.world0).1)
     = 3 + 1).
Proof. vm_compute. discriminate. Qed.

(** C5, amended.  The roller of dreamer_v2.py, for every seed and horizon
    [H], fills a trajectory of exactly [H + 1] latent states, the seed at
    index 0 and the state imagined by iteration [i] at index [i], and
    an action buffer of [H + 1] entries, zeros at index 0 and at index
    [i] in [1..H] the action the actor sampled from the latent state of
    index [i - 1].  The roller of p2e.py fills a trajectory of exactly [H]
    latent states, the state imagined by iteration [i] at index [i] from 0
    and no seed, next to an action buffer of [H] entries. *)
Theorem imagined_trajectory_shape :
  (∀ rssm actor args action_size posteriors recurrent_states w,
     let run := dreamer_v2.imagine_upto rssm actor args action_size posteriors
                  recurrent_states in
     let final := (dreamer_v2.imagine rssm actor args action_size posteriors
                     recurrent_states w).1 in
     let H := dreamer_v2.horizon args in
     length (dreamer_v2.imagined_trajectories final) = H + 1
     ∧ dreamer_v2.imagined_trajectories final !! 0
       = Some (Some (cat (concat posteriors) (concat recurrent_states)))
     ∧ dreamer_v2.imagined_latent_state (run 0 w).1
       = cat (concat posteriors) (concat recurrent_states)
     ∧ length (dreamer_v2.imagined_actions final) = H + 1
     ∧ dreamer_v2.imagined_actions final !! 0
       = Some (Some (replicate (dreamer_v2.per_rank_batch_size args
                                * dreamer_v2.per_rank_sequence_length args)
                       (replicate action_size 0%Q)))
     ∧ ∀ i, 1 ≤ i ≤ H →
         dreamer_v2.imagined_trajectories final !! i
         = Some (Some (dreamer_v2.imagined_latent_state (run i w).1))
         ∧ dreamer_v2.imagined_actions final !! i
           = Some (Some (actor (generator (run (i - 1) w).2 (draws (run (i - 1) w).2))
                           (dreamer_v2.imagined_latent_state (run (i - 1) w).1))))
  ∧ (∀ rssm actor H batch action_size stochastic_states recurrent_states w,
       let run := p2e.imagine_upto rssm actor H batch action_size stochastic_states
                    recurrent_states in
       let final := (p2e.imagine rssm actor H batch action_size stochastic_states
                       recurrent_states w).1 in
       length (p2e.imagined_trajectories final) = H
       ∧ length (p2e.all_actions final) = H
       ∧ ∀ i, i < H →
           p2e.imagined_trajectories final !! i
           = Some (Some (p2e.imagined_latent_states (run (S i) w).1))).
Proof.
  split.
  - intros rssm actor args action_size posteriors recurrent_states w run final H.
    unfold final, dreamer_v2.imagine.
    destruct (dv2_lengths rssm actor args action_size posteriors recurrent_states w H)
      as [Hl1 Hl2].
    destruct (dv2_seed rssm actor args action_size posteriors recurrent_states w H)
      as [Hs1 Hs2].
    split_and!; [done..|].
    intros i Hi. by apply dv2_slots.
  - intros rssm actor H batch action_size stochastic_states recurrent_states w run final.
    unfold final, p2e.imagine.
    destruct (p2e_lengths rssm actor H batch action_size stochastic_states
                recurrent_states w H) as [Hl1 Hl2].
    split_and!; [done..|].
    intros i Hi. by apply p2e_slots.
Qed.

Lemma imagined_trajectory_shape_witness :
  dreamer_v2.imagined_trajectories
    (dreamer_v2.imagine examples.rssm_half examples.first_noise_actor
       (examples.args_h3 1%Q) 1 examples.posteriors2 examples.recurrents2
       examples.world0).1 !! 2
  = Some (Some (dreamer_v2.imagined_latent_state
                  (dreamer_v2.imagine_upto examples.rssm_half examples.first_noise_actor
                     (examples.args_h3 1%Q) 1 examples.posteriors2 examples.recurrents2
                     2 examples.world0).1)).
Proof.
  apply (proj1 imagined_trajectory_shape examples.rssm_half examples.first_noise_actor
           (examples.args_h3 1%Q) 1 examples.posteriors2 examples.recurrents2
           examples.world0).
  simpl. lia.
Defined.

(** ** The Dynamics Stepper over a training window *)

Section dynamic_learning_facts.
Import dreamer_v1_agent dreamer_v2.
Variables (rssm : RSSM) (args : DreamerV2Args).

Local Abbreviation upto data obs n w := (dynamic_learning_upto rssm args data obs n w).

(** What step [t] feeds to the recurrent model, from the state [st] handed
    to it. *)
Local Abbreviation fed data st t :=
  (cat (reset (time_slice (is_first data) t) (posterior st))
       (time_slice (dreamer_v2.actions data) t),
   reset (time_slice (is_first data) t) (dreamer_v2.recurrent_state st)).

Lemma upto_S data obs n w :
  upto data obs (S n) w
  = dynamic_learning_step rssm data obs n (upto data obs n w).1 (upto data obs n w).2.
Proof.
  unfold dynamic_learning_upto, dynamic_learning_upto_with. by rewrite for_range_snoc.
Qed.

Lemma step_extends data obs i st w :
  ∃ new, calls (dynamic_learning_step rssm data obs i st w).2 = calls w ++ new.
Proof. eexists. simpl. by rewrite <- !app_assoc. Qed.

Lemma step_recurrent_inputs data obs i st w :
  recurrent_inputs (calls (dynamic_learning_step rssm data obs i st w).2)
  = recurrent_inputs (calls w) ++ [fed data st i].
Proof.
  simpl. unfold recurrent_inputs. rewrite !omap_app. simpl. by rewrite !app_nil_r.
Qed.

Lemma upto_recurrent_inputs data obs w n :
  recurrent_inputs (calls (upto data obs n w).2)
  = recurrent_inputs (calls w) ++ ((λ t, fed data (upto data obs t w).1 t) <$> seq 0 n).
Proof.
  induction n as [|n IH].
  - simpl. by rewrite app_nil_r.
  - rewrite upto_S, step_recurrent_inputs, IH, seq_S, fmap_app, <- app_assoc. done.
Qed.

Lemma upto_lengths data obs w n :
  length (recurrent_states (upto data obs n w).1) = per_rank_sequence_length args
  ∧ length (posteriors (upto data obs n w).1) = per_rank_sequence_length args.
Proof.
  induction n as [|n [IH1 IH2]].
  - simpl. by rewrite !length_replicate.
  - rewrite upto_S. simpl. by rewrite !length_insert.
Qed.

(** The buffers keep, at index [t], what step [t] returned. *)
Lemma upto_buffers data obs w n t :
  t < n → n ≤ per_rank_sequence_length args →
  recurrent_states (upto data obs n w).1 !! t
  = Some (dreamer_v2.recurrent_state (upto data obs (S t) w).1)
  ∧ posteriors (upto data obs n w).1 !! t
    = Some (Some (posterior (upto data obs (S t) w).1)).
Proof.
  induction n as [|n IH]; intros Ht Hn; [lia|].
  destruct (decide (t = n)) as [->|Hne].
  - destruct (upto_lengths data obs w n) as [Hl1 Hl2].
    rewrite upto_S. simpl. by rewrite !list_lookup_insert_eq by lia.
  - destruct IH as [IH1 IH2]; [lia..|].
    rewrite (upto_S data obs n). simpl. rewrite !list_lookup_insert_ne by lia.
    by rewrite <- IH1, <- IH2.
Qed.

(** The first [t] steps read the batch at timesteps below [t] only. *)
Lemma upto_agree data obs data' obs' w t :
  (∀ i, i < t →
     time_slice (dreamer_v2.actions data') i = time_slice (dreamer_v2.actions data) i
     ∧ time_slice obs' i = time_slice obs i
     ∧ time_slice (is_first data') i = time_slice (is_first data) i) →
  upto data' obs' t w = upto data obs t w.
Proof.
  induction t as [|t IH]; intros Hagree; [done|].
  rewrite !upto_S, IH by (intros i Hi; apply Hagree; lia).
  destruct (Hagree t) as (Ha & Ho & Hf); [lia|].
  unfold dynamic_learning_step, dynamic_learning_step_with. by rewrite Ha, Ho, Hf.
Qed.

Lemma upto_prefix data obs w n k :
  calls (upto data obs n w).2 `prefix_of` calls (upto data obs (n + k) w).2.
Proof.
  induction k as [|k IH].
  - by rewrite Nat.add_0_r.
  - replace (n + S k) with (S (n + k)) by lia. rewrite upto_S.
    destruct (step_extends data obs (n + k) (upto data obs (n + k) w).1
                (upto data obs (n + k) w).2) as [new ->].
    by apply prefix_app_r.
Qed.

(** [RSSM.dynamic] of dreamer_v1/agent.py takes no [is_first]: it feeds
    the recurrent model the state it was given. *)
Lemma dv1_dynamic_feeds_state_as_given posterior h action obs w :
  recurrent_inputs (calls (dreamer_v1_agent.dynamic rssm posterior h action obs w).2)
  = recurrent_inputs (calls w) ++ [(cat posterior action, h)].
Proof.
  simpl. unfold recurrent_inputs. rewrite !omap_app. simpl. by rewrite !app_nil_r.
Qed.

End dynamic_learning_facts.

(** C3. For every example [b] of the batch and every timestep [t] of the
    training window: what step [t] passes to the recurrent model is the
    state handed over by step [t - 1] after the per-example reset, so where
    [is_first] is 1 at [t] the recurrent state and the stochastic state fed
    to the transition are zero, and where it is 0 they are the carried
    ones; the state handed over is the one step [t - 1] returned and
    stored, whatever [is_first] was at [t - 1]; and nothing computed before
    step [t] depends on the batch at [t] or later. *)
Theorem is_first_resets_state_before_transition :
  ∀ rssm args (data : dreamer_v2.SequenceBatch) (obs : tensor3) (w : world) (t : nat),
    calls w = [] →
    t < dreamer_v2.per_rank_sequence_length args →
    let before := (dreamer_v2.dynamic_learning_upto rssm args data obs t w).1 in
    let final := dreamer_v2.dynamic_learning rssm args data obs w in
    let flags := dreamer_v2.time_slice (dreamer_v2.is_first data) t in
    recurrent_inputs (calls final.2) !! t
    = Some (cat (dreamer_v2.reset flags (dreamer_v2.posterior before))
              (dreamer_v2.time_slice (dreamer_v2.actions data) t),
            dreamer_v2.reset flags (dreamer_v2.recurrent_state before))
    ∧ (∀ b, flags !! b = Some [1%Q] →
         dreamer_v2.reset flags (dreamer_v2.recurrent_state before) !! b
         = zeros_like1 <$> dreamer_v2.recurrent_state before !! b
         ∧ dreamer_v2.reset flags (dreamer_v2.posterior before) !! b
           = zeros_like1 <$> dreamer_v2.posterior before !! b)
    ∧ (∀ b flag, flags !! b = Some flag → dreamer_v2.asserted flag = false →
         dreamer_v2.reset flags (dreamer_v2.recurrent_state before) !! b
         = dreamer_v2.recurrent_state before !! b
         ∧ dreamer_v2.reset flags (dreamer_v2.posterior before) !! b
           = dreamer_v2.posterior before !! b)
    ∧ (∀ t', t = S t' →
         dreamer_v2.recurrent_states final.1 !! t'
         = Some (dreamer_v2.recurrent_state before)
         ∧ dreamer_v2.posteriors final.1 !! t' = Some (Some (dreamer_v2.posterior before)))
    ∧ (t = 0 →
         dreamer_v2.recurrent_state before
         = zeros (dreamer_v2.per_rank_batch_size args) (dreamer_v2.recurrent_state_size args)
         ∧ dreamer_v2.posterior before
           = zeros (dreamer_v2.per_rank_batch_size args)
               (dreamer_v2.stochastic_size args * dreamer_v2.discrete_size args))
    ∧ (∀ data' obs',
         (∀ i, i < t →
            dreamer_v2.time_slice (dreamer_v2.actions data') i
            = dreamer_v2.time_slice (dreamer_v2.actions data) i
            ∧ dreamer_v2.time_slice obs' i = dreamer_v2.time_slice obs i
            ∧ dreamer_v2.time_slice (dreamer_v2.is_first data') i
              = dreamer_v2.time_slice (dreamer_v2.is_first data) i) →
         dreamer_v2.dynamic_learning_upto rssm args data' obs' t w
         = dreamer_v2.dynamic_learning_upto rssm args data obs t w)
    ∧ calls (dreamer_v2.dynamic_learning_upto rssm args data obs t w).2
      `prefix_of` calls final.2.
Proof.
  intros rssm args data obs w t Hw Ht before final flags.
  unfold final.
  change (dreamer_v2.dynamic_learning rssm args data obs w)
    with (dreamer_v2.dynamic_learning_upto rssm args data obs
            (dreamer_v2.per_rank_sequence_length args) w).
  split_and!.
  - rewrite upto_recurrent_inputs, Hw. simpl.
    rewrite list_lookup_fmap, lookup_seq_lt by lia. done.
  - intros b Hb. by rewrite !(reset_lookup _ _ _ _ Hb).
  - intros b flag Hb Hflag. by rewrite !(reset_lookup _ _ _ _ Hb), Hflag.
  - intros t' ->. apply upto_buffers; lia.
  - by intros ->.
  - intros data' obs' Hagree. by apply upto_agree.
  - replace (dreamer_v2.per_rank_sequence_length args)
      with (t + (dreamer_v2.per_rank_sequence_length args - t)) by lia.
    apply upto_prefix.
Qed.

Lemma is_first_resets_state_before_transition_witness :
  recurrent_inputs
    (calls (dreamer_v2.dynamic_learning examples.rssm_half (examples.args_h3 1%Q)
              examples.data3 examples.obs3 examples.world0).2) !! 1
  = Some ([[2; 2]; [0; 2]]%Q, [[1; 1]; [0; 0]]%Q)
  ∧ dreamer_v2.reset (dreamer_v2.time_slice (dreamer_v2.is_first examples.data3) 1)
      (dreamer_v2.recurrent_state
         (dreamer_v2.dynamic_learning_upto examples.rssm_half (examples.args_h3 1%Q)
            examples.data3 examples.obs3 1 examples.world0).1) !! 1
    = Some [0; 0]%Q.
Proof.
  destruct (is_first_resets_state_before_transition examples.rssm_half
              (examples.args_h3 1%Q) examples.data3 examples.obs3 examples.world0 1)
    as (Hfed & Hreset & _).
  - reflexivity.
  - simpl. lia.
  - split.
    + rewrite Hfed. vm_compute. reflexivity.
    + destruct (Hreset 1 eq_refl) as [Hr _]. rewrite Hr. vm_compute. reflexivity.
Defined.

(** * Further properties of the code *)

(** ** Slices and chunks *)

Section python_facts.
Context {A : Type}.
Implicit Types l : list A.

Lemma take_add_drop l (x y : nat) : take (x + y) l = take x l ++ take y (drop x l).
Proof.
  revert l. induction x as [|x IH]; intros l; [done|].
  destruct l as [|z l]; simpl; [by rewrite take_nil|]. by rewrite IH.
Qed.

Lemma slice_app l (a b c : nat) :
  a ≤ b → b ≤ c → python.slice a b l ++ python.slice b c l = python.slice a c l.
Proof.
  intros Hab Hbc. unfold python.slice.
  replace (c - a) with ((b - a) + (c - b)) by lia.
  rewrite take_add_drop, drop_drop. by replace (a + (b - a)) with b by lia.
Qed.

Lemma slice_from_0 l (n : nat) : length l ≤ n → python.slice 0 n l = l.
Proof.
  intros Hn. unfold python.slice. rewrite drop_0, Nat.sub_0_r. by apply take_ge.
Qed.

Lemma slice_lookup l (a b i : nat) x :
  python.slice a b l !! i = Some x → l !! (a + i) = Some x ∧ a + i < b.
Proof.
  unfold python.slice. intros Hx.
  apply lookup_take_Some in Hx as [Hx Hi]. rewrite lookup_drop in Hx. split; [done|lia].
Qed.

Lemma split_fuel_concat (n : nat) :
  0 < n → ∀ fuel l, length l ≤ fuel → concat (python.split_fuel fuel n l) = l.
Proof.
  intros Hn. induction fuel as [|fuel IH]; intros l Hl.
  - destruct l; simpl in *; [done|lia].
  - destruct l as [|x l]; [done|].
    change (python.split_fuel (S fuel) n (x :: l))
      with (take n (x :: l) :: python.split_fuel fuel n (drop n (x :: l))).
    simpl concat. rewrite IH.
    + apply take_drop.
    + rewrite length_drop. simpl in *. lia.
Qed.

Lemma split_fuel_lengths (n : nat) :
  0 < n → ∀ fuel l, Forall (λ c, 1 ≤ length c ≤ n) (python.split_fuel fuel n l).
Proof.
  intros Hn. induction fuel as [|fuel IH]; intros l; [constructor|].
  destruct l as [|x l]; [constructor|].
  change (python.split_fuel (S fuel) n (x :: l))
    with (take n (x :: l) :: python.split_fuel fuel n (drop n (x :: l))).
  constructor; [|apply IH].
  rewrite length_take. simpl. lia.
Qed.

(** A property of every entry but the first of a list holds in every chunk
    of the list for every entry but the first of the chunk. *)
Lemma split_fuel_tail (P : A → Prop) (n : nat) :
  0 < n → ∀ fuel l,
    (∀ i x, 0 < i → l !! i = Some x → P x) →
    Forall (λ c, ∀ i x, 0 < i → c !! i = Some x → P x) (python.split_fuel fuel n l).
Proof.
  intros Hn. induction fuel as [|fuel IH]; intros l Hl; [constructor|].
  destruct l as [|y l]; [constructor|].
  change (python.split_fuel (S fuel) n (y :: l))
    with (take n (y :: l) :: python.split_fuel fuel n (drop n (y :: l))).
  constructor.
  - intros i x Hi Hx. apply lookup_take_Some in Hx as [Hx _]. by eapply Hl.
  - apply IH. intros i x Hi Hx. rewrite lookup_drop in Hx. eapply Hl; [|done]. lia.
Qed.

Lemma length_concat_le (n : nat) (ls : list (list A)) :
  Forall (λ c, length c ≤ n) ls → length (concat ls) ≤ length ls * n.
Proof.
  induction 1 as [|c ls Hc _ IH]; simpl; [done|]. rewrite length_app. lia.
Qed.

End python_facts.

(** ** Recurrent PPO: from the rollout buffer to training sequences *)

Section ppo_recurrent_facts.
Import ppo_recurrent.

Lemma nonzero_rows_from_elem (x : tensor2) :
  ∀ i j,
    j ∈ nonzero_rows_from i x
    ↔ ∃ k row, j = i + k ∧ x !! k = Some row ∧ Exists (λ q, Qeq_bool q 0 = false) row.
Proof.
  induction x as [|row x IH]; intros i j; simpl.
  - split; [by intros ?%elem_of_nil | by intros (k & r & _ & ? & _)].
  - rewrite elem_of_app, list_elem_of_fmap, IH. split.
    + intros [(q & -> & Hq)|(k & r & -> & Hk & Hr)].
      * exists 0, row. split; [lia|]. split; [done|].
        apply list_elem_of_filter in Hq as [Hq Hin]. apply Exists_exists. eauto.
      * exists (S k), r. split; [lia|]. done.
    + intros (k & r & -> & Hk & Hr). destruct k as [|k]; simpl in Hk.
      * left. simplify_eq. apply Exists_exists in Hr as (q & Hin & Hq).
        exists q. split; [lia|]. by apply list_elem_of_filter.
      * right. exists k, r. split; [lia|]. done.
Qed.

Lemma nonzero_rows_from_sorted (x : tensor2) :
  ∀ i, StronglySorted le (nonzero_rows_from i x).
Proof.
  induction x as [|row x IH]; intros i; simpl; [constructor|].
  apply StronglySorted_app_2; [| |apply IH].
  - intros x1 x2 Hx1 Hx2. apply list_elem_of_fmap in Hx1 as (q & -> & _).
    apply nonzero_rows_from_elem in Hx2 as (k & r & -> & _). lia.
  - induction (filter (λ q, Qeq_bool q 0 = false) row) as [|q l IHl]; simpl;
      constructor; [done|].
    apply Forall_forall. intros y Hy. apply list_elem_of_fmap in Hy as (? & -> & _). done.
Qed.

Lemma last_cons_default (e : nat) (rest : list nat) :
  default e (last rest) = default 0 (last (e :: rest)).
Proof.
  destruct rest as [|z rest]; [done|]. rewrite last_cons_cons.
  by destruct (last (z :: rest)) eqn:Hl; [|apply last_None in Hl].
Qed.

Lemma last_ge (e : nat) (rest : list nat) :
  Forall (le e) rest → e ≤ default e (last rest).
Proof.
  intros Hrest. destruct (last rest) as [z|] eqn:Hl; simpl; [|done].
  rewrite Forall_forall in Hrest. apply Hrest.
  apply last_Some in Hl as [l' ->]. apply elem_of_app. right. apply list_elem_of_here.
Qed.

(** The loop over the episode ends appends the non-empty slices between
    consecutive ends. *)
Lemma split_episodes_spec (env_data : list Step) :
  ∀ episode_ends start episodes,
    StronglySorted le episode_ends →
    Forall (le start) episode_ends →
    (∀ i s, start < i → env_data !! i = Some s →
       Exists (λ q, Qeq_bool q 0 = false) (dones s) → i ∈ episode_ends) →
    ∃ new,
      split_episodes env_data episode_ends start episodes = episodes ++ new
      ∧ concat new = python.slice start (default start (last episode_ends)) env_data
      ∧ Forall (λ ep, ep ≠ []) new
      ∧ Forall (λ ep, ∀ i s, 0 < i → ep !! i = Some s →
                  Forall (λ q, (q == 0)%Q) (dones s)) new.
Proof.
  induction episode_ends as [|e rest IH]; intros start episodes Hsorted Hle Hcover.
  - exists []. rewrite app_nil_r. split; [done|]. split; [|by split].
    simpl. unfold python.slice. by rewrite Nat.sub_diag.
  - apply StronglySorted_cons in Hsorted as [Hrest Hsorted].
    apply Forall_cons in Hle as [Hse _].
    set (episode := python.slice start e env_data).
    assert (∀ i s, 0 < i → episode !! i = Some s → Forall (λ q, (q == 0)%Q) (dones s))
      as Hepisode.
    { intros i s Hi Hs. apply slice_lookup in Hs as [Hs Hlt].
      destruct (decide (Exists (λ q, Qeq_bool q 0 = false) (dones s))) as [Hex|Hnex].
      - assert (start + i ∈ e :: rest) as Hin by (eapply Hcover; [lia|done..]).
        apply elem_of_cons in Hin as [?|Hin]; [lia|].
        rewrite Forall_forall in Hrest. specialize (Hrest _ Hin). lia.
      - apply not_Exists_Forall in Hnex; [|intros q; apply _].
        eapply Forall_impl; [exact Hnex|]. intros q Hq. simpl in Hq.
        apply Qeq_bool_iff. by destruct (Qeq_bool q 0). }
    assert (∀ i s, e < i → env_data !! i = Some s →
              Exists (λ q, Qeq_bool q 0 = false) (dones s) → i ∈ rest) as Hcover'.
    { intros i s Hi Hs Hex.
      assert (i ∈ e :: rest) as Hin by (eapply Hcover; [lia|done..]).
      apply elem_of_cons in Hin as [?|Hin]; [lia|done]. }
    assert (python.slice start (default start (last (e :: rest))) env_data
            = episode ++ python.slice e (default e (last rest)) env_data) as Hslice.
    { unfold episode. rewrite slice_app; [|done|by apply last_ge].
      f_equal. rewrite (last_cons_default e rest).
      by destruct (last (e :: rest)) eqn:Hl; [|apply last_None in Hl]. }
    simpl. fold episode. case_decide as Hlen.
    + destruct (IH e (episodes ++ [episode]) Hsorted Hrest Hcover')
        as (new & Heq & Hcat & Hne & Htail).
      exists (episode :: new). rewrite Heq, <- app_assoc. split; [done|].
      split; [by rewrite Hslice; simpl; rewrite Hcat|].
      split; constructor; try done. intros ->. simpl in Hlen. lia.
    + destruct (IH e episodes Hsorted Hrest Hcover') as (new & Heq & Hcat & Hne & Htail).
      exists new. split; [done|]. split; [|done].
      rewrite Hslice, Hcat. destruct episode; [done|]. simpl in Hlen. lia.
Qed.

(** The episodes of one environment, when the buffer holds [rollout_steps]
    steps. *)
Lemma env_episodes_spec (args : RecurrentPPOArgs) (env_data : list Step)
    (episodes : list (list Step)) :
  length env_data = rollout_steps args →
  ∃ new,
    env_episodes args env_data episodes = episodes ++ new
    ∧ concat new = env_data
    ∧ Forall (λ ep, ep ≠ []) new
    ∧ Forall (λ ep, ∀ i s, 0 < i → ep !! i = Some s →
                Forall (λ q, (q == 0)%Q) (dones s)) new.
Proof.
  intros Hlen. unfold env_episodes, nonzero_rows.
  destruct (split_episodes_spec env_data
              (nonzero_rows_from 0 (dones <$> env_data) ++ [rollout_steps args]) 0 episodes)
    as (new & Heq & Hcat & Hrest).
  - apply StronglySorted_app_2; [|apply nonzero_rows_from_sorted|repeat constructor].
    intros x1 x2 Hx1 Hx2. apply list_elem_of_singleton in Hx2 as ->.
    apply nonzero_rows_from_elem in Hx1 as (k & r & -> & Hk & _).
    apply lookup_lt_Some in Hk. rewrite length_fmap in Hk. lia.
  - apply Forall_forall. intros; lia.
  - intros i s Hi Hs Hex. apply elem_of_app. left.
    apply nonzero_rows_from_elem. exists i, (dones s). split; [done|].
    split; [|done]. by rewrite list_lookup_fmap, Hs.
  - exists new. split; [done|]. split; [|done].
    rewrite Hcat, last_snoc. simpl. apply slice_from_0. lia.
Qed.

Lemma column_Some (local_data : list (list Step)) (env_id n : nat) :
  Forall (λ row, length row = n) local_data → env_id < n →
  ∃ env_data, column local_data env_id = Some env_data
    ∧ length env_data = length local_data.
Proof.
  intros Hrows Hid.
  destruct (mapM_is_Some_2 (λ row : list Step, row !! env_id) local_data) as [col Hcol].
  - eapply Forall_impl; [exact Hrows|]. intros row Hrow. simpl in *.
    apply lookup_lt_is_Some_2. lia.
  - exists col. split; [done|]. symmetry. by eapply length_mapM.
Qed.

End ppo_recurrent_facts.

Section ppo_recurrent_fold.
Import ppo_recurrent.

Lemma split_into_episodes_fold (args : RecurrentPPOArgs) (local_data : list (list Step))
    (ids : list nat) :
  length local_data = rollout_steps args →
  Forall (λ row, length row = num_envs args) local_data →
  Forall (λ env_id, env_id < num_envs args) ids →
  ∀ episodes,
    ∃ columns new,
      mapM (column local_data) ids = Some columns
      ∧ foldl (λ acc env_id,
                 episodes ← acc;
                 env_data ← column local_data env_id;
                 Some (env_episodes args env_data episodes))
              (Some episodes) ids = Some (episodes ++ new)
      ∧ concat new = concat columns
      ∧ Forall (λ ep, ep ≠ []) new
      ∧ Forall (λ ep, ∀ i s, 0 < i → ep !! i = Some s →
                  Forall (λ q, (q == 0)%Q) (dones s)) new.
Proof.
  intros Hlen Hrows Hids. induction Hids as [|env_id ids Hid _ IH]; intros episodes.
  - exists [], []. rewrite app_nil_r. by repeat split.
  - destruct (column_Some local_data env_id _ Hrows Hid) as (env_data & Hcol & Hcollen).
    destruct (env_episodes_spec args env_data episodes) as (new1 & Heq1 & Hcat1 & Hne1 & Ht1);
      [congruence|].
    destruct (IH (episodes ++ new1)) as (columns & new2 & Hcols & Heq2 & Hcat2 & Hne2 & Ht2).
    exists (env_data :: columns), (new1 ++ new2). split.
    { simpl. rewrite Hcol. simpl. by rewrite Hcols. }
    split.
    { simpl. rewrite Hcol. simpl. rewrite Heq1, Heq2. by rewrite app_assoc. }
    split; [by rewrite concat_app, Hcat1, Hcat2|].
    split; by apply Forall_app.
Qed.

End ppo_recurrent_fold.

(** X1. Step 1 of the data preparation of recurrent PPO: when the buffer
    holds [rollout_steps] rows of [num_envs] entries, the episodes are
    found, and chained together they give back the rollout of each
    environment, one environment after the other: no step is lost,
    repeated or reordered.  No episode is empty, and within an episode only
    the first step can carry a done flag, so no episode runs across an
    episode boundary. *)
Theorem rollout_is_split_at_done_flags :
  ∀ (args : ppo_recurrent.RecurrentPPOArgs) (local_data : list (list ppo_recurrent.Step)),
    length local_data = ppo_recurrent.rollout_steps args →
    Forall (λ row, length row = ppo_recurrent.num_envs args) local_data →
    ∃ columns episodes,
      mapM (ppo_recurrent.column local_data) (seq 0 (ppo_recurrent.num_envs args))
      = Some columns
      ∧ ppo_recurrent.split_into_episodes args local_data = Some episodes
      ∧ concat episodes = concat columns
      ∧ Forall (λ ep, ep ≠ []) episodes
      ∧ Forall (λ ep, ∀ i s, 0 < i → ep !! i = Some s →
                  Forall (λ q, (q == 0)%Q) (ppo_recurrent.dones s)) episodes.
Proof.
  intros args local_data Hlen Hrows.
  destruct (split_into_episodes_fold args local_data (seq 0 (ppo_recurrent.num_envs args))
              Hlen Hrows) with (episodes := @nil (list ppo_recurrent.Step))
    as (columns & new & Hcols & Hfold & Hrest).
  - apply Forall_forall. intros env_id Hin. apply elem_of_seq in Hin. lia.
  - exists columns, new. split; [done|]. split; [exact Hfold | exact Hrest].
Qed.

Lemma rollout_is_split_at_done_flags_witness :
  ∃ columns episodes,
    mapM (ppo_recurrent.column more_examples.buffer6) (seq 0 1) = Some columns
    ∧ ppo_recurrent.split_into_episodes more_examples.ppo_args more_examples.buffer6
      = Some episodes
    ∧ concat episodes = concat columns
    ∧ Forall (λ ep, ep ≠ []) episodes
    ∧ Forall (λ ep, ∀ i s, 0 < i → ep !! i = Some s →
                Forall (λ q, (q == 0)%Q) (ppo_recurrent.dones s)) episodes.
Proof.
  apply (rollout_is_split_at_done_flags more_examples.ppo_args more_examples.buffer6).
  - reflexivity.
  - repeat constructor.
Defined.

(** X2. Step 2 of the data preparation: cutting the episodes into
    sequences keeps every step, in order; with a positive
    [per_rank_batch_size] every sequence has between one and that many
    steps, and a sequence still carries a done flag at its first step only,
    if the episodes did; without a positive size the episodes are the
    sequences. *)
Theorem sequences_are_chunks_of_episodes :
  ∀ (args : ppo_recurrent.RecurrentPPOArgs) (episodes : list (list ppo_recurrent.Step)),
    let sequences := ppo_recurrent.split_into_sequences args episodes in
    concat sequences = concat episodes
    ∧ (Forall (λ ep, ∀ i s, 0 < i → ep !! i = Some s →
                 Forall (λ q, (q == 0)%Q) (ppo_recurrent.dones s)) episodes →
       Forall (λ sq, ∀ i s, 0 < i → sq !! i = Some s →
                 Forall (λ q, (q == 0)%Q) (ppo_recurrent.dones s)) sequences)
    ∧ (∀ n, ppo_recurrent.per_rank_batch_size args = Some n → (0 < n)%Z →
         Forall (λ sq, 1 ≤ length sq ≤ Z.to_nat n) sequences)
    ∧ ((∀ n, ppo_recurrent.per_rank_batch_size args = Some n → (n ≤ 0)%Z) →
       sequences = episodes).
Proof.
  intros args episodes sequences. unfold sequences, ppo_recurrent.split_into_sequences.
  destruct (ppo_recurrent.per_rank_batch_size args) as [n|]; [|by split_and!].
  case_decide as Hn.
  - assert (0 < Z.to_nat n) as Hpos by lia. split_and!.
    + induction episodes as [|ep episodes IH]; [done|].
      rewrite fmap_cons. simpl concat. rewrite concat_app, IH. f_equal.
      by apply split_fuel_concat.
    + intros Hep. apply Forall_concat, Forall_fmap.
      eapply Forall_impl; [exact Hep|]. intros ep Htail. simpl.
      by apply split_fuel_tail.
    + intros n' [= <-] _. apply Forall_concat, Forall_fmap, Forall_true.
      intros ep. simpl. by apply split_fuel_lengths.
    + intros Hle. specialize (Hle n eq_refl). lia.
  - split_and!; [done..| |done]. intros n' [= <-] Hpos. lia.
Qed.

Lemma sequences_are_chunks_of_episodes_witness :
  Forall (λ sq, 1 ≤ length sq ≤ 2)
    (ppo_recurrent.split_into_sequences more_examples.ppo_args
       (ppo_recurrent.env_episodes more_examples.ppo_args more_examples.rollout6 [])).
Proof.
  apply (sequences_are_chunks_of_episodes more_examples.ppo_args
           (ppo_recurrent.env_episodes more_examples.ppo_args more_examples.rollout6 [])
         ) with (n := 2%Z).
  - reflexivity.
  - lia.
Defined.

(** X3. The batches of an epoch of recurrent PPO: with at least one
    sequence the batch size is positive and at most the number of
    sequences, every sequence index drawn by the sampler lands in exactly
    one batch, in the order drawn, no batch is empty or larger than the batch
    size, and the number of batches is at least [per_rank_num_batches] when
    that many sequences exist.  With no sequence and a positive
    [per_rank_num_batches] the batch size is 0, which the sampler rejects. *)
Theorem train_batches_cover_every_sequence :
  ∀ (args : ppo_recurrent.RecurrentPPOArgs) (order : list nat),
    let n := Z.of_nat (length order) in
    let k := ppo_recurrent.per_rank_num_batches args in
    (0 < length order →
       (0 < ppo_recurrent.train_batch_size args n ≤ n)%Z
       ∧ ∃ batches,
           ppo_recurrent.train_batches args n order = Some batches
           ∧ concat batches = order
           ∧ Forall (λ b, 1 ≤ length b
                          ≤ Z.to_nat (ppo_recurrent.train_batch_size args n)) batches
           ∧ ((0 < k ≤ n)%Z → (k ≤ Z.of_nat (length batches))%Z))
    ∧ (length order = 0 → (0 < k)%Z →
       ppo_recurrent.train_batch_size args n = 0%Z
       ∧ ppo_recurrent.train_batches args n order = None).
Proof.
  intros args order n k. split.
  - intros Hpos.
    assert (0 < ppo_recurrent.train_batch_size args n ≤ n)%Z as Hbs.
    { unfold ppo_recurrent.train_batch_size. fold k.
      repeat case_decide; try lia. split; [lia|].
      apply Z.div_le_upper_bound; nia. }
    split; [done|].
    unfold ppo_recurrent.train_batches, ppo_recurrent.batch_sampler.
    rewrite decide_True by lia. eexists. split; [done|].
    assert (0 < Z.to_nat (ppo_recurrent.train_batch_size args n)) as Hnat by lia.
    split; [by apply split_fuel_concat|]. split; [by apply split_fuel_lengths|].
    intros Hk.
    pose proof (length_concat_le (Z.to_nat (ppo_recurrent.train_batch_size args n))
                  (python.split (Z.to_nat (ppo_recurrent.train_batch_size args n)) order))
      as Hle.
    assert (concat (python.split (Z.to_nat (ppo_recurrent.train_batch_size args n)) order)
            = order) as Hcat by (by apply split_fuel_concat).
    rewrite Hcat in Hle.
    assert (ppo_recurrent.train_batch_size args n * k ≤ n)%Z as Hmul.
    { unfold ppo_recurrent.train_batch_size. fold k. rewrite decide_True by lia.
      assert (0 < n / k)%Z by (apply Z.div_str_pos; lia).
      rewrite decide_True by lia. rewrite Z.mul_comm. apply Z.mul_div_le. lia. }
    assert (length order
            ≤ length (python.split (Z.to_nat (ppo_recurrent.train_batch_size args n)) order)
              * Z.to_nat (ppo_recurrent.train_batch_size args n)) as Hle'.
    { apply Hle. eapply Forall_impl; [by apply split_fuel_lengths|].
      intros c Hc. simpl in Hc. lia. }
    nia.
  - intros Hzero Hk.
    assert (n = 0%Z) as -> by lia.
    assert (ppo_recurrent.train_batch_size args 0 = 0%Z) as Hbs.
    { unfold ppo_recurrent.train_batch_size. fold k. rewrite decide_True by lia.
      rewrite Z.div_0_l by lia. by rewrite decide_False by lia. }
    split; [done|]. unfold ppo_recurrent.train_batches, ppo_recurrent.batch_sampler.
    rewrite Hbs. by rewrite decide_False by lia.
Qed.

Lemma train_batches_cover_every_sequence_witness :
  ∃ batches,
    ppo_recurrent.train_batches more_examples.ppo_args 10
      [3; 1; 4; 0; 5; 9; 2; 6; 8; 7] = Some batches
    ∧ concat batches = [3; 1; 4; 0; 5; 9; 2; 6; 8; 7]
    ∧ Forall (λ b, 1 ≤ length b ≤ 2) batches
    ∧ ((0 < 4 ≤ 10)%Z → (4 ≤ Z.of_nat (length batches))%Z).
Proof.
  apply (proj1 (train_batches_cover_every_sequence more_examples.ppo_args
                  [3; 1; 4; 0; 5; 9; 2; 6; 8; 7])).
  simpl. lia.
Defined.

Section done_mask_facts.
Import ppo_recurrent.

Lemma mapM_lift0 (f : Q → Q → Q) (x : Q) (row : tensor1) :
  mapM (lift0 f x) row = Some (map (f x) row).
Proof. induction row as [|q row IH]; [done|]. simpl. by rewrite IH. Qed.

Lemma bop1_singleton (f : Q → Q → Q) (x : Q) (row : tensor1) :
  bop1 f [x] row = Some (map (f x) row).
Proof.
  unfold bop1, broadcast. case_decide as Hlen.
  - by destruct row as [|q [|]].
  - apply mapM_lift0.
Qed.

Lemma mask_done_zip (done e : tensor2) :
  length done = length e → Forall (λ r, length r = 1) done →
  mask_done done e
  = Some (zip_with (λ drow row, map (Qmult (1 - default 0%Q (head drow))%Q) row) done e).
Proof.
  intros Hlen Hone. unfold mask_done, bop2.
  rewrite (broadcast_same _
             (λ drow row, map (Qmult (default 0%Q (head drow))) row)).
  - f_equal. revert e Hlen. induction Hone as [|drow done Hd _ IH]; intros e Hlen.
    + done.
    + destruct e as [|row e]; [done|]. simpl. f_equal.
      * by destruct drow as [|d [|]].
      * apply IH. simpl in Hlen. lia.
  - revert e Hlen. induction Hone as [|drow done Hd _ IH]; intros e Hlen.
    + destruct e; [constructor|done].
    + destruct e as [|row e]; [done|]. simpl. constructor.
      * destruct drow as [|d [|]]; try done. apply bop1_singleton.
      * apply IH. simpl in Hlen. lia.
Qed.

End done_mask_facts.

(** X4. After an environment step of recurrent PPO the four LSTM state
    tensors are multiplied by [1 - done]: for an environment whose step was
    done the row of the state is zero, for one whose step was not done the
    row keeps its values, and other environments do not matter; the
    tensors keep their shape.  Without [reset_recurrent_state_on_done] the
    state is passed on as it is. *)
Theorem done_resets_recurrent_state :
  (∀ done e : tensor2,
     length done = length e → Forall (λ r, length r = 1) done →
     ∃ e',
       ppo_recurrent.mask_done done e = Some e'
       ∧ length e' = length e
       ∧ ∀ b (d : Q) row,
           done !! b = Some [d] → e !! b = Some row →
           ∃ row',
             e' !! b = Some row'
             ∧ length row' = length row
             ∧ ((d == 1)%Q → Forall (λ q, (q == 0)%Q) row')
             ∧ ((d == 0)%Q → Forall2 Qeq row' row))
  ∧ (∀ args done state,
       ppo_recurrent.reset_recurrent_state_on_done args = false →
       ppo_recurrent.next_state args done state = Some state)
  ∧ (∀ args done state,
       ppo_recurrent.reset_recurrent_state_on_done args = true →
       ppo_recurrent.next_state args done state
       = (actor_hx ← ppo_recurrent.mask_done done state.1.1;
          actor_cx ← ppo_recurrent.mask_done done state.1.2;
          critic_hx ← ppo_recurrent.mask_done done state.2.1;
          critic_cx ← ppo_recurrent.mask_done done state.2.2;
          Some ((actor_hx, actor_cx), (critic_hx, critic_cx)))).
Proof.
  split; [|split].
  - intros done e Hlen Hone. eexists. split; [by apply mask_done_zip|].
    split; [rewrite length_zip_with; lia|].
    intros b d row Hd He. eexists. split.
    { rewrite lookup_zip_with, Hd. simpl. by rewrite He. }
    simpl. split; [by rewrite length_map|]. split.
    + intros H1. apply Forall_forall. intros q Hq.
      apply list_elem_of_fmap in Hq as (q' & -> & _). cbv beta. rewrite H1. ring.
    + intros H0. apply Forall2_fmap_l, Forall_Forall2_diag, Forall_true.
      intros q. unfold compose. cbv beta. rewrite H0. ring.
  - intros args done state Hflag. unfold ppo_recurrent.next_state. by rewrite Hflag.
  - intros args done state Hflag. unfold ppo_recurrent.next_state. by rewrite Hflag.
Qed.

Lemma done_resets_recurrent_state_witness :
  ∃ e',
    ppo_recurrent.mask_done [[0]; [1]]%Q [[3; 4]; [5; 6]]%Q = Some e'
    ∧ length e' = 2
    ∧ ∀ b (d : Q) row,
        [[0]; [1]]%Q !! b = Some [d] → [[3; 4]; [5; 6]]%Q !! b = Some row →
        ∃ row',
          e' !! b = Some row'
          ∧ length row' = length row
          ∧ ((d == 1)%Q → Forall (λ q, (q == 0)%Q) row')
          ∧ ((d == 0)%Q → Forall2 Qeq row' row).
Proof.
  apply (proj1 done_resets_recurrent_state [[0]; [1]]%Q [[3; 4]; [5; 6]]%Q).
  - reflexivity.
  - repeat constructor.
Defined.

(** ** Plan2Explore: the buffer of imagined actions *)

Section p2e_actions.
Import dreamer_v1_agent.
Variables (rssm : RSSM) (actor : (nat → nat → Q) → tensor2 → tensor2).
Variables (horizon batch action_size : nat).
Variables (stochastic_states recurrent_states : tensor3) (w : world).

Local Abbreviation run n :=
  (p2e.imagine_upto rssm actor horizon batch action_size stochastic_states
     recurrent_states n w).

Lemma p2e_all_actions n :
  n ≤ horizon →
  (∀ i, 1 ≤ i →
     p2e.all_actions (run n).1 !! i = replicate horizon (zeros batch action_size) !! i)
  ∧ (∀ m, n = S m →
       p2e.all_actions (run n).1 !! 0
       = Some (actor (generator (run m).2 (draws (run m).2))
                 (p2e.imagined_latent_states (run m).1))).
Proof.
  induction n as [|n IH]; intros Hn.
  - split; [done|]. intros m Hm. lia.
  - destruct IH as [IH _]; [lia|].
    destruct (p2e_lengths rssm actor horizon batch action_size stochastic_states
                recurrent_states w n) as [_ Hlen].
    rewrite p2e_run_S. simpl. split.
    + intros i Hi. rewrite list_lookup_insert_ne by lia. by apply IH.
    + intros m [= <-]. apply list_lookup_insert_eq. lia.
Qed.

End p2e_actions.

(** X5. The action buffer of the imagination loop of p2e.py is written at
    index 0 in every iteration: after a rollout of [H >= 1] steps index 0
    holds the action sampled in the last iteration and every other index
    still holds the zeros the buffer was created with. *)
Theorem p2e_records_only_the_last_action :
  ∀ rssm actor H batch action_size stochastic_states recurrent_states w,
    0 < H →
    let run := p2e.imagine_upto rssm actor H batch action_size stochastic_states
                 recurrent_states in
    let final := (p2e.imagine rssm actor H batch action_size stochastic_states
                    recurrent_states w).1 in
    p2e.all_actions final !! 0
    = Some (actor (generator (run (H - 1) w).2 (draws (run (H - 1) w).2))
              (p2e.imagined_latent_states (run (H - 1) w).1))
    ∧ ∀ i, 1 ≤ i < H →
        p2e.all_actions final !! i = Some (replicate batch (replicate action_size 0%Q)).
Proof.
  intros rssm actor H batch action_size stochastic_states recurrent_states w HH run final.
  unfold final, p2e.imagine.
  destruct (p2e_all_actions rssm actor H batch action_size stochastic_states
              recurrent_states w H) as [Hrest Hfirst]; [lia|].
  split.
  - apply Hfirst. lia.
  - intros i Hi. rewrite Hrest by lia. apply lookup_replicate_2. lia.
Qed.

Lemma p2e_records_only_the_last_action_witness :
  let final :=
    (p2e.imagine examples.rssm_half examples.first_noise_actor 3 2 1
       examples.posteriors2 examples.recurrents2 examples.world0).1 in
  p2e.all_actions final !! 0 = Some [[4]; [4]]%Q
  ∧ p2e.all_actions final !! 2 = Some [[0]; [0]]%Q.
Proof.
  destruct (p2e_records_only_the_last_action examples.rssm_half
              examples.first_noise_actor 3 2 1 examples.posteriors2
              examples.recurrents2 examples.world0) as [Hfirst Hrest]; [lia|].
  split.
  - etransitivity; [exact Hfirst|]. vm_compute. reflexivity.
  - apply (Hrest 2). lia.
Defined.

(** ** The exceptions of the entropy bonus *)

Section entropy_exceptions.
Import dreamer_v2.

Lemma entropies_app_raise (before : list Distribution) (p : Distribution)
    (after : list Distribution) (e : exn) :
  Forall (λ p', ∃ h, entropy p' = Return h) before →
  entropy p = Raise e →
  entropies (before ++ p :: after) = Raise e.
Proof.
  intros Hbefore Hp. induction Hbefore as [|p' before [h Hh] _ IH]; simpl.
  - by rewrite Hp.
  - by rewrite Hh, IH.
Qed.

End entropy_exceptions.

(** X6. Which exception of [entropy()] the actor update absorbs: the
    entropies are asked for in the order of the policies and the first
    exception decides.  NotImplementedError is caught and replaced by zeros
    shaped like the objective; any other exception leaves the training step,
    also when a later policy would have raised NotImplementedError. *)
Theorem only_not_implemented_is_caught :
  ∀ args (before : list dreamer_v2.Distribution) p after e discount objective,
    Forall (λ p', ∃ h, dreamer_v2.entropy p' = dreamer_v2.Return h) before →
    dreamer_v2.entropy p = dreamer_v2.Raise e →
    (e = dreamer_v2.NotImplementedError →
       dreamer_v2.actor_entropy args (before ++ p :: after) objective
       = dreamer_v2.Return (dreamer_v2.Entropy3 (zeros_like3 objective)))
    ∧ (e ≠ dreamer_v2.NotImplementedError →
       dreamer_v2.actor_entropy args (before ++ p :: after) objective = dreamer_v2.Raise e
       ∧ dreamer_v2.actor_loss args (before ++ p :: after) discount objective
         = dreamer_v2.Raise e).
Proof.
  intros args before p after e discount objective Hbefore Hp.
  pose proof (entropies_app_raise before p after e Hbefore Hp) as Hraise.
  unfold dreamer_v2.actor_loss, dreamer_v2.actor_entropy, dreamer_v2.entropy_try.
  rewrite Hraise. split.
  - by intros ->.
  - intros Hne. by destruct e.
Qed.

Lemma only_not_implemented_is_caught_witness :
  dreamer_v2.actor_loss (examples.args_h3 1%Q)
    ([examples.unit_entropy] ++ more_examples.broken_entropy :: [examples.no_entropy])
    examples.discount43 examples.objective23
  = dreamer_v2.Raise dreamer_v2.RuntimeError.
Proof.
  apply (only_not_implemented_is_caught (examples.args_h3 1%Q) [examples.unit_entropy]
           more_examples.broken_entropy [examples.no_entropy] dreamer_v2.RuntimeError).
  - repeat constructor. by eexists.
  - reflexivity.
  - discriminate.
Defined.

(** ** The player's reset: Python indices *)

Section player_reset_indices.
Import dreamer_v1_agent.PlayerDV1.

Lemma normalize_index_Some (n : nat) (i : Z) (j : nat) :
  normalize_index n i = Some j
  ↔ j < n ∧ (i = Z.of_nat j ∨ i = (Z.of_nat j - Z.of_nat n)%Z).
Proof.
  unfold normalize_index. repeat case_decide; split.
  - intros [= <-]. lia.
  - intros [Hj [->| ->]]; f_equal; lia.
  - intros [= <-]. lia.
  - intros [Hj [->| ->]]; f_equal; lia.
  - done.
  - intros [Hj [->| ->]]; lia.
Qed.

Lemma normalize_index_None (n : nat) (i : Z) :
  normalize_index n i = None ↔ ¬ (- Z.of_nat n ≤ i < Z.of_nat n)%Z.
Proof. unfold normalize_index. repeat case_decide; split; (done || lia). Qed.

Lemma zeros_like1_idemp (row : tensor1) : zeros_like1 (zeros_like1 row) = zeros_like1 row.
Proof. unfold zeros_like1. rewrite <- list_fmap_compose. done. Qed.

(** The rows an index list selects in a dimension of size [n]. *)
Local Abbreviation selects n idx j :=
  (Z.of_nat j ∈ idx ∨ Z.sub (Z.of_nat j) (Z.of_nat n) ∈ idx).

Lemma zero_rows_None (x : tensor2) (idx : list Z) :
  zero_rows idx x = None
  ↔ Exists (λ i, ¬ (- Z.of_nat (length x) ≤ i < Z.of_nat (length x))%Z) idx.
Proof.
  unfold zero_rows.
  destruct (mapM (normalize_index (length x)) idx) as [ix|] eqn:Hix; simpl.
  - apply mapM_Some in Hix.
    assert (is_Some (mapM (λ i, x !! i) ix)) as [rows Hrows].
    { apply mapM_is_Some. apply Forall_forall. intros j Hj.
      apply list_elem_of_lookup in Hj as [k Hk].
      destruct (Forall2_lookup_r _ _ _ _ _ Hix Hk) as (i & _ & Hi).
      apply normalize_index_Some in Hi. apply lookup_lt_is_Some_2. lia. }
    rewrite Hrows. simpl. split; [done|]. intros Hex. exfalso.
    apply Exists_exists in Hex as (i & Hi & Hout).
    apply list_elem_of_lookup in Hi as [k Hk].
    destruct (Forall2_lookup_l _ _ _ _ _ Hix Hk) as (j & _ & Hj).
    apply normalize_index_Some in Hj. lia.
  - split; [|done]. intros _.
    apply mapM_None in Hix. apply Exists_exists in Hix as (i & Hi & Hnone).
    apply Exists_exists. exists i. split; [done|]. by apply normalize_index_None.
Qed.

Lemma zero_rows_Some (x x' : tensor2) (idx : list Z) :
  zero_rows idx x = Some x' →
  length x' = length x
  ∧ ∀ j, x' !! j
         = if decide (selects (length x) idx j) then zeros_like1 <$> x !! j else x !! j.
Proof.
  unfold zero_rows. intros Hz.
  destruct (mapM (normalize_index (length x)) idx) as [ix|] eqn:Hix; [|done].
  simpl in Hz. destruct (mapM (λ i, x !! i) ix) as [rows|] eqn:Hrows; [|done].
  simpl in Hz. injection Hz as <-.
  apply mapM_Some in Hix. apply mapM_Some in Hrows.
  destruct (scatter_zeros_lookup x _ _ Hrows x eq_refl) as [Hlen Hlook].
  split; [done|]. intros j. rewrite Hlook.
  destruct (decide (j ∈ ix)) as [Hin|Hnin].
  - rewrite decide_True; [done|].
    apply list_elem_of_lookup in Hin as [k Hk].
    destruct (Forall2_lookup_r _ _ _ _ _ Hix Hk) as (i & Hi & Hnorm).
    apply normalize_index_Some in Hnorm as [_ [->| ->]].
    + left. by eapply list_elem_of_lookup_2.
    + right. by eapply list_elem_of_lookup_2.
  - destruct (decide (selects (length x) idx j)) as [Hsel|]; [|done].
    destruct (decide (j < length x)) as [Hlt|Hge].
    + exfalso. apply Hnin.
      destruct Hsel as [Hi|Hi]; apply list_elem_of_lookup in Hi as [k Hk];
        destruct (Forall2_lookup_l _ _ _ _ _ Hix Hk) as (j' & Hj' & Hnorm);
        apply normalize_index_Some in Hnorm;
        (replace j with j' by lia); by eapply list_elem_of_lookup_2.
    + rewrite lookup_ge_None_2 by lia. done.
Qed.

Lemma zero_rows_idemp (x x' : tensor2) (idx : list Z) :
  zero_rows idx x = Some x' → zero_rows idx x' = Some x'.
Proof.
  intros Hz. destruct (zero_rows_Some _ _ _ Hz) as [Hlen Hlook].
  destruct (zero_rows idx x') as [x''|] eqn:Hz'.
  - f_equal. destruct (zero_rows_Some _ _ _ Hz') as [Hlen' Hlook'].
    apply list_eq. intros j. rewrite Hlook', Hlen, Hlook.
    case_decide; [|done]. destruct (x !! j) as [row|]; simpl; [|done].
    by rewrite zeros_like1_idemp.
  - exfalso. apply zero_rows_None in Hz'. rewrite Hlen in Hz'.
    apply zero_rows_None in Hz'. congruence.
Qed.

End player_reset_indices.

(** X7. The indices of the player's reset are Python indices.  For a
    non-empty list and state tensors of [n] rows, the reset raises an
    IndexError exactly when some index lies outside [-n, n), and then
    nothing is changed; otherwise row [j] of the last action, the recurrent
    state and the stochastic state is zeroed exactly when [j] or [j - n] is
    in the list (a negative index counts from the end, repeated indices are
    harmless), every other row is kept, and resetting the same environments
    again changes nothing. *)
Theorem init_states_python_indices :
  ∀ (self : dreamer_v1_agent.PlayerDV1.t) (idx : list Z) (n : nat),
    idx ≠ [] →
    length (dreamer_v1_agent.PlayerDV1.actions self) = n →
    length (dreamer_v1_agent.PlayerDV1.recurrent_state self) = n →
    length (dreamer_v1_agent.PlayerDV1.stochastic_state self) = n →
    (dreamer_v1_agent.PlayerDV1.init_states self (Some idx) = None
     ↔ Exists (λ i, ¬ (- Z.of_nat n ≤ i < Z.of_nat n)%Z) idx)
    ∧ ∀ self',
        dreamer_v1_agent.PlayerDV1.init_states self (Some idx) = Some self' →
        (∀ j,
           let reset (old new : tensor2) :=
             new !! j = if decide (Z.of_nat j ∈ idx ∨ (Z.of_nat j - Z.of_nat n)%Z ∈ idx)
                        then zeros_like1 <$> old !! j else old !! j in
           reset (dreamer_v1_agent.PlayerDV1.actions self)
                 (dreamer_v1_agent.PlayerDV1.actions self')
           ∧ reset (dreamer_v1_agent.PlayerDV1.recurrent_state self)
                   (dreamer_v1_agent.PlayerDV1.recurrent_state self')
           ∧ reset (dreamer_v1_agent.PlayerDV1.stochastic_state self)
                   (dreamer_v1_agent.PlayerDV1.stochastic_state self'))
        ∧ dreamer_v1_agent.PlayerDV1.init_states self' (Some idx) = Some self'.
Proof.
  intros self idx n Hne Ha Hr Hs.
  unfold dreamer_v1_agent.PlayerDV1.init_states.
  destruct idx as [|i0 idx]; [done|]. clear Hne.
  pose proof (zero_rows_None (dreamer_v1_agent.PlayerDV1.actions self) (i0 :: idx)) as Hna.
  pose proof (zero_rows_None (dreamer_v1_agent.PlayerDV1.recurrent_state self) (i0 :: idx))
    as Hnr.
  pose proof (zero_rows_None (dreamer_v1_agent.PlayerDV1.stochastic_state self) (i0 :: idx))
    as Hns.
  rewrite Ha in Hna. rewrite Hr in Hnr. rewrite Hs in Hns.
  destruct (dreamer_v1_agent.PlayerDV1.zero_rows (i0 :: idx)
              (dreamer_v1_agent.PlayerDV1.actions self)) as [a|] eqn:Hza; simpl.
  - destruct (dreamer_v1_agent.PlayerDV1.zero_rows (i0 :: idx)
                (dreamer_v1_agent.PlayerDV1.recurrent_state self)) as [r|] eqn:Hzr; simpl.
    + destruct (dreamer_v1_agent.PlayerDV1.zero_rows (i0 :: idx)
                  (dreamer_v1_agent.PlayerDV1.stochastic_state self)) as [s|] eqn:Hzs; simpl.
      * split; [split; [done|]; intros Hex; by apply Hna in Hex|].
        intros self' [= <-].
        destruct (zero_rows_Some _ _ _ Hza) as [_ Hja].
        destruct (zero_rows_Some _ _ _ Hzr) as [_ Hjr].
        destruct (zero_rows_Some _ _ _ Hzs) as [_ Hjs].
        rewrite Ha in Hja. rewrite Hr in Hjr. rewrite Hs in Hjs.
        split.
        -- intros j. specialize (Hja j). specialize (Hjr j). specialize (Hjs j).
           simpl. split_and!; [rewrite Hja|rewrite Hjr|rewrite Hjs];
             by repeat case_decide.
        -- simpl. rewrite (zero_rows_idemp _ _ _ Hza). simpl.
           rewrite (zero_rows_idemp _ _ _ Hzr). simpl.
           rewrite (zero_rows_idemp _ _ _ Hzs). simpl. done.
      * split; [|done]. split; [intros _; by apply Hns|done].
    + split; [|done]. split; [intros _; by apply Hnr|done].
  - split; [|done]. split; [intros _; by apply Hna|done].
Qed.

Lemma init_states_python_indices_witness :
  dreamer_v1_agent.PlayerDV1.init_states examples.player3 (Some [3; 0]%Z) = None
  ∧ ∃ self',
      dreamer_v1_agent.PlayerDV1.init_states examples.player3 (Some [-1; 0; -1]%Z)
      = Some self'
      ∧ dreamer_v1_agent.PlayerDV1.recurrent_state self' !! 2
        = zeros_like1 <$> dreamer_v1_agent.PlayerDV1.recurrent_state examples.player3 !! 2
      ∧ dreamer_v1_agent.PlayerDV1.recurrent_state self' !! 1
        = dreamer_v1_agent.PlayerDV1.recurrent_state examples.player3 !! 1
      ∧ dreamer_v1_agent.PlayerDV1.init_states self' (Some [-1; 0; -1]%Z) = Some self'.
Proof.
  split.
  - apply (init_states_python_indices examples.player3 [3; 0]%Z 3);
      [discriminate | reflexivity..|].
    apply Exists_cons_hd. lia.
  - destruct (dreamer_v1_agent.PlayerDV1.init_states examples.player3 (Some [-1; 0; -1]%Z))
      as [self'|] eqn:Hinit; [|vm_compute in Hinit; discriminate].
    exists self'. split; [done|].
    destruct (init_states_python_indices examples.player3 [-1; 0; -1]%Z 3)
      as [_ Hsome]; [discriminate | reflexivity..|].
    destruct (Hsome self' Hinit) as [Hrows Hidem].
    split_and!; [|exact (proj1 (proj2 (Hrows 1)))|exact Hidem].
    exact (proj1 (proj2 (Hrows 2))).
Defined.

(** ** The discount of behaviour learning *)

Section discount_facts.

(** A tensor of the shape of [shape] whose entries all equal [v]. *)
Local Abbreviation constant shape v d :=
  (same_shape2 d shape ∧ Forall (Forall (λ q, q == v)%Q) d).

Lemma mul2_constant (shape x y : tensor2) (a b : Q) :
  constant shape a x → constant shape b y → constant shape (a * b)%Q (mul2 x y).
Proof.
  intros [Hsx Hx] [Hsy Hy]. unfold mul2. revert y Hsy Hy Hx.
  induction Hsx as [|rx rs x shape Hr Hsx IH]; intros y Hsy Hy Hx.
  - split; constructor.
  - inversion Hsy as [|ry rs' y' shape' Hry Hsy']; subst.
    inversion Hx as [|? ? Hrx Hx']; subst. inversion Hy as [|? ? Hry' Hy']; subst.
    destruct (IH y' Hsy' Hy' Hx') as [IHs IHv]. simpl. split; constructor; try done.
    + unfold same_shape1 in *. rewrite length_zip_with. lia.
    + clear -Hrx Hry'. revert ry Hry'.
      induction Hrx as [|q rx Hq _ IHr]; intros ry Hry'; [constructor|].
      destruct Hry' as [|q' ry Hq' Hry']; [constructor|]. simpl.
      constructor; [by rewrite Hq, Hq' | by apply IHr].
Qed.

Lemma foldl_mul2_constant (shape : tensor2) (c : Q) (xs : tensor3) :
  Forall (λ x, constant shape c x) xs →
  ∀ acc v, constant shape v acc →
    constant shape (v * c ^ Z.of_nat (length xs))%Q (foldl mul2 acc xs).
Proof.
  induction 1 as [|x xs Hx _ IH]; intros acc v Hacc.
  - simpl. destruct Hacc as [Hs Hv]. split; [done|].
    eapply Forall_impl; [exact Hv|]. intros row Hrow. simpl in Hrow.
    eapply Forall_impl; [exact Hrow|]. intros q Hq. simpl in Hq. simpl.
    rewrite Hq. ring.
  - simpl foldl. destruct (IH (mul2 acc x) (v * c)%Q (mul2_constant _ _ _ _ _ Hacc Hx))
      as [Hs Hv].
    split; [done|].
    eapply Forall_impl; [exact Hv|]. intros row Hrow. simpl in Hrow.
    eapply Forall_impl; [exact Hrow|]. intros q Hq. simpl in Hq. cbv beta.
    rewrite Hq. change (length (x :: xs)) with (S (length xs)).
    rewrite Nat2Z.inj_succ. unfold Z.succ. rewrite Qpower_plus' by lia.
    change (c ^ 1)%Q with c. ring.
Qed.

Lemma ones_like2_constant (x shape : tensor2) :
  same_shape2 x shape → constant shape 1%Q (ones_like2 x).
Proof.
  intros Hs. split.
  - unfold ones_like2. apply Forall2_fmap_l. eapply Forall2_impl; [exact Hs|].
    intros r r' Hr. unfold compose, same_shape1, ones_like1 in *. by rewrite length_fmap.
  - unfold ones_like2. apply Forall_fmap, Forall_true. intros row. simpl.
    unfold ones_like1. apply Forall_fmap, Forall_true. intros q. simpl. reflexivity.
Qed.

Lemma scale2_ones_constant (c : Q) (x shape : tensor2) :
  same_shape2 x shape → constant shape c (scale2 c (ones_like2 x)).
Proof.
  intros Hs. induction Hs as [|r r' x shape Hr Hs [IHs IHv]]; [split; constructor|].
  split; simpl; constructor; try done.
  - unfold same_shape1, ones_like1 in *. by rewrite length_map, length_fmap.
  - clear. induction r as [|q r IH]; simpl; constructor; [ring | exact IH].
Qed.

(** A zero row of the accumulator stays zero under further products. *)
Lemma foldl_mul2_zero_row (xs : tensor3) :
  ∀ (acc : tensor2) b r row,
    acc !! b = Some r → Forall (λ q, q == 0)%Q r →
    foldl mul2 acc xs !! b = Some row → Forall (λ q, q == 0)%Q row.
Proof.
  induction xs as [|x xs IH]; intros acc b r row Hr Hzero Hrow; simpl in Hrow.
  - congruence.
  - unfold mul2 in Hrow at 2.
    destruct (zip_with (zip_with Qmult) acc x !! b) as [r'|] eqn:Hr'.
    + eapply (IH _ b r' row); [exact Hr'| |exact Hrow].
      apply lookup_zip_with_Some in Hr' as (ra & rx & -> & Ha & Hx).
      assert (ra = r) as -> by congruence. clear -Hzero. revert rx.
      induction Hzero as [|q r Hq _ IHr]; intros rx; [constructor|].
      destruct rx as [|qx rx]; [constructor|]. simpl.
      constructor; [rewrite Hq; ring | apply IHr].
    + exfalso. clear IH. revert Hrow Hr'. generalize (zip_with (zip_with Qmult) acc x).
      intros acc' Hrow Hnone.
      assert (length (foldl mul2 acc' xs) ≤ length acc') as Hle.
      { clear. revert acc'. induction xs as [|x' xs IH']; intros acc'; simpl; [lia|].
        etransitivity; [apply IH'|]. unfold mul2. rewrite length_zip_with. lia. }
      apply lookup_lt_Some in Hrow. apply lookup_ge_None in Hnone. lia.
Qed.

End discount_facts.

(** X8. The discount of behaviour learning in dreamer_v2.py.  Without a
    continue model (or with [use_continues] off) the continuation is [gamma]
    everywhere, so the discount at imagined step [t] is [gamma ^ t] at every
    entry, in the shape of the predicted rewards.  With the continue model
    the first continuation is the true [(1 - dones) * gamma] of the replayed
    step: a seed state that was terminal has discount 0 from step 1 on,
    whatever the continue model predicts. *)
Theorem discount_without_and_with_continue_model :
  (∀ args has_continue_model dones predicted_continues predicted_rewards r0 t,
     dreamer_v2.use_continues args && has_continue_model = false →
     predicted_rewards !! 0 = Some r0 →
     Forall (λ r, same_shape2 r r0) predicted_rewards →
     t < length predicted_rewards →
     ∃ d,
       dreamer_v2.train_discount
         (dreamer_v2.train_continues args has_continue_model dones predicted_continues
            predicted_rewards) !! t = Some d
       ∧ same_shape2 d r0
       ∧ Forall (Forall (λ q, q == dreamer_v2.gamma args ^ Z.of_nat t)%Q) d)
  ∧ (∀ args dones predicted_continues predicted_rewards t d b flags row,
       dreamer_v2.use_continues args = true →
       1 ≤ t →
       dreamer_v2.train_discount
         (dreamer_v2.train_continues args true dones predicted_continues
            predicted_rewards) !! t = Some d →
       concat dones !! b = Some flags →
       Forall (λ q, q == 1)%Q flags →
       d !! b = Some row →
       Forall (λ q, q == 0)%Q row).
Proof.
  split.
  - intros args has dones pc pr r0 t Hoff H0 Hrect Ht.
    unfold dreamer_v2.train_continues. rewrite Hoff.
    set (continues := map (scale2 (dreamer_v2.gamma args)) (ones_like3 pr)).
    assert (Forall (λ x, same_shape2 x r0
                         ∧ Forall (Forall (λ q, q == dreamer_v2.gamma args)%Q) x) continues)
      as Hconst.
    { unfold continues, ones_like3. apply Forall_forall. intros x Hx.
      apply list_elem_of_fmap in Hx as (y & -> & Hy).
      apply list_elem_of_fmap in Hy as (z & -> & Hz).
      apply scale2_ones_constant. rewrite Forall_forall in Hrect. by apply Hrect. }
    assert (length continues = length pr) as Hlen.
    { unfold continues, ones_like3. by rewrite length_map, length_fmap. }
    assert (continues !! 0 = Some (scale2 (dreamer_v2.gamma args) (ones_like2 r0))) as Hc0.
    { unfold continues, ones_like3.
      rewrite list_lookup_fmap, list_lookup_fmap, H0. done. }
    unfold dreamer_v2.train_discount.
    rewrite (discount_lookup 1 continues _ t Hc0) by lia.
    eexists. split; [done|].
    pose proof (foldl_mul2_constant r0 (dreamer_v2.gamma args) (take t continues)) as Hfold.
    destruct (Hfold (Forall_take _ _ _ Hconst)
                (ones_like2 (scale2 (dreamer_v2.gamma args) (ones_like2 r0))) 1%Q)
      as [Hs Hv].
    { apply ones_like2_constant.
      destruct (scale2_ones_constant (dreamer_v2.gamma args) r0 r0) as [Hs _]; [|done].
      apply Forall2_same_length_lookup. split; [done|]. intros i x y Hx Hy.
      unfold same_shape1. congruence. }
    split; [done|].
    rewrite length_take, Nat.min_l in Hv by lia.
    eapply Forall_impl; [exact Hv|]. intros row Hrow. simpl in Hrow.
    eapply Forall_impl; [exact Hrow|]. intros q Hq. simpl in Hq. cbv beta.
    rewrite Hq. ring.
  - intros args dones pc pr t d b flags row Hon Ht Hd Hflags Hone Hrow.
    unfold dreamer_v2.train_continues in Hd. rewrite Hon in Hd.
    cbn [andb] in Hd. cbv zeta in Hd.
    set (true_done := scale2 (dreamer_v2.gamma args)
                        (map (map (λ d, 1 - d)%Q) (concat dones))) in *.
    change ([true_done] ++ from 1 pc) with (true_done :: from 1 pc) in Hd.
    set (continues := true_done :: from 1 pc) in *.
    assert (t < length continues) as Hlt.
    { apply lookup_lt_Some in Hd.
      unfold dreamer_v2.train_discount in Hd. rewrite length_cumprod, length_app in Hd.
      unfold ones_like3, upto, but_last in Hd.
      rewrite length_fmap, !length_take in Hd. simpl in *. lia. }
    unfold dreamer_v2.train_discount in Hd.
    rewrite (discount_lookup 1 continues true_done t eq_refl) in Hd by lia.
    injection Hd as <-.
    destruct t as [|t]; [lia|]. simpl in Hrow.
    assert (true_done !! b
            = Some (map (Qmult (dreamer_v2.gamma args)) (map (λ d, 1 - d)%Q flags)))
      as Htd.
    { unfold true_done, scale2. rewrite !list_lookup_fmap, Hflags. done. }
    assert (is_Some (mul2 (ones_like2 true_done) true_done !! b)) as [r Hr].
    { apply lookup_lt_is_Some. unfold mul2, ones_like2.
      rewrite length_zip_with, length_fmap. apply lookup_lt_Some in Htd. lia. }
    eapply (foldl_mul2_zero_row _ _ b r row); [exact Hr| |exact Hrow].
    unfold mul2 in Hr. apply lookup_zip_with_Some in Hr as (ro & rt & -> & Ho & Hrt).
    rewrite Htd in Hrt. injection Hrt as <-.
    clear -Hone. revert ro. induction Hone as [|q flags Hq _ IH]; intros ro.
    + destruct ro; constructor.
    + destruct ro as [|o ro]; [constructor|]. simpl. constructor; [|apply IH].
      rewrite Hq. ring.
Qed.

Lemma discount_without_and_with_continue_model_witness :
  (∃ d,
     dreamer_v2.train_discount
       (dreamer_v2.train_continues (examples.args_h3 1%Q) false [] []
          (replicate 4 [[1]; [2]]%Q)) !! 2 = Some d
     ∧ same_shape2 d [[1]; [2]]%Q
     ∧ Forall (Forall (λ q, q == 0.99 ^ 2)%Q) d)
  ∧ ∃ d row,
      dreamer_v2.train_discount
        (dreamer_v2.train_continues more_examples.args_continues true
           more_examples.dones_second more_examples.predicted_continues4 []) !! 3
      = Some d
      ∧ d !! 1 = Some row
      ∧ Forall (λ q, q == 0)%Q row.
Proof.
  split.
  - apply (proj1 discount_without_and_with_continue_model (examples.args_h3 1%Q) false
             [] [] (replicate 4 [[1]; [2]]%Q) [[1]; [2]]%Q 2).
    + reflexivity.
    + reflexivity.
    + repeat constructor.
    + simpl. lia.
  - eexists. eexists. split; [vm_compute; reflexivity|]. split; [reflexivity|].
    eapply (proj2 discount_without_and_with_continue_model more_examples.args_continues
             more_examples.dones_second more_examples.predicted_continues4 [] 3
             _ 1 [1%Q] _ eq_refl).
    + lia.
    + vm_compute. reflexivity.
    + reflexivity.
    + repeat constructor.
    + reflexivity.
Defined.

(** ** The observation keys *)

Section observation_keys_facts.
Import dreamer_v2_main.

(** The key a space contributes to a selection, if any. *)
Local Abbreviation chosen rank wanted :=
  (λ kv : string * list nat,
     if requested wanted kv.1 then
       if decide (length kv.2 = rank) then Some kv.1 else None
     else None).

Local Abbreviation warned rank warning wanted :=
  (λ kv : string * list nat,
     if requested wanted kv.1 then
       if decide (length kv.2 = rank) then None else Some (warning kv.1 kv.2)
     else None).

Lemma select_keys_omap (rank : nat) (warning : string → list nat → message)
    (wanted : option (list string)) (spaces : list (string * list nat)) :
  select_keys rank warning wanted spaces
  = (omap (chosen rank wanted) spaces, omap (warned rank warning wanted) spaces).
Proof.
  unfold select_keys.
  enough (∀ acc : list string * list message,
            foldl (λ acc kv,
                     if requested wanted kv.1 then
                       if decide (length kv.2 = rank) then (acc.1 ++ [kv.1], acc.2)
                       else (acc.1, acc.2 ++ [warning kv.1 kv.2])
                     else acc) acc spaces
            = (acc.1 ++ omap (chosen rank wanted) spaces,
               acc.2 ++ omap (warned rank warning wanted) spaces)) as H.
  { by rewrite H. }
  induction spaces as [|kv spaces IH]; intros [ks ms]; simpl.
  - by rewrite !app_nil_r.
  - rewrite IH. destruct (requested wanted kv.1); [|done].
    case_decide; simpl; by rewrite <- app_assoc.
Qed.

Lemma chosen_elem (rank : nat) (wanted : option (list string))
    (spaces : list (string * list nat)) (k : string) :
  k ∈ omap (chosen rank wanted) spaces
  ↔ ∃ shape, (k, shape) ∈ spaces ∧ requested wanted k = true ∧ length shape = rank.
Proof.
  rewrite list_elem_of_omap. split.
  - intros ([k' shape] & Hin & Hc). simpl in Hc.
    destruct (requested wanted k') eqn:Hreq; [|done].
    case_decide; [|done]. injection Hc as ->. by exists shape.
  - intros (shape & Hin & Hreq & Hlen). exists (k, shape). split; [done|].
    simpl. rewrite Hreq. by rewrite decide_True.
Qed.

Lemma chosen_sublist (rank : nat) (wanted : option (list string))
    (spaces : list (string * list nat)) :
  sublist (omap (chosen rank wanted) spaces) spaces.*1.
Proof.
  induction spaces as [|kv spaces IH]; simpl; [constructor|].
  destruct (requested wanted kv.1); [|by constructor].
  case_decide; by constructor.
Qed.

Lemma requested_elem (wanted : option (list string)) (k : string) :
  requested wanted k = true ↔ ∃ l, wanted = Some l ∧ k ∈ l.
Proof.
  destruct wanted as [[|k' l]|]; simpl.
  - split; [done|]. intros (l & [= <-] & Hin). by apply elem_of_nil in Hin.
  - rewrite bool_decide_eq_true. split; [by eexists|]. by intros (? & [= <-] & ?).
  - split; [done|]. by intros (l & ? & _).
Qed.

End observation_keys_facts.

(** X9. The selection of the observation keys in [main] of dreamer_v2.py,
    for a Dict observation space with distinct keys.  [cnn_keys] holds
    exactly the keys of the space that are named in [args.cnn_keys] and have
    a shape of rank 3, [mlp_keys] exactly those named in [args.mlp_keys]
    with a shape of rank 1, both in the order of the space and without
    repetition; no key is in both lists and [obs_keys] is the first list
    followed by the second.  A named key that the space does not have is
    dropped without a message.  The RuntimeError for missing keys is raised
    exactly when both lists are empty; any other observation space raises
    at once. *)
Theorem observation_keys_selection :
  ∀ (args_cnn_keys args_mlp_keys : option (list string))
    (spaces : list (string * list nat)),
    NoDup spaces.*1 →
    let result := dreamer_v2_main.observation_keys args_cnn_keys args_mlp_keys
                    (dreamer_v2_main.Dict spaces) in
    let is_cnn k := ∃ l shape, args_cnn_keys = Some l ∧ k ∈ l
                               ∧ (k, shape) ∈ spaces ∧ length shape = 3 in
    let is_mlp k := ∃ l shape, args_mlp_keys = Some l ∧ k ∈ l
                               ∧ (k, shape) ∈ spaces ∧ length shape = 1 in
    (result.2 = dreamer_v2_main.RaisedRuntimeError dreamer_v2_main.NoKeysSpecified
     ↔ ∀ k, ¬ is_cnn k ∧ ¬ is_mlp k)
    ∧ (∀ cnn_keys mlp_keys obs_keys,
         result.2 = dreamer_v2_main.Keys cnn_keys mlp_keys obs_keys →
         obs_keys = cnn_keys ++ mlp_keys
         ∧ obs_keys ≠ []
         ∧ NoDup obs_keys
         ∧ sublist cnn_keys spaces.*1
         ∧ sublist mlp_keys spaces.*1
         ∧ (∀ k, k ∈ cnn_keys ↔ is_cnn k)
         ∧ (∀ k, k ∈ mlp_keys ↔ is_mlp k)
         ∧ (∀ k shape, dreamer_v2_main.NotAnImage k shape ∈ result.1
                       ∨ dreamer_v2_main.NotAVector k shape ∈ result.1 →
                       (k, shape) ∈ spaces))
    ∧ (dreamer_v2_main.observation_keys args_cnn_keys args_mlp_keys
         dreamer_v2_main.NotDict).2
      = dreamer_v2_main.RaisedRuntimeError dreamer_v2_main.UnexpectedObservationType.
Proof.
  intros wc wm spaces Hnodup result is_cnn is_mlp.
  unfold result, dreamer_v2_main.observation_keys.
  rewrite !select_keys_omap. cbv zeta. simpl fst. simpl snd.
  set (cnn := omap _ spaces). set (mlp := omap _ spaces).
  assert (∀ k, k ∈ cnn ↔ is_cnn k) as Hcnn.
  { intros k. unfold cnn. rewrite chosen_elem. unfold is_cnn. split.
    - intros (shape & Hin & Hreq & Hlen).
      apply requested_elem in Hreq as (l & Hl & Hk). by exists l, shape.
    - intros (l & shape & Hl & Hk & Hin & Hlen). exists shape.
      split_and!; [done| |done]. apply requested_elem. by exists l. }
  assert (∀ k, k ∈ mlp ↔ is_mlp k) as Hmlp.
  { intros k. unfold mlp. rewrite chosen_elem. unfold is_mlp. split.
    - intros (shape & Hin & Hreq & Hlen).
      apply requested_elem in Hreq as (l & Hl & Hk). by exists l, shape.
    - intros (l & shape & Hl & Hk & Hin & Hlen). exists shape.
      split_and!; [done| |done]. apply requested_elem. by exists l. }
  split_and!; [| |done].
  - case_decide as Hempty; simpl.
    + split; [|done]. intros _ k. destruct Hempty as [Hc Hm].
      rewrite <- Hcnn, <- Hmlp, Hc, Hm. split; apply not_elem_of_nil.
    + split; [done|]. intros Hnone. exfalso. apply Hempty.
      split; apply elem_of_nil_inv; intros k Hk.
      * by apply Hcnn, Hnone in Hk.
      * by apply Hmlp, Hnone in Hk.
  - intros cnn_keys mlp_keys obs_keys. case_decide as Hempty; simpl; [done|].
    intros [= <- <- <-].
    assert (sublist cnn spaces.*1) as Hsc by apply chosen_sublist.
    assert (sublist mlp spaces.*1) as Hsm by apply chosen_sublist.
    split_and!; try done.
    + intros Happ. apply app_eq_nil in Happ. by apply Hempty.
    + apply NoDup_app. split_and!.
      * by eapply sublist_NoDup.
      * intros k Hc Hm. apply Hcnn in Hc as (l & shape & _ & _ & Hin & Hlen).
        apply Hmlp in Hm as (l' & shape' & _ & _ & Hin' & Hlen').
        assert (shape = shape') as ->; [|lia].
        apply list_elem_of_lookup in Hin as [i Hi].
        apply list_elem_of_lookup in Hin' as [j Hj].
        assert (i = j) as ->; [|congruence].
        eapply NoDup_lookup; [exact Hnodup| |]; rewrite list_lookup_fmap.
        -- by rewrite Hi.
        -- by rewrite Hj.
      * by eapply sublist_NoDup.
    + intros k shape Hmsg.
      assert (dreamer_v2_main.NotAnImage k shape ∈ omap
                (λ kv : string * list nat,
                   if dreamer_v2_main.requested wc kv.1 then
                     if decide (length kv.2 = 3) then None
                     else Some (dreamer_v2_main.NotAnImage kv.1 kv.2)
                   else None) spaces
              ∨ dreamer_v2_main.NotAVector k shape ∈ omap
                  (λ kv : string * list nat,
                     if dreamer_v2_main.requested wm kv.1 then
                       if decide (length kv.2 = 1) then None
                       else Some (dreamer_v2_main.NotAVector kv.1 kv.2)
                     else None) spaces) as [Hin|Hin].
      { destruct Hmsg as [Hmsg|Hmsg]; rewrite !elem_of_app in Hmsg;
          destruct Hmsg as [[Hmsg|Hmsg]|Hmsg]; try (by left); try (by right).
        - apply list_elem_of_omap in Hmsg as (kv & _ & Hkv).
          destruct (dreamer_v2_main.requested wm kv.1); [|done]. by case_decide.
        - apply elem_of_cons in Hmsg as [?|Hmsg]; [done|].
          apply elem_of_cons in Hmsg as [?|Hmsg]; [done|]. by apply elem_of_nil in Hmsg.
        - apply list_elem_of_omap in Hmsg as (kv & _ & Hkv).
          destruct (dreamer_v2_main.requested wc kv.1); [|done]. by case_decide.
        - apply elem_of_cons in Hmsg as [?|Hmsg]; [done|].
          apply elem_of_cons in Hmsg as [?|Hmsg]; [done|]. by apply elem_of_nil in Hmsg. }
      * apply list_elem_of_omap in Hin as ([k' shape'] & Hin & Hkv). simpl in Hkv.
        destruct (dreamer_v2_main.requested wc k'); [|done].
        case_decide; [done|]. by injection Hkv as -> ->.
      * apply list_elem_of_omap in Hin as ([k' shape'] & Hin & Hkv). simpl in Hkv.
        destruct (dreamer_v2_main.requested wm k'); [|done].
        case_decide; [done|]. by injection Hkv as -> ->.
Qed.

Lemma observation_keys_selection_witness :
  let result :=
    dreamer_v2_main.observation_keys
      (Some ["rgb"; "depth"; "missing"]%string) (Some ["state"]%string)
      (dreamer_v2_main.Dict more_examples.spaces3) in
  result.2 = dreamer_v2_main.Keys ["rgb"]%string ["state"]%string ["rgb"; "state"]%string
  ∧ NoDup ["rgb"; "state"]%string
  ∧ result.1 = [dreamer_v2_main.NotAnImage "depth" [64; 64];
                dreamer_v2_main.CNNKeys ["rgb"]%string;
                dreamer_v2_main.MLPKeys ["state"]%string].
Proof.
  destruct (observation_keys_selection
              (Some ["rgb"; "depth"; "missing"]%string) (Some ["state"]%string)
              more_examples.spaces3) as (_ & Hkeys & _).
  { apply (bool_decide_unpack _). vm_compute. exact I. }
  split; [reflexivity|]. split; [|reflexivity].
  destruct (Hkeys ["rgb"]%string ["state"]%string ["rgb"; "state"]%string eq_refl)
    as (_ & _ & Hnodup & _).
  exact Hnodup.
Defined.

(** ** The training schedule *)

Section schedule_facts.
Import dreamer_v2_main.
Local Open Scope Z_scope.

Variables (args : ScheduleArgs) (g : Globals).
Hypothesis single_global_step_nonzero : single_global_step g ≠ 0.
Hypothesis freq_nonzero : critic_target_network_update_freq args ≠ 0.

Local Abbreviation freq := (critic_target_network_update_freq args).
Local Abbreviation period := (Z.max (train_every args / single_global_step g) 1).
Local Abbreviation samples_at x :=
  (if decide (x = learning_starts0 g) then pretrain_steps args else gradient_steps args).

(** The next global step at which the training condition holds, from the
    step about to run and the counter before it. *)
Local Abbreviation next_training x c := (Z.max (Z.max x (learning_starts0 g)) (x + c - 1)).

(** What a list of events adds to the log when the count of gradient
    steps goes from [a] to [b]. *)
Local Abbreviation gradient_events new a b :=
  ((∀ j, Train j ∈ new ↔ a ≤ j < b)
   ∧ (∀ j, UpdateTarget j ∈ new ↔ a ≤ j < b ∧ j mod freq = 0)).

Lemma train_batches_spec (n : nat) :
  ∀ gs log, ∃ new,
    train_batches freq n gs log = Some (gs + Z.of_nat n, log ++ new)
    ∧ gradient_events new gs (gs + Z.of_nat n)
    ∧ (∀ x m, Sample x m ∉ new)
    ∧ (∀ d, DecayExploration d ∉ new).
Proof.
  induction n as [|n IH]; intros gs log.
  - exists []. simpl. rewrite app_nil_r, Z.add_0_r. split; [done|].
    split_and!; intros; rewrite ?elem_of_nil; try lia; apply not_elem_of_nil.
  - simpl train_batches. unfold pymod. rewrite decide_False by done. simpl.
    set (log1 := if decide (gs mod freq = 0) then log ++ [UpdateTarget gs] else log).
    destruct (IH (gs + 1) (log1 ++ [Train gs])) as (new & Heq & [Htrain Hupd] & Hs & Hd).
    exists ((if decide (gs mod freq = 0) then [UpdateTarget gs] else []) ++ [Train gs] ++ new).
    split.
    { rewrite Heq. f_equal. f_equal; [lia|]. unfold log1.
      case_decide; simpl; by rewrite <- !app_assoc. }
    split_and!.
    + intros j. rewrite !elem_of_app, list_elem_of_singleton, Htrain.
      case_decide; rewrite ?list_elem_of_singleton, ?elem_of_nil; split.
      * intros [?|[[= ->]|?]]; [done|lia|lia].
      * intros Hj. destruct (decide (j = gs)) as [->|]; [by right; left|].
        right; right. lia.
      * intros [?|[[= ->]|?]]; [done|lia|lia].
      * intros Hj. destruct (decide (j = gs)) as [->|]; [by right; left|].
        right; right. lia.
    + intros j. rewrite !elem_of_app, list_elem_of_singleton, Hupd.
      case_decide as Hmod; rewrite ?list_elem_of_singleton, ?elem_of_nil; split.
      * intros [[= ->]|[?|?]]; [split; [lia|done]|done|]. split; [lia|tauto].
      * intros [Hj Hjm]. destruct (decide (j = gs)) as [->|]; [by left|].
        right; right. split; [lia|done].
      * intros [?|[?|?]]; [done..|]. split; [lia|tauto].
      * intros [Hj Hjm]. destruct (decide (j = gs)) as [->|]; [done|].
        right; right. split; [lia|done].
    + intros x m. rewrite !elem_of_app, list_elem_of_singleton.
      intros [Hin|[?|Hin]]; [|done|by eapply Hs].
      case_decide; [by apply list_elem_of_singleton in Hin|by apply elem_of_nil in Hin].
    + intros d. rewrite !elem_of_app, list_elem_of_singleton.
      intros [Hin|[?|Hin]]; [|done|by eapply Hd].
      case_decide; [by apply list_elem_of_singleton in Hin|by apply elem_of_nil in Hin].
Qed.

Lemma schedule_from_spec (count : nat) :
  ∀ x0 st, ∃ st' new,
    schedule_from args g count x0 st = Some st'
    ∧ events st' = (events st ++ new)%list
    ∧ gradient_steps_taken st ≤ gradient_steps_taken st'
    ∧ gradient_events new (gradient_steps_taken st) (gradient_steps_taken st')
    ∧ (∀ x m, Sample x m ∈ new
              ↔ x0 ≤ x < x0 + Z.of_nat count
                ∧ (∃ k : nat,
                     x = next_training x0 (step_before_training st) + Z.of_nat k * period)
                ∧ m = samples_at x).
Proof.
  induction count as [|count IH]; intros x0 st.
  - exists st, []. simpl. rewrite app_nil_r.
    split_and!; try done; try lia; try (intros j; rewrite elem_of_nil; lia).
    intros x m. rewrite elem_of_nil. lia.
  - simpl schedule_from. unfold schedule_step.
    destruct (decide (learning_starts0 g ≤ x0 ∧ step_before_training st - 1 ≤ 0))
      as [[HL Hc]|Hno].
    + destruct (train_batches_spec (samples_at x0) (gradient_steps_taken st)
                  (events st ++ [Sample x0 (samples_at x0)]))
        as (new1 & Heq1 & [Htrain1 Hupd1] & Hs1 & Hd1).
      rewrite Heq1. simpl. unfold floordiv.
      rewrite (decide_False (P := single_global_step g = 0)) by done. simpl.
      set (st1 := if expl_decay args then _ else _).
      assert (step_before_training st1 = train_every args / single_global_step g) as Hc1.
      { unfold st1. by destruct (expl_decay args). }
      assert (gradient_steps_taken st1
              = gradient_steps_taken st + Z.of_nat (samples_at x0)) as Hg1.
      { unfold st1. by destruct (expl_decay args). }
      assert (∃ decay, events st1
                       = (events st ++ [Sample x0 (samples_at x0)] ++ new1 ++ decay)%list
                       ∧ (∀ x m, Sample x m ∉ decay)
                       ∧ (∀ j, Train j ∉ decay) ∧ (∀ j, UpdateTarget j ∉ decay))
        as (decay & Hev1 & Hds & Hdt & Hdu).
      { unfold st1. destruct (expl_decay args); simpl.
        - eexists [_]. rewrite <- !app_assoc. split; [done|].
          split_and!; intros; by rewrite list_elem_of_singleton.
        - exists []. rewrite app_nil_r, <- !app_assoc. split; [done|].
          split_and!; intros; apply not_elem_of_nil. }
      destruct (IH (x0 + 1) st1) as (st' & new & Heq & Hev & Hle & [Htrain Hupd] & Hs).
      exists st', ([Sample x0 (samples_at x0)] ++ new1 ++ decay ++ new)%list.
      split; [done|]. split; [by rewrite Hev, Hev1, <- !app_assoc|].
      split; [lia|]. split_and!.
      * intros j. rewrite !elem_of_app, list_elem_of_singleton, Htrain1, Htrain, Hg1.
        split; [intros [?|[?|[?|?]]]; try done; try lia; by apply Hdt in H|].
        intros Hj. destruct (decide (j < gradient_steps_taken st + Z.of_nat (samples_at x0)));
          [right; left; lia | right; right; right; lia].
      * intros j. rewrite !elem_of_app, list_elem_of_singleton, Hupd1, Hupd, Hg1.
        split; [intros [?|[?|[?|?]]]; try done; try (split; [lia|tauto]);
                by apply Hdu in H|].
        intros [Hj Hm].
        destruct (decide (j < gradient_steps_taken st + Z.of_nat (samples_at x0)));
          [right; left | right; right; right]; (split; [lia|done]).
      * intros x m. rewrite !elem_of_app, list_elem_of_singleton, Hs, Hc1. split.
        -- intros [[= -> ->]|[Hin|[Hin|(Hx & [k Hk] & Hm)]]].
           ++ split_and!; [lia..| |done]. exists 0%nat. lia.
           ++ by apply Hs1 in Hin.
           ++ by apply Hds in Hin.
           ++ split_and!; [lia..| |done]. exists (S k). lia.
        -- intros (Hx & [k Hk] & Hm). destruct k as [|k].
           ++ left. assert (x = x0) as -> by lia. by subst m.
           ++ right; right; right. split_and!; [nia|lia| |done]. exists k. lia.
    + destruct (IH (x0 + 1)
                  {| step_before_training := step_before_training st - 1;
                     gradient_steps_taken := gradient_steps_taken st;
                     expl_decay_steps := expl_decay_steps st;
                     events := events st |})
        as (st' & new & Heq & Hev & Hle & Hgrad & Hs).
      simpl in *. exists st', new. split_and!; try done; try tauto.
      intros x m. rewrite Hs. split.
      * intros (Hx & [k Hk] & Hm). split_and!; [lia..| |done]. exists k. lia.
      * intros (Hx & [k Hk] & Hm). split_and!; [nia|lia| |done]. exists k. lia.
Qed.

(** The events of [m] batches from the count [c] of gradient steps on, of
    the exploration decay, of a training iteration at the global step [x],
    and of the training iterations at the global steps [xs]. *)
Local Abbreviation batch c m :=
  (concat ((λ j, (if decide (j mod freq = 0) then [UpdateTarget j] else []) ++ [Train j])
             <$> seqZ c (Z.of_nat m))).
Local Abbreviation decay e := (if expl_decay args then [DecayExploration (e + 1)] else []).
Local Abbreviation block x c e :=
  ([Sample x%Z (samples_at x%Z)] ++ batch c (samples_at x%Z) ++ decay e).
Local Abbreviation total xs := (sum_list ((λ x, samples_at x) <$> xs)).
Local Abbreviation blocks xs c e :=
  (concat (imap (λ (k : nat) x,
                   block x (c + Z.of_nat (total (take k xs))) (e + Z.of_nat k))
             xs)).

Lemma train_batches_log (n : nat) :
  ∀ gs log, train_batches freq n gs log = Some (gs + Z.of_nat n, log ++ batch gs n).
Proof.
  induction n as [|n IH]; intros gs log.
  - simpl. by rewrite app_nil_r, Z.add_0_r.
  - simpl train_batches. unfold pymod. rewrite decide_False by done. simpl.
    rewrite IH. f_equal. f_equal; [lia|].
    rewrite (seqZ_cons gs (Z.of_nat (S n))) by lia.
    replace (Z.pred (Z.of_nat (S n))) with (Z.of_nat n) by lia.
    replace (Z.succ gs) with (gs + 1) by lia.
    rewrite fmap_cons, concat_cons.
    case_decide; simpl; by rewrite <- !app_assoc.
Qed.

Lemma blocks_cons x xs c e :
  blocks (x :: xs) c e = block x c e ++ blocks xs (c + Z.of_nat (samples_at x)) (e + 1).
Proof.
  cbn [imap concat take fmap list_fmap sum_list foldr].
  rewrite !Z.add_0_r. f_equal. f_equal. apply imap_ext. intros k y _.
  cbn [compose take fmap list_fmap sum_list]. simpl sum_list.
  assert (∀ a b : nat, c + Z.of_nat (id a + b) = c + Z.of_nat a + Z.of_nat b) as ->
    by (intros a b; unfold id; lia).
  by replace (e + Z.of_nat (S k)) with (e + 1 + Z.of_nat k) by lia.
Qed.

Lemma schedule_from_log (count : nat) :
  ∀ x0 st, ∃ st' (K : nat),
    schedule_from args g count x0 st = Some st'
    ∧ (∀ k : nat, (k < K)%nat
                  ↔ next_training x0 (step_before_training st) + Z.of_nat k * period
                    < x0 + Z.of_nat count)
    ∧ events st'
      = events st
        ++ blocks ((λ k : nat,
                      next_training x0 (step_before_training st) + Z.of_nat k * period)
                   <$> seq 0 K)
             (gradient_steps_taken st) (expl_decay_steps st)
    ∧ gradient_steps_taken st'
      = gradient_steps_taken st
        + Z.of_nat (total ((λ k : nat,
                              next_training x0 (step_before_training st)
                              + Z.of_nat k * period) <$> seq 0 K)).
Proof.
  induction count as [|count IH]; intros x0 st.
  - exists st, 0%nat. simpl. rewrite app_nil_r. split_and!; [done| |done|lia].
    intros k. split; [lia|]. nia.
  - simpl schedule_from. unfold schedule_step.
    destruct (decide (learning_starts0 g ≤ x0 ∧ step_before_training st - 1 ≤ 0))
      as [[HL Hc]|Hno].
    + rewrite train_batches_log. simpl. unfold floordiv.
      rewrite (decide_False (P := single_global_step g = 0)) by done. simpl.
      set (st1 := if expl_decay args then _ else _).
      assert (step_before_training st1 = train_every args / single_global_step g) as Hc1.
      { unfold st1. by destruct (expl_decay args). }
      assert (gradient_steps_taken st1
              = gradient_steps_taken st + Z.of_nat (samples_at x0)) as Hg1.
      { unfold st1. by destruct (expl_decay args). }
      assert (events st1
              = events st
                ++ block x0 (gradient_steps_taken st) (expl_decay_steps st)) as Hev1.
      { unfold st1. destruct (expl_decay args); simpl; by rewrite <- ?app_assoc, ?app_nil_r. }
      assert (blocks ((λ k : nat,
                         next_training (x0 + 1) (step_before_training st1)
                         + Z.of_nat k * period) <$> seq 0 0)
                (gradient_steps_taken st1) (expl_decay_steps st1) = []) as _ by done.
      assert (∀ xs, blocks xs (gradient_steps_taken st1) (expl_decay_steps st1)
                    = blocks xs (gradient_steps_taken st + Z.of_nat (samples_at x0))
                        (expl_decay_steps st + 1)) as Hblocks.
      { intros xs. f_equal. apply imap_ext. intros k y _. rewrite Hg1.
        unfold st1. destruct (expl_decay args); [done|]. done. }
      destruct (IH (x0 + 1) st1) as (st' & K & Heq & HK & Hev & Hgs).
      rewrite Hc1 in HK, Hev, Hgs.
      assert (next_training x0 (step_before_training st) = x0) as Hn by lia.
      assert (next_training (x0 + 1) (train_every args / single_global_step g)
              = x0 + period) as Hn1 by lia.
      rewrite Hn1 in HK, Hev, Hgs. rewrite Hn.
      assert ((λ k : nat, x0 + Z.of_nat k * period) <$> seq 0 (S K)
              = x0 :: ((λ k : nat, x0 + period + Z.of_nat k * period) <$> seq 0 K)) as Hxs.
      { cbn [seq fmap list_fmap]. f_equal; [lia|]. rewrite <- fmap_S_seq.
        rewrite <- list_fmap_compose. apply list_fmap_ext. intros _ k _. simpl. lia. }
      exists st', (S K). split; [exact Heq|]. split_and!.
      * intros k. destruct k as [|k].
        -- split; [lia|]. lia.
        -- rewrite <- Nat.succ_lt_mono, HK. lia.
      * rewrite Hev, Hev1, Hxs, Hblocks.
        etransitivity;
          [|apply (f_equal (app (events st))); symmetry;
            exact (blocks_cons x0
                     ((λ k : nat, x0 + period + Z.of_nat k * period) <$> seq 0 K)
                     (gradient_steps_taken st) (expl_decay_steps st))].
        by rewrite <- !app_assoc.
      * rewrite Hgs, Hg1, Hxs. cbn [fmap list_fmap sum_list]. simpl sum_list.
        unfold id. lia.
    + destruct (IH (x0 + 1)
                  {| step_before_training := step_before_training st - 1;
                     gradient_steps_taken := gradient_steps_taken st;
                     expl_decay_steps := expl_decay_steps st;
                     events := events st |})
        as (st' & K & Heq & HK & Hev & Hgs).
      cbn [step_before_training gradient_steps_taken expl_decay_steps events] in *.
      assert (next_training (x0 + 1) (step_before_training st - 1)
              = next_training x0 (step_before_training st)) as Hn by lia.
      rewrite Hn in HK, Hev, Hgs.
      exists st', K. split_and!; [done| |done|done].
      intros k. rewrite HK. lia.
Qed.

End schedule_facts.

(** X10. The training schedule of the main loop of dreamer_v2.py, for a
    non-zero [single_global_step] and target-update frequency.  The loop
    runs to its end.  Training happens exactly at the global steps
    [first + k * period] up to [num_updates], where [first] is the largest
    of [start_step], [learning_starts] and
    [start_step + step_before_training - 1], and [period] is
    [train_every // single_global_step], at least 1.  The log of the run is
    exactly, for each of these steps in turn: the sampling of
    [pretrain_steps] batches if the step equals [learning_starts] and of
    [gradient_steps] batches otherwise; then, for every sampled batch, one
    call of [train], the calls being numbered consecutively from 0 over the
    whole run, preceded by the refresh of the target critic when the number
    is a multiple of the update frequency; then the decay of the
    exploration amount if it is enabled.  So the pretraining happens only
    if [first] is [learning_starts], and the count of gradient steps at the
    end is the number of batches sampled. *)
Theorem training_steps_are_periodic :
  ∀ (args : dreamer_v2_main.ScheduleArgs) (g : dreamer_v2_main.Globals),
    dreamer_v2_main.single_global_step g ≠ 0%Z →
    dreamer_v2_main.critic_target_network_update_freq args ≠ 0%Z →
    let period :=
      Z.max (dreamer_v2_main.train_every args / dreamer_v2_main.single_global_step g) 1 in
    let first :=
      Z.max (Z.max (dreamer_v2_main.start_step g) (dreamer_v2_main.learning_starts0 g))
            (dreamer_v2_main.start_step g + dreamer_v2_main.step_before_training0 g - 1) in
    let samples (x : Z) :=
      if decide (x = dreamer_v2_main.learning_starts0 g)
      then dreamer_v2_main.pretrain_steps args
      else dreamer_v2_main.gradient_steps args in
    let batch (c : Z) (m : nat) :=
      concat ((λ j : Z,
                 (if decide (j mod dreamer_v2_main.critic_target_network_update_freq args
                             = 0)%Z
                  then [dreamer_v2_main.UpdateTarget j] else [])
                 ++ [dreamer_v2_main.Train j])
              <$> seqZ c (Z.of_nat m)) in
    let decay (k : nat) :=
      if dreamer_v2_main.expl_decay args
      then [dreamer_v2_main.DecayExploration
              (dreamer_v2_main.expl_decay_steps0 g + Z.of_nat k + 1)]
      else [] in
    ∃ final (K : nat),
      dreamer_v2_main.schedule args g = Some final
      ∧ (∀ k : nat, k < K
                    ↔ (first + Z.of_nat k * period ≤ dreamer_v2_main.num_updates g)%Z)
      ∧ (let steps := (λ k : nat, (first + Z.of_nat k * period)%Z) <$> seq 0 K in
         dreamer_v2_main.events final
         = concat (imap (λ (k : nat) (x : Z),
                           [dreamer_v2_main.Sample x (samples x)]
                           ++ batch (Z.of_nat (sum_list (samples <$> take k steps)))
                                (samples x)
                           ++ decay k)
                     steps)
         ∧ dreamer_v2_main.gradient_steps_taken final
           = Z.of_nat (sum_list (samples <$> steps)))
      ∧ (∀ x m,
           dreamer_v2_main.Sample x m ∈ dreamer_v2_main.events final
           ↔ (x ≤ dreamer_v2_main.num_updates g)%Z
             ∧ (∃ k : nat, x = (first + Z.of_nat k * period)%Z)
             ∧ m = samples x)
      ∧ ((∃ m, dreamer_v2_main.Sample (dreamer_v2_main.learning_starts0 g) m
               ∈ dreamer_v2_main.events final)
         ↔ first = dreamer_v2_main.learning_starts0 g
           ∧ (dreamer_v2_main.learning_starts0 g ≤ dreamer_v2_main.num_updates g)%Z)
      ∧ (∀ j, dreamer_v2_main.Train j ∈ dreamer_v2_main.events final
              ↔ (0 ≤ j < dreamer_v2_main.gradient_steps_taken final)%Z)
      ∧ (∀ j, dreamer_v2_main.UpdateTarget j ∈ dreamer_v2_main.events final
              ↔ (0 ≤ j < dreamer_v2_main.gradient_steps_taken final)%Z
                ∧ (j mod dreamer_v2_main.critic_target_network_update_freq args = 0)%Z).
Proof.
  intros args g Hsgs Hfreq period first samples batch decay.
  unfold dreamer_v2_main.schedule.
  set (count := Z.to_nat (dreamer_v2_main.num_updates g + 1 - dreamer_v2_main.start_step g)).
  set (st0 := {| dreamer_v2_main.step_before_training :=
                   dreamer_v2_main.step_before_training0 g;
                 dreamer_v2_main.gradient_steps_taken := 0;
                 dreamer_v2_main.expl_decay_steps := dreamer_v2_main.expl_decay_steps0 g;
                 dreamer_v2_main.events := [] |}).
  destruct (schedule_from_spec args g Hsgs Hfreq count (dreamer_v2_main.start_step g) st0)
    as (final & new & Hrun & Hev & Hle & [Htrain Hupd] & Hs).
  destruct (schedule_from_log args g Hsgs Hfreq count (dreamer_v2_main.start_step g) st0)
    as (final' & K & Hrun' & HK & Hlog & Hgs).
  rewrite Hrun in Hrun'. injection Hrun' as <-.
  simpl in Hev, Hle, Htrain, Hupd, Hs, HK, Hlog, Hgs. subst new.
  fold period in Hs, HK, Hlog, Hgs. fold first in Hs, HK, Hlog, Hgs.
  assert (1 ≤ period)%Z as Hperiod by (unfold period; lia).
  assert (dreamer_v2_main.start_step g ≤ first
          ∧ dreamer_v2_main.learning_starts0 g ≤ first)%Z as [Hstart Hlearn]
    by (unfold first; lia).
  assert (∀ x m,
            dreamer_v2_main.Sample x m ∈ dreamer_v2_main.events final
            ↔ (x ≤ dreamer_v2_main.num_updates g)%Z
              ∧ (∃ k : nat, x = (first + Z.of_nat k * period)%Z)
              ∧ m = samples x) as Hsample.
  { intros x m. rewrite Hs. unfold count. split.
    - intros (Hx & Hk & Hm). split_and!; [lia|done..].
    - intros (Hx & [k Hk] & Hm). split_and!; [nia|nia| by exists k |done]. }
  exists final, K. split_and!; [done| | | |done| |done|done].
  - intros k. rewrite HK. unfold count. nia.
  - exact Hlog.
  - exact Hgs.
  - split.
    + intros [m Hm]. apply Hsample in Hm as (HN & [k Hk] & _). split; [nia|done].
    + intros [Hfirst HN]. eexists. apply Hsample. split_and!; [done| |done].
      exists 0%nat. lia.
Qed.

Lemma training_steps_are_periodic_witness :
  dreamer_v2_main.global_variables more_examples.schedule_args 1 None
  = Some more_examples.schedule_globals
  ∧ ∃ final,
      dreamer_v2_main.schedule more_examples.schedule_args more_examples.schedule_globals
      = Some final
      ∧ dreamer_v2_main.events final
        = [dreamer_v2_main.Sample 5 3;
           dreamer_v2_main.UpdateTarget 0; dreamer_v2_main.Train 0;
           dreamer_v2_main.Train 1;
           dreamer_v2_main.UpdateTarget 2; dreamer_v2_main.Train 2;
           dreamer_v2_main.DecayExploration 1;
           dreamer_v2_main.Sample 7 1;
           dreamer_v2_main.Train 3;
           dreamer_v2_main.DecayExploration 2;
           dreamer_v2_main.Sample 9 1;
           dreamer_v2_main.UpdateTarget 4; dreamer_v2_main.Train 4;
           dreamer_v2_main.DecayExploration 3]
      ∧ dreamer_v2_main.gradient_steps_taken final = 5%Z
      ∧ (∀ j, dreamer_v2_main.Train j ∈ dreamer_v2_main.events final
              ↔ (0 ≤ j < dreamer_v2_main.gradient_steps_taken final)%Z).
Proof.
  split; [reflexivity|].
  destruct (training_steps_are_periodic more_examples.schedule_args
              more_examples.schedule_globals)
    as (final & K & Hrun & _ & _ & _ & _ & Htrain & _); [discriminate..|].
  exists final. split; [exact Hrun|]. split_and!; [| |exact Htrain].
  - vm_compute in Hrun. injection Hrun as <-. reflexivity.
  - vm_compute in Hrun. injection Hrun as <-. reflexivity.
Defined.

(** ** The data of a step *)

Section rollout_facts.
Import dreamer_v2_rollout.

Lemma zeros_like1_twice (row : tensor1) : zeros_like1 (zeros_like1 row) = zeros_like1 row.
Proof. induction row as [|q row IH]; simpl; [done|]. by f_equal. Qed.

Lemma zero_done_fold_lookup (id : nat) (idxes : list nat) :
  ∀ store,
    foldl (λ s d, zero_done id d s) store idxes !! id
    = (λ t, foldl (λ t d, alter zeros_like1 d t) t idxes) <$> store !! id.
Proof.
  induction idxes as [|d idxes IH]; intros store; simpl.
  - by destruct (store !! id).
  - rewrite IH. unfold zero_done. rewrite list_lookup_alter_eq.
    by destruct (store !! id).
Qed.

Lemma zero_done_fold_other (id : nat) (idxes : list nat) :
  ∀ store j, j ≠ id →
    foldl (λ s d, zero_done id d s) store idxes !! j = store !! j.
Proof.
  induction idxes as [|d idxes IH]; intros store j Hj; simpl; [done|].
  rewrite IH by done. unfold zero_done. by rewrite list_lookup_alter_ne.
Qed.

Lemma length_zero_done_fold (id : nat) (idxes : list nat) :
  ∀ store, length (foldl (λ s d, zero_done id d s) store idxes) = length store.
Proof.
  induction idxes as [|d idxes IH]; intros store; simpl; [done|].
  rewrite IH. unfold zero_done. by rewrite length_alter.
Qed.

Lemma zero_rows_fold_lookup (idxes : list nat) :
  ∀ (t : tensor2) j,
    foldl (λ t d, alter zeros_like1 d t) t idxes !! j
    = if decide (j ∈ idxes) then zeros_like1 <$> t !! j else t !! j.
Proof.
  induction idxes as [|d idxes IH]; intros t j; cbn [foldl].
  - rewrite decide_False; [done|]. apply not_elem_of_nil.
  - rewrite IH. destruct (decide (j = d)) as [->|Hne].
    + rewrite list_lookup_alter_eq. rewrite (decide_True (P := d ∈ d :: idxes))
        by apply list_elem_of_here.
      case_decide; [|done]. destruct (t !! d); simpl; [|done].
      by rewrite zeros_like1_twice.
    + rewrite list_lookup_alter_ne by done.
      destruct (decide (j ∈ idxes)) as [Hin|Hnin].
      * rewrite decide_True; [done|]. by apply list_elem_of_further.
      * rewrite decide_False; [done|]. intros Hin.
        apply elem_of_cons in Hin as [?|?]; done.
Qed.

(** After the reset of the done flags every row of the tensor is zero. *)
Lemma done_flags_zeroed (flags : list bool) :
  let dones := (λ d : bool, [if d then 1 else 0]%Q) <$> flags in
  foldl (λ t d, alter zeros_like1 d t) dones (ppo_recurrent.nonzero_rows dones)
  = zeros (length flags) 1.
Proof.
  intros dones. apply list_eq. intros j. rewrite zero_rows_fold_lookup.
  unfold zeros, dones. rewrite list_lookup_fmap.
  destruct (flags !! j) as [b|] eqn:Hb; simpl.
  - apply lookup_lt_Some in Hb as Hlt. rewrite lookup_replicate_2 by lia.
    case_decide as Hin; [done|]. destruct b; [|done].
    exfalso. apply Hin. unfold ppo_recurrent.nonzero_rows.
    apply nonzero_rows_from_elem. exists j, [1%Q]. split; [done|].
    split; [by rewrite list_lookup_fmap, Hb|]. by constructor.
  - apply lookup_ge_None in Hb.
    assert (replicate (length flags) [0%Q] !! j = None) as ->
      by (apply lookup_replicate_None; lia).
    by case_decide.
Qed.

Lemma nonzero_rows_lt (x : tensor2) (j : nat) :
  j ∈ ppo_recurrent.nonzero_rows x → j < length x.
Proof.
  intros Hj. apply nonzero_rows_from_elem in Hj as (k & row & -> & Hk & _).
  by apply lookup_lt_Some in Hk.
Qed.

Lemma length_step_dones (args : RolloutArgs) (e : EnvStep) (n : nat) :
  length (terminated e) = n → length (truncated e) = n →
  length (step_dones args e) = n.
Proof.
  intros Ht Hu. unfold step_dones. rewrite length_fmap.
  destruct (buffer args); [|destruct (dry_run args)];
    rewrite ?length_fmap, length_zip_with; lia.
Qed.

Lemma step_dones_flags (args : RolloutArgs) (e : EnvStep) :
  ∃ flags : list bool,
    step_dones args e = (λ d : bool, [if d then 1 else 0]%Q) <$> flags.
Proof. unfold step_dones. by eexists. Qed.

Lemma mapM_lookup_rows (x : tensor2) (idxes : list nat) :
  Forall (λ d, d < length x) idxes →
  mapM (λ d, x !! d) idxes = Some ((λ d, default [] (x !! d)) <$> idxes).
Proof.
  intros Hlt. apply mapM_Some. apply Forall2_fmap_r, Forall_Forall2_diag.
  eapply Forall_impl; [exact Hlt|]. intros d Hd. simpl in Hd. simpl.
  destruct (lookup_lt_is_Some_2 x d Hd) as [row Hrow]. by rewrite Hrow.
Qed.

Section sequential_buffer.
Variables (args : RolloutArgs) (clip_rewards_fn : tensor2 → tensor2).
Hypothesis sequential : buffer args = Sequential.

Local Abbreviation n := (num_envs args).
Local Abbreviation well_formed e :=
  (length (terminated e) = n ∧ length (truncated e) = n ∧ length (o e) = n).
Local Abbreviation idxes e := (ppo_recurrent.nonzero_rows (step_dones args e)).
Local Abbreviation step_record e :=
  {| data_observations := real_next_obs e;
     data_dones := step_dones args e;
     data_actions := env_actions e;
     data_rewards := clip_rewards_fn ((λ r, [r]) <$> env_rewards e);
     data_is_first := zeros n 1 |}.
Local Abbreviation reset_record e :=
  {| data_observations := (λ d, default [] (o e !! d)) <$> idxes e;
     data_dones := zeros (length (idxes e)) 1;
     data_actions := zeros (length (idxes e)) (sum_list (actions_dim args));
     data_rewards := zeros (length (idxes e)) 1;
     data_is_first := replicate (length (idxes e)) [1%Q] |}.
Local Abbreviation calls e :=
  (Add (step_record e)
   :: if decide (idxes e = []) then [] else [AddAt (reset_record e) (idxes e)]).
Local Abbreviation resets e :=
  (if decide (idxes e = []) then [] else [Some (idxes e)]).

Lemma step_dones_zeroed (e : EnvStep) (store : list tensor2) (extra : list tensor2) :
  length (terminated e) = n → length (truncated e) = n →
  foldl (λ s d, zero_done (length store) d s)
    ((store ++ [step_dones args e]) ++ extra) (idxes e) !! length store
  = Some (zeros n 1).
Proof.
  intros Ht Hu. rewrite zero_done_fold_lookup.
  rewrite lookup_app_l by (rewrite length_app; simpl; lia).
  rewrite lookup_app_r by lia. rewrite Nat.sub_diag. simpl. f_equal.
  pose proof (length_step_dones args e n Ht Hu) as Hlen.
  destruct (step_dones_flags args e) as [flags Hflags].
  rewrite Hflags in *. rewrite length_fmap in Hlen. rewrite <- Hlen.
  apply done_flags_zeroed.
Qed.

Lemma sequential_step (e : EnvStep) (st : State) :
  well_formed e →
  store st !! dones (step_data st) = Some (zeros n 1) →
  ∃ st',
    step args clip_rewards_fn e st = Some st'
    ∧ store st' !! dones (step_data st') = Some (zeros n 1)
    ∧ rb st' = rb st ++ calls e
    ∧ obs st' = o e
    ∧ init_states_calls st' = init_states_calls st ++ resets e.
Proof.
  intros (Ht & Hu & Ho) Hinv. unfold step. rewrite sequential, Hinv. simpl.
  pose proof (length_step_dones args e n Ht Hu) as Hlen.
  destruct (decide (0 < length (idxes e))) as [Hpos|Hzero].
  - rewrite (mapM_lookup_rows (o e) (idxes e)).
    2:{ apply Forall_forall. intros d Hd. apply nonzero_rows_lt in Hd. lia. }
    simpl. eexists. split; [done|]. simpl.
    assert (idxes e ≠ []) as Hne
      by (intros Hnil; rewrite Hnil in Hpos; simpl in Hpos; lia).
    rewrite !decide_False by done.
    split_and!; try done.
    + by apply step_dones_zeroed.
    + rewrite <- app_assoc. simpl. do 3 f_equal.
      * unfold read. simpl. f_equal.
        by rewrite (list_lookup_middle _ _ _ _ eq_refl).
      * unfold read. simpl. rewrite (list_lookup_middle _ [] _ _ eq_refl). simpl. f_equal.
        unfold ones_like2, zeros, ones_like1. by rewrite !fmap_replicate.
  - eexists. split; [done|]. simpl.
    assert (idxes e = []) as Hnil by (destruct (idxes e); [done|simpl in Hzero; lia]).
    rewrite !decide_True by done.
    split_and!; try done.
    + pose proof (step_dones_zeroed e (store st) [] Ht Hu) as Hz.
      rewrite Hnil in Hz. simpl in Hz. by rewrite app_nil_r in Hz.
    + do 2 f_equal. unfold read. simpl. f_equal.
      by rewrite (list_lookup_middle _ _ _ _ eq_refl).
    + by rewrite app_nil_r.
Qed.

Lemma sequential_rollout (steps : list EnvStep) :
  Forall (λ e, well_formed e) steps →
  ∀ st,
    store st !! dones (step_data st) = Some (zeros n 1) →
    ∃ final,
      foldl (λ st e, st ≫= step args clip_rewards_fn e) (Some st) steps = Some final
      ∧ store final !! dones (step_data final) = Some (zeros n 1)
      ∧ rb final = rb st ++ concat ((λ e, calls e) <$> steps)
      ∧ obs final = default (obs st) (last (o <$> steps))
      ∧ init_states_calls final
        = init_states_calls st ++ concat ((λ e, resets e) <$> steps).
Proof.
  induction 1 as [|e steps He _ IH]; intros st Hinv.
  - exists st. simpl. by rewrite !app_nil_r.
  - destruct (sequential_step e st He Hinv) as (st1 & Hstep & Hinv1 & Hrb1 & Hobs1 & Hp1).
    destruct (IH st1 Hinv1) as (final & Hrun & Hinv' & Hrb & Hobs & Hp).
    exists final. cbn [foldl]. simpl mbind. rewrite Hstep.
    split_and!; try done.
    + rewrite Hrb, Hrb1. cbn [fmap list_fmap concat]. by rewrite <- app_assoc.
    + rewrite Hobs, Hobs1, fmap_cons, last_cons. by destruct (last (o <$> steps)).
    + rewrite Hp, Hp1. cbn [fmap list_fmap concat]. by rewrite <- app_assoc.
Qed.

End sequential_buffer.

Lemma bind_Some_l {A B} (f : A → option B) (x : A) : Some x ≫= f = f x.
Proof. reflexivity. Qed.

Lemma slice_row {A} (l : list A) (i : nat) (x : A) :
  l !! i = Some x → python.slice i (i + 1) l = [x].
Proof.
  intros Hx. unfold python.slice. replace (i + 1 - i) with 1 by lia.
  rewrite (drop_S _ _ _ Hx). simpl. by rewrite take_0.
Qed.

Lemma read_view_agree (store store' : list tensor2) (v : View) :
  store' !! dones v.1 = store !! dones v.1 → read_view store' v = read_view store v.
Proof. intros Heq. unfold read_view, read. simpl. by rewrite Heq. Qed.

Lemma read_view_dones_valid (store : list tensor2) (v : View) (x : Q) :
  data_dones (read_view store v) = [[x]] → dones v.1 < length store.
Proof.
  unfold read_view, read. simpl. intros Hd.
  destruct (store !! dones v.1) as [t|] eqn:Ht; [by apply lookup_lt_Some in Ht|].
  simpl in Hd. unfold python.slice in Hd. by rewrite drop_nil, take_nil in Hd.
Qed.

Lemma done_rows_elem (flags : list bool) (d : nat) :
  d ∈ ppo_recurrent.nonzero_rows ((λ b : bool, [if b then 1 else 0]%Q) <$> flags)
  ↔ flags !! d = Some true.
Proof.
  unfold ppo_recurrent.nonzero_rows. rewrite nonzero_rows_from_elem. split.
  - intros (k & row & -> & Hk & Hrow). simpl.
    rewrite list_lookup_fmap in Hk. destruct (flags !! k) as [[|]|]; simplify_eq/=; [done|].
    apply Exists_cons in Hrow as [Hq|Hnil]; [done|]. by apply Exists_nil in Hnil.
  - intros Hd. exists d, [1%Q]. split; [done|].
    split; [by rewrite list_lookup_fmap, Hd|]. by constructor.
Qed.

Lemma done_rows_from_NoDup (flags : list bool) :
  ∀ i, NoDup (ppo_recurrent.nonzero_rows_from i
                ((λ b : bool, [if b then 1 else 0]%Q) <$> flags)).
Proof.
  induction flags as [|b flags IH]; intros i; simpl; [constructor|].
  apply NoDup_app. split_and!.
  - destruct b; simpl; [apply NoDup_singleton | constructor].
  - intros j Hj Hj'. apply nonzero_rows_from_elem in Hj' as (k & row & -> & _).
    destruct b; simpl in Hj; [|by apply elem_of_nil in Hj].
    apply list_elem_of_singleton in Hj. lia.
  - apply IH.
Qed.

Lemma imap_pair_snd {A} (l : list A) : (imap (λ i d, (i, d)) l).*2 = l.
Proof.
  apply list_eq. intros j. rewrite list_lookup_fmap, list_lookup_imap.
  by destruct (l !! j).
Qed.

Lemma imap_pair_elem {A} (l : list A) (i : nat) (d : A) :
  (i, d) ∈ imap (λ i d, (i, d)) l → l !! i = Some d.
Proof.
  intros Hin. apply list_elem_of_lookup in Hin as [j Hj].
  rewrite list_lookup_imap in Hj. destruct (l !! j) as [x|] eqn:Hx; simplify_eq/=. done.
Qed.

Section episode_buffer.
Variables (args : RolloutArgs) (clip_rewards_fn : tensor2 → tensor2).
Hypothesis episode : buffer args = Episode.

Local Abbreviation n := (num_envs args).
Local Abbreviation well_formed e :=
  (length (terminated e) = n ∧ length (truncated e) = n ∧ length (o e) = n).
Local Abbreviation data_flags x f d := (data_is_first x = [[f]] ∧ data_dones x = [[d]]).
Local Abbreviation good_pending store ep :=
  (∃ v rest,
     ep = v :: rest
     ∧ data_flags (read_view store v) 1%Q 0%Q
     ∧ Forall (λ u, data_flags (read_view store u) 0%Q 0%Q) rest).
Local Abbreviation good_episode steps :=
  (per_rank_sequence_length args ≤ length steps
   ∧ ∃ head middle final,
       steps%list = head :: middle ++ [final]
       ∧ data_flags head 1%Q 0%Q
       ∧ Forall (λ x, data_flags x 0%Q 0%Q) middle
       ∧ data_flags final 0%Q 1%Q).
Local Abbreviation good_call c := (∃ steps, c = AddEpisode steps ∧ good_episode steps).

Lemma good_pending_stable (store store' : list tensor2) (ep : list View) :
  (∀ id, id < length store → store' !! id = store !! id) →
  good_pending store ep → good_pending store' ep.
Proof.
  intros Hstore (v & rest & -> & [Hf Hd] & Hrest). exists v, rest. split; [done|].
  split.
  - rewrite (read_view_agree store store'); [done|].
    apply Hstore. by eapply read_view_dones_valid.
  - eapply Forall_impl; [exact Hrest|]. intros u [Hf' Hd']. cbv beta.
    rewrite (read_view_agree store store'); [done|].
    apply Hstore. by eapply read_view_dones_valid.
Qed.

Lemma flush_episodes_spec (store1 : list tensor2) (reset_data step_data : TensorDict)
    (ps : list (nat * nat)) :
  ∀ rb0 E0,
    NoDup ps.*2 →
    Forall (λ p, p.2 < length E0) ps →
    (∀ d ep, d ∈ ps.*2 → E0 !! d = Some ep →
       ∃ old, ep = old ++ [(step_data, d)]
              ∧ good_pending store1 old
              ∧ data_flags (read_view store1 (step_data, d)) 0%Q 1%Q) →
    ∃ new eps,
      foldl (λ acc (p : nat * nat),
               st ← acc;
               env_ep ← st.2 !! p.2;
               if decide (per_rank_sequence_length args ≤ length env_ep) then
                 Some (st.1 ++ [AddEpisode (read_view store1 <$> env_ep)],
                       <[p.2 := [(reset_data, p.1)]]> st.2)
               else Some st)
        (Some (rb0, E0)) ps
      = Some (rb0 ++ new, eps)
      ∧ Forall (λ c, good_call c) new
      ∧ length eps = length E0
      ∧ ∀ d, eps !! d = E0 !! d
             ∨ ∃ i ep, (i, d) ∈ ps
                       ∧ E0 !! d = Some ep
                       ∧ per_rank_sequence_length args ≤ length ep
                       ∧ eps !! d = Some [(reset_data, i)].
Proof.
  induction ps as [|[i d] ps IH]; intros rb0 E0 Hnodup Hlt Hpend.
  - exists [], E0. simpl. rewrite app_nil_r. split_and!; try done. by left.
  - cbn [foldl]. simpl in Hnodup. apply NoDup_cons in Hnodup as [Hd Hnodup].
    apply Forall_cons in Hlt as [Hdlt Hlt]. simpl in Hdlt.
    destruct (lookup_lt_is_Some_2 E0 d Hdlt) as [ep Hep].
    rewrite bind_Some_l. cbn [fst snd]. rewrite Hep, bind_Some_l.
    destruct (Hpend d ep)
      as (old & Hold & (v & rest & -> & [Hh1 Hh2] & Hrest) & [Hf1 Hf2]);
      [apply list_elem_of_here | done |].
    destruct (decide (per_rank_sequence_length args ≤ length ep)) as [Hlong|Hshort].
    + destruct (IH (rb0 ++ [AddEpisode (read_view store1 <$> ep)])
                  (<[d := [(reset_data, i)]]> E0)) as (new & eps & Hrun & Hnew & Hlen & Heps).
      * done.
      * rewrite length_insert. done.
      * intros d' ep' Hd' Hep'. assert (d' ≠ d) as Hne by (intros ->; done).
        rewrite list_lookup_insert_ne in Hep' by done.
        apply (Hpend d' ep'); [by apply list_elem_of_further | done].
      * exists (AddEpisode (read_view store1 <$> ep) :: new), eps.
        split; [by rewrite Hrun, <- app_assoc|]. split_and!.
        -- constructor; [|done]. eexists. split; [done|]. split.
           ++ by rewrite length_fmap.
           ++ exists (read_view store1 v), (read_view store1 <$> rest),
                (read_view store1 (step_data, d)).
              split; [by rewrite Hold, fmap_app|]. split_and!; try done.
              by apply Forall_fmap.
        -- by rewrite Hlen, length_insert.
        -- intros d'. destruct (Heps d') as [Hsame|(i' & ep' & Hi' & Hep' & Hlong' & Hreset)].
           ++ destruct (decide (d' = d)) as [->|Hne].
              ** right. exists i, ep. split; [apply list_elem_of_here|].
                 split_and!; try done. rewrite Hsame. by apply list_lookup_insert_eq.
              ** left. by rewrite Hsame, list_lookup_insert_ne.
           ++ right. exists i', ep'.
              assert (d' ≠ d) as Hne.
              { intros ->. apply Hd. apply list_elem_of_fmap. by exists (i', d). }
              rewrite list_lookup_insert_ne in Hep' by done.
              split; [by apply list_elem_of_further | done].
    + destruct (IH rb0 E0) as (new & eps & Hrun & Hnew & Hlen & Heps).
      * done.
      * done.
      * intros d' ep' Hd' Hep'.
        apply (Hpend d' ep'); [by apply list_elem_of_further | done].
      * exists new, eps. split_and!; try done.
        intros d'. destruct (Heps d') as [Hsame|(i' & ep' & Hi' & Hrest')]; [by left|].
        right. exists i', ep'. split; [by apply list_elem_of_further | done].
Qed.

Local Abbreviation inv st :=
  (store st !! dones (step_data st) = Some (zeros n 1)
   ∧ length (episode_steps st) = n
   ∧ Forall (λ ep, good_pending (store st) ep) (episode_steps st)).

Lemma zeros_row (k w i : nat) :
  i < k → python.slice i (i + 1) (zeros k w) = [replicate w 0%Q].
Proof. intros Hi. apply slice_row. unfold zeros. by apply lookup_replicate_2. Qed.

Lemma ones_row (k i : nat) :
  i < k → python.slice i (i + 1) (ones_like2 (zeros k 1)) = [[1%Q]].
Proof.
  intros Hi. apply slice_row. unfold ones_like2, zeros, ones_like1.
  rewrite !fmap_replicate. by apply lookup_replicate_2.
Qed.

Lemma episode_step (e : EnvStep) (st : State) :
  well_formed e → inv st →
  ∃ st' new,
    step args clip_rewards_fn e st = Some st'
    ∧ inv st'
    ∧ rb st' = rb st ++ new
    ∧ Forall (λ c, good_call c) new
    ∧ ∀ d old,
        d ∈ ppo_recurrent.nonzero_rows (step_dones args e) →
        episode_steps st !! d = Some old →
        S (length old) < per_rank_sequence_length args →
        episode_steps st' !! d = Some (old ++ [(step_data st', d)])
        ∧ data_dones (read_view (store st') (step_data st', d)) = [[0%Q]].
Proof.
  intros (Ht & Hu & Ho) (Hz & Hlen & Hgood). unfold step. rewrite episode, Hz.
  change (default [] (Some (zeros n 1))) with (zeros n 1). cbv zeta.
  pose proof (length_step_dones args e n Ht Hu) as HlenD.
  destruct (step_dones_flags args e) as [flags Hflags].
  assert (length flags = n) as Hlenf by (rewrite Hflags, length_fmap in HlenD; done).
  set (D := step_dones args e) in *.
  set (sd := {| observations := real_next_obs e; dones := length (store st);
                actions := env_actions e;
                rewards := clip_rewards_fn ((λ r, [r]) <$> env_rewards e);
                is_first := zeros n 1 |}).
  set (idx := ppo_recurrent.nonzero_rows D).
  assert (∀ d ep, append_views sd (episode_steps st) !! d = Some ep →
            d < n ∧ ∃ old, episode_steps st !! d = Some old ∧ ep = old ++ [(sd, d)])
    as Happend.
  { intros d ep Hep. unfold append_views in Hep. rewrite list_lookup_imap in Hep.
    destruct (episode_steps st !! d) as [old|] eqn:Hold; simplify_eq/=.
    split; [|by exists old]. apply lookup_lt_Some in Hold. lia. }
  assert (∀ store' d,
            d < n →
            (∀ id, id < length (store st) → store' !! id = store st !! id) →
            store' !! length (store st) = Some (zeros n 1) →
            ∀ old, episode_steps st !! d = Some old →
                   good_pending store' (old ++ [(sd, d)])) as Hkeep.
  { intros store' d Hd Hold Hnew old Hlook.
    rewrite Forall_lookup in Hgood. specialize (Hgood d old Hlook).
    destruct (good_pending_stable (store st) store' old Hold Hgood)
      as (v & rest & -> & Hhead & Hrest).
    exists v, (rest ++ [(sd, d)]). split; [done|]. split; [done|].
    apply Forall_app. split; [done|]. constructor; [|constructor].
    unfold read_view, read. simpl. rewrite Hnew. simpl.
    split; by apply zeros_row. }
  destruct (decide (0 < length idx)) as [Hpos|Hzero].
  - rewrite (mapM_lookup_rows (o e) idx).
    2:{ apply Forall_forall. intros d Hd. apply nonzero_rows_lt in Hd. lia. }
    rewrite bind_Some_l.
    set (store1 := (store st ++ [D]) ++ [zeros (length idx) 1]).
    set (reset_data := {| observations := (λ d, default [] (o e !! d)) <$> idx;
                          dones := length (store st ++ [D]);
                          actions := zeros (length idx) (sum_list (actions_dim args));
                          rewards := zeros (length idx) 1;
                          is_first := ones_like2 (zeros (length idx) 1) |}).
    assert (store1 !! length (store st) = Some D) as HD.
    { unfold store1. rewrite <- app_assoc. apply list_lookup_middle. done. }
    assert (∀ id, id < length (store st) → store1 !! id = store st !! id) as Hold1.
    { intros id Hid. unfold store1. rewrite <- app_assoc. by apply lookup_app_l. }
    unfold flush_episodes.
    destruct (flush_episodes_spec store1 reset_data sd (imap (λ i d, (i, d)) idx)
                (rb st) (append_views sd (episode_steps st)))
      as (new & eps & Hrun & Hnew & Hleneps & Heps).
    { rewrite imap_pair_snd. unfold idx, ppo_recurrent.nonzero_rows.
      rewrite Hflags. apply done_rows_from_NoDup. }
    { apply Forall_forall. intros [i d] Hin. simpl.
      apply imap_pair_elem in Hin. apply list_elem_of_lookup_2, nonzero_rows_lt in Hin.
      unfold append_views. rewrite length_imap. lia. }
    { intros d ep Hd Hep. rewrite imap_pair_snd in Hd.
      destruct (Happend d ep Hep) as (Hdn & old & Hlook & ->).
      exists old. split; [done|]. split.
      - rewrite Forall_lookup in Hgood.
        by apply (good_pending_stable (store st) store1 old Hold1), (Hgood d).
      - unfold read_view, read. simpl. rewrite HD. simpl. split; [by apply zeros_row|].
        apply slice_row. unfold idx in Hd. rewrite Hflags in Hd.
        apply done_rows_elem in Hd. by rewrite Hflags, list_lookup_fmap, Hd. }
    rewrite Hrun, bind_Some_l. cbn [fst snd].
    eexists. exists new. split; [done|]. cbn [store step_data episode_steps rb].
    set (store2 := foldl (λ s d, zero_done (length (store st)) d s) store1 idx).
    assert (store2 !! length (store st) = Some (zeros n 1)) as Hz2.
    { unfold store2, store1, idx, D. by apply step_dones_zeroed. }
    assert (∀ id, id ≠ length (store st) → store2 !! id = store1 !! id) as Hother.
    { intros id Hid. unfold store2. by apply zero_done_fold_other. }
    split_and!; try done.
    + rewrite Hleneps. unfold append_views. by rewrite length_imap.
    + apply Forall_lookup. intros d ep Hep.
      destruct (Heps d) as [Hsame|(i & ep0 & Hi & _ & _ & Hreset)].
      * rewrite Hsame in Hep. destruct (Happend d ep Hep) as (Hdn & old & Hlook & ->).
        apply (Hkeep store2 d Hdn); [|done..].
        intros id Hid. rewrite Hother by lia. by apply Hold1.
      * rewrite Hreset in Hep. injection Hep as <-.
        apply imap_pair_elem, lookup_lt_Some in Hi.
        exists (reset_data, i), []. split; [done|]. split; [|constructor].
        unfold read_view, read. simpl.
        rewrite Hother by (rewrite length_app; simpl; lia).
        unfold store1. rewrite (list_lookup_middle _ [] _ _ eq_refl). simpl.
        split; [by apply ones_row | by apply zeros_row].
    + intros d old Hd Hlook Hshort.
      assert (d < n) as Hdn by (apply lookup_lt_Some in Hlook; lia).
      assert (append_views sd (episode_steps st) !! d = Some (old ++ [(sd, d)])) as HE0.
      { unfold append_views. by rewrite list_lookup_imap, Hlook. }
      split.
      * destruct (Heps d) as [Hsame|(i & ep0 & Hi & Hep0 & Hlong & Hreset)].
        -- by rewrite Hsame.
        -- rewrite HE0 in Hep0. injection Hep0 as <-.
           rewrite length_app in Hlong. simpl in Hlong. lia.
      * unfold read_view, read. cbn [fst snd dones data_dones].
        change (dones sd) with (length (store st)). rewrite Hz2. simpl.
        by apply zeros_row.
  - assert (idx = []) as Hnil by (destruct idx; [done|simpl in Hzero; lia]).
    eexists. exists []. split; [done|]. cbn [store step_data episode_steps rb].
    assert ((store st ++ [D]) !! length (store st) = Some (zeros n 1)) as Hz0.
    { pose proof (step_dones_zeroed args e (store st) [] Ht Hu) as Hzd.
      fold D in Hzd. fold idx in Hzd. rewrite Hnil in Hzd. simpl in Hzd.
      by rewrite app_nil_r in Hzd. }
    split_and!; try done.
    + unfold append_views. by rewrite length_imap.
    + apply Forall_lookup. intros d ep Hep.
      destruct (Happend d ep Hep) as (Hdn & old & Hlook & ->).
      apply (Hkeep (store st ++ [D]) d Hdn); [|done..].
      intros id Hid. by apply lookup_app_l.
    + by rewrite app_nil_r.
    + intros d old Hd. fold D in Hd. fold idx in Hd. rewrite Hnil in Hd.
      by apply elem_of_nil in Hd.
Qed.

Lemma episode_rollout (steps : list EnvStep) :
  Forall (λ e, well_formed e) steps →
  ∀ st, inv st →
    ∃ final new,
      foldl (λ st e, st ≫= step args clip_rewards_fn e) (Some st) steps = Some final
      ∧ inv final
      ∧ rb final = rb st ++ new
      ∧ Forall (λ c, good_call c) new.
Proof.
  induction 1 as [|e steps He _ IH]; intros st Hinv.
  - exists st, []. rewrite app_nil_r.
    split; [done|]. split; [exact Hinv|]. split; [done|constructor].
  - destruct (episode_step e st He Hinv)
      as (st1 & new1 & Hstep & Hinv1 & Hrb1 & Hnew1 & _).
    destruct (IH st1 Hinv1) as (final & new & Hrun & Hinv' & Hrb & Hnew).
    exists final, (new1 ++ new). cbn [foldl]. rewrite bind_Some_l, Hstep.
    split; [done|]. split; [exact Hinv'|]. split.
    + by rewrite Hrb, Hrb1, <- app_assoc.
    + by apply Forall_app.
Qed.

Lemma episode_start (o0 : tensor2) : inv (start args o0).
Proof.
  unfold start. rewrite episode. cbn [store step_data episode_steps dones].
  split; [done|]. split.
  - unfold append_views. by rewrite length_imap, length_replicate.
  - apply Forall_lookup. intros d ep Hep. unfold append_views in Hep.
    rewrite list_lookup_imap in Hep.
    destruct (replicate n [] !! d) as [old|] eqn:Hold; simplify_eq/=.
    apply lookup_replicate in Hold as [-> Hd].
    eexists _, []. split; [done|]. split; [|constructor].
    unfold read_view, read. simpl. split; [by apply ones_row | by apply zeros_row].
Qed.

End episode_buffer.

End rollout_facts.

(** X11. The records that the main loop of dreamer_v2.py hands to the
    sequential replay buffer, whatever the environments return (with
    [num_envs] entries per step).  The first record holds the first
    observation with zero action, reward and done flag and [is_first] one.
    Every step then adds one record with the final observations, the done
    flags, the actions and the clipped rewards of the step, and its
    [is_first] is zero for every environment, also right after a reset;
    when some environment finished it is followed by one more record for
    exactly these environments, with the observation after the reset, zero
    action, reward and done flag and [is_first] one.  The player sees the
    observation after the reset and its state is reset for the same
    environments. *)
Theorem sequential_buffer_records :
  ∀ (args : dreamer_v2_rollout.RolloutArgs) (clip_rewards_fn : tensor2 → tensor2)
    (o0 : tensor2) (steps : list dreamer_v2_rollout.EnvStep),
    dreamer_v2_rollout.buffer args = dreamer_v2_rollout.Sequential →
    Forall (λ e, length (dreamer_v2_rollout.terminated e) = dreamer_v2_rollout.num_envs args
                 ∧ length (dreamer_v2_rollout.truncated e)
                   = dreamer_v2_rollout.num_envs args
                 ∧ length (dreamer_v2_rollout.o e) = dreamer_v2_rollout.num_envs args)
           steps →
    let n := dreamer_v2_rollout.num_envs args in
    let action_size := sum_list (dreamer_v2_rollout.actions_dim args) in
    let idxes e := ppo_recurrent.nonzero_rows (dreamer_v2_rollout.step_dones args e) in
    let first_record :=
      {| dreamer_v2_rollout.data_observations := o0;
         dreamer_v2_rollout.data_dones := zeros n 1;
         dreamer_v2_rollout.data_actions := zeros n action_size;
         dreamer_v2_rollout.data_rewards := zeros n 1;
         dreamer_v2_rollout.data_is_first := replicate n [1%Q] |} in
    let step_record e :=
      {| dreamer_v2_rollout.data_observations := dreamer_v2_rollout.real_next_obs e;
         dreamer_v2_rollout.data_dones := dreamer_v2_rollout.step_dones args e;
         dreamer_v2_rollout.data_actions := dreamer_v2_rollout.env_actions e;
         dreamer_v2_rollout.data_rewards :=
           clip_rewards_fn ((λ r, [r]) <$> dreamer_v2_rollout.env_rewards e);
         dreamer_v2_rollout.data_is_first := zeros n 1 |} in
    let reset_record e :=
      {| dreamer_v2_rollout.data_observations :=
           (λ d, default [] (dreamer_v2_rollout.o e !! d)) <$> idxes e;
         dreamer_v2_rollout.data_dones := zeros (length (idxes e)) 1;
         dreamer_v2_rollout.data_actions := zeros (length (idxes e)) action_size;
         dreamer_v2_rollout.data_rewards := zeros (length (idxes e)) 1;
         dreamer_v2_rollout.data_is_first := replicate (length (idxes e)) [1%Q] |} in
    ∃ final,
      dreamer_v2_rollout.rollout args clip_rewards_fn o0 steps = Some final
      ∧ dreamer_v2_rollout.rb final
        = dreamer_v2_rollout.Add first_record
          :: concat ((λ e, dreamer_v2_rollout.Add (step_record e)
                           :: if decide (idxes e = []) then []
                              else [dreamer_v2_rollout.AddAt (reset_record e) (idxes e)])
                     <$> steps)
      ∧ dreamer_v2_rollout.obs final = default o0 (last (dreamer_v2_rollout.o <$> steps))
      ∧ dreamer_v2_rollout.init_states_calls final
        = None :: concat ((λ e, if decide (idxes e = []) then [] else [Some (idxes e)])
                          <$> steps).
Proof.
  intros args clip o0 steps Hseq Hwf n action_size idxes first_record step_record
    reset_record.
  destruct (sequential_rollout args clip Hseq steps Hwf (dreamer_v2_rollout.start args o0))
    as (final & Hrun & _ & Hrb & Hobs & Hcalls).
  { unfold dreamer_v2_rollout.start. by rewrite Hseq. }
  exists final. split; [exact Hrun|].
  unfold dreamer_v2_rollout.start in Hrb, Hobs, Hcalls. rewrite Hseq in Hrb, Hobs, Hcalls.
  simpl in Hrb, Hobs, Hcalls. split_and!; [|done..].
  rewrite Hrb. unfold first_record, dreamer_v2_rollout.read. simpl. do 3 f_equal.
  unfold ones_like2, zeros, ones_like1. by rewrite !fmap_replicate.
Qed.

Lemma sequential_buffer_records_witness :
  ∃ final,
    dreamer_v2_rollout.rollout
      (more_examples.rollout_args dreamer_v2_rollout.Sequential 2) (λ x, x)
      [[0]; [1]]%Q [more_examples.env_step2 10 true; more_examples.env_step2 20 false]
    = Some final
    ∧ fmap (M := list)
        (λ c : dreamer_v2_rollout.buffer_call,
           match c return (tensor2 * tensor2 * tensor2 * list nat)%type with
           | dreamer_v2_rollout.Add d =>
               (dreamer_v2_rollout.data_observations d,
                dreamer_v2_rollout.data_dones d,
                dreamer_v2_rollout.data_is_first d, [])
           | dreamer_v2_rollout.AddAt d indices =>
               (dreamer_v2_rollout.data_observations d,
                dreamer_v2_rollout.data_dones d,
                dreamer_v2_rollout.data_is_first d, indices)
           | dreamer_v2_rollout.AddEpisode _ => ([], [], [], [])
           end) (dreamer_v2_rollout.rb final)
      = [([[0]; [1]], [[0]; [0]], [[1]; [1]], []);
         ([[10]; [12]], [[0]; [1]], [[0]; [0]], []);
         ([[11]], [[0]], [[1]], [1%nat]);
         ([[20]; [21]], [[0]; [0]], [[0]; [0]], [])]%Q
    ∧ dreamer_v2_rollout.obs final = [[20]; [21]]%Q
    ∧ dreamer_v2_rollout.init_states_calls final = [None; Some [1]].
Proof.
  destruct (sequential_buffer_records
              (more_examples.rollout_args dreamer_v2_rollout.Sequential 2) (λ x, x)
              [[0]; [1]]%Q
              [more_examples.env_step2 10 true; more_examples.env_step2 20 false])
    as (final & Hrun & Hrb & Hobs & Hcalls).
  - reflexivity.
  - repeat constructor.
  - exists final. split; [exact Hrun|]. rewrite Hrb, Hobs, Hcalls.
    split_and!; vm_compute; reflexivity.
Defined.

(** X12. The episodes that the main loop of dreamer_v2.py hands to the
    episode buffer, whatever the environments return.  Every episode added
    has at least [per_rank_sequence_length] records; its first record has
    [is_first] one and done zero, its last record has done one, every
    record in between has both at zero, and every record but the first has
    [is_first] zero.  The records still held for an environment have the
    same form without the last record.  When an environment finishes with
    fewer records than [per_rank_sequence_length], nothing is added for it,
    no reset record starts a new list, and, the held record being a view of
    the tensor whose done flags are then reset in place, the done flag of
    its last record reads zero from then on: the next episode of the
    environment continues the same list. *)
Theorem episode_buffer_records :
  ∀ (args : dreamer_v2_rollout.RolloutArgs) (clip_rewards_fn : tensor2 → tensor2)
    (o0 : tensor2) (steps : list dreamer_v2_rollout.EnvStep),
    dreamer_v2_rollout.buffer args = dreamer_v2_rollout.Episode →
    Forall (λ e, length (dreamer_v2_rollout.terminated e) = dreamer_v2_rollout.num_envs args
                 ∧ length (dreamer_v2_rollout.truncated e)
                   = dreamer_v2_rollout.num_envs args
                 ∧ length (dreamer_v2_rollout.o e) = dreamer_v2_rollout.num_envs args)
           steps →
    let flags x f d :=
      dreamer_v2_rollout.data_is_first x = [[f]]
      ∧ dreamer_v2_rollout.data_dones x = [[d]] in
    ∃ final,
      dreamer_v2_rollout.rollout args clip_rewards_fn o0 steps = Some final
      ∧ Forall (λ c, ∃ records,
                  c = dreamer_v2_rollout.AddEpisode records
                  ∧ dreamer_v2_rollout.per_rank_sequence_length args ≤ length records
                  ∧ ∃ first_record middle last_record,
                      records = first_record :: middle ++ [last_record]
                      ∧ flags first_record 1%Q 0%Q
                      ∧ Forall (λ x, flags x 0%Q 0%Q) middle
                      ∧ flags last_record 0%Q 1%Q)
               (dreamer_v2_rollout.rb final)
      ∧ length (dreamer_v2_rollout.episode_steps final) = dreamer_v2_rollout.num_envs args
      ∧ Forall (λ env_ep, ∃ v rest,
                  env_ep = v :: rest
                  ∧ flags (dreamer_v2_rollout.read_view (dreamer_v2_rollout.store final) v)
                      1%Q 0%Q
                  ∧ Forall (λ u, flags (dreamer_v2_rollout.read_view
                                          (dreamer_v2_rollout.store final) u) 0%Q 0%Q)
                      rest)
               (dreamer_v2_rollout.episode_steps final)
      ∧ ∀ e,
          length (dreamer_v2_rollout.terminated e) = dreamer_v2_rollout.num_envs args →
          length (dreamer_v2_rollout.truncated e) = dreamer_v2_rollout.num_envs args →
          length (dreamer_v2_rollout.o e) = dreamer_v2_rollout.num_envs args →
          ∃ final',
            dreamer_v2_rollout.rollout args clip_rewards_fn o0 (steps ++ [e]) = Some final'
            ∧ ∀ d held,
                d ∈ ppo_recurrent.nonzero_rows (dreamer_v2_rollout.step_dones args e) →
                dreamer_v2_rollout.episode_steps final !! d = Some held →
                S (length held) < dreamer_v2_rollout.per_rank_sequence_length args →
                dreamer_v2_rollout.episode_steps final' !! d
                = Some (held ++ [(dreamer_v2_rollout.step_data final', d)])
                ∧ dreamer_v2_rollout.data_dones
                    (dreamer_v2_rollout.read_view (dreamer_v2_rollout.store final')
                       (dreamer_v2_rollout.step_data final', d))
                  = [[0%Q]].
Proof.
  intros args clip o0 steps Hep Hwf flags.
  destruct (episode_rollout args clip Hep steps Hwf (dreamer_v2_rollout.start args o0)
              (episode_start args Hep o0))
    as (final & new & Hrun & Hinv & Hrb & Hnew).
  exists final. split; [exact Hrun|].
  assert (dreamer_v2_rollout.rb (dreamer_v2_rollout.start args o0) = []) as Hrb0.
  { unfold dreamer_v2_rollout.start. by rewrite Hep. }
  rewrite Hrb0 in Hrb. simpl in Hrb. subst new.
  destruct Hinv as (Hz & Hlen & Hgood).
  split; [exact Hnew|]. split; [exact Hlen|]. split; [exact Hgood|].
  intros e Ht Hu Ho.
  destruct (episode_step args clip Hep e final) as (final' & new' & Hstep & _ & _ & _ & Hshort).
  { done. }
  { done. }
  exists final'. split; [|exact Hshort].
  unfold dreamer_v2_rollout.rollout in *. rewrite foldl_app. simpl. rewrite Hrun.
  exact Hstep.
Qed.

Lemma episode_buffer_records_witness :
  ∃ final,
    dreamer_v2_rollout.rollout
      (more_examples.rollout_args dreamer_v2_rollout.Episode 1) (λ x, x) [[0]]%Q
      [more_examples.env_step1 1 true; more_examples.env_step1 2 false;
       more_examples.env_step1 3 true]
    = Some final
    ∧ fmap (M := list)
        (λ c : dreamer_v2_rollout.buffer_call,
           match c return list (tensor2 * tensor2 * tensor2) with
           | dreamer_v2_rollout.AddEpisode records =>
               fmap (M := list)
                 (λ x, (dreamer_v2_rollout.data_observations x,
                        dreamer_v2_rollout.data_is_first x,
                        dreamer_v2_rollout.data_dones x)) records
           | _ => []
           end) (dreamer_v2_rollout.rb final)
      = [[([[0]], [[1]], [[0]]); ([[1]], [[0]], [[0]]);
          ([[2]], [[0]], [[0]]); ([[3]], [[0]], [[1]])]]%Q
    ∧ Forall (λ c, ∃ records,
                c = dreamer_v2_rollout.AddEpisode records ∧ 3 ≤ length records)
        (dreamer_v2_rollout.rb final).
Proof.
  destruct (episode_buffer_records
              (more_examples.rollout_args dreamer_v2_rollout.Episode 1) (λ x, x) [[0]]%Q
              [more_examples.env_step1 1 true; more_examples.env_step1 2 false;
               more_examples.env_step1 3 true])
    as (final & Hrun & Hrb & _).
  - reflexivity.
  - repeat constructor.
  - exists final. split; [exact Hrun|]. split.
    + vm_compute in Hrun. injection Hrun as <-. vm_compute. reflexivity.
    + eapply Forall_impl; [exact Hrb|]. intros c (records & -> & Hlen & _).
      by exists records.
Defined.

(** ** The rollout of recurrent PPO *)

Section ppo_rollout_facts.
Import ppo_recurrent.

Variables (args : RecurrentPPOArgs) (world_size : Z).
Variable agent : tensor2 → lstm_states → Z → AgentStep.
Hypothesis reset_on_done : reset_recurrent_state_on_done args = true.

Local Abbreviation N := (num_envs args).
Local Abbreviation rows state k :=
  (length state.1.1 = k ∧ length state.1.2 = k
   ∧ length state.2.1 = k ∧ length state.2.2 = k).
Hypothesis agent_rows : ∀ obs s k, rows (agent_state (agent obs s k)) N.

Local Abbreviation zero_at x b :=
  (∃ row, x !! b = Some row ∧ Forall (λ q, q == 0)%Q row).
Local Abbreviation reset_at state b :=
  (zero_at state.1.1 b ∧ zero_at state.1.2 b ∧ zero_at state.2.1 b ∧ zero_at state.2.2 b).
Local Abbreviation masked done state :=
  (∀ b, done !! b = Some [1%Q] → reset_at state b).
Local Abbreviation done_of e :=
  ((λ d : bool, [if d then 1 else 0]%Q) <$> zip_with orb (env_done e) (env_truncated e)).
Local Abbreviation well_formed e := (length (env_done e) = N ∧ length (env_truncated e) = N).
Local Abbreviation stored rec st k :=
  (step_dones rec = next_done st
   ∧ step_observations rec = next_obs st
   ∧ ((step_actor_hxs rec, step_actor_cxs rec), (step_critic_hxs rec, step_critic_cxs rec))
     = next_lstm_state st
   ∧ step_values rec = agent_values (agent (next_obs st) (next_lstm_state st) k)
   ∧ step_actions rec = agent_action (agent (next_obs st) (next_lstm_state st) k)
   ∧ step_logprobs rec = agent_logprob (agent (next_obs st) (next_lstm_state st) k)).

Lemma mask_done_zero_rows (done e : tensor2) :
  length done = length e → Forall (λ r, length r = 1) done →
  ∃ e', mask_done done e = Some e'
        ∧ length e' = length e
        ∧ ∀ b, done !! b = Some [1%Q] → zero_at e' b.
Proof.
  intros Hlen Hone. rewrite (mask_done_zip done e Hlen Hone). eexists.
  split; [done|]. split; [rewrite length_zip_with; lia|].
  intros b Hb. destruct (lookup_lt_is_Some_2 e b) as [row Hrow].
  { apply lookup_lt_Some in Hb. lia. }
  eexists. split; [by rewrite lookup_zip_with, Hb; simpl; rewrite Hrow|].
  simpl. apply Forall_forall. intros q Hq.
  apply list_elem_of_fmap in Hq as (q' & -> & _). ring.
Qed.

Lemma length_done_of (e : EnvStep) : well_formed e → length (done_of e) = N.
Proof. intros [Hd Ht]. rewrite length_fmap, length_zip_with. lia. Qed.

Lemma done_of_singletons (e : EnvStep) : Forall (λ r, length r = 1) (done_of e).
Proof. apply Forall_fmap, Forall_true. done. Qed.

Lemma rollout_step_spec (e : EnvStep) (st : Rollout) :
  well_formed e →
  ∃ st' rec,
    rollout_step args world_size agent e st = Some st'
    ∧ rb st' = rb st ++ [rec]
    ∧ stored rec st (global_step st + Z.of_nat N * world_size)%Z
    ∧ global_step st' = (global_step st + Z.of_nat N * world_size)%Z
    ∧ next_done st' = done_of e
    ∧ next_obs st' = env_obs e
    ∧ rows (next_lstm_state st') N
    ∧ masked (next_done st') (next_lstm_state st').
Proof.
  intros Hwf. unfold rollout_step, next_state. rewrite reset_on_done. cbv zeta.
  set (out := agent (next_obs st) (next_lstm_state st)
                (global_step st + Z.of_nat N * world_size)%Z).
  destruct (agent_rows (next_obs st) (next_lstm_state st)
              (global_step st + Z.of_nat N * world_size)%Z) as (H1 & H2 & H3 & H4).
  fold out in H1, H2, H3, H4.
  pose proof (length_done_of e Hwf) as Hlen.
  pose proof (done_of_singletons e) as Hone.
  assert (∀ x : tensor2, length x = N →
            ∃ x', mask_done (done_of e) x = Some x' ∧ length x' = N
                  ∧ ∀ b, done_of e !! b = Some [1%Q] → zero_at x' b) as Hmask.
  { intros x Hx.
    destruct (mask_done_zero_rows (done_of e) x) as (x' & Hx' & Hlx & Hzx);
      [lia | done |].
    exists x'. split; [done|]. split; [lia|done]. }
  destruct (Hmask _ H1) as (a1 & Ha1 & Hl1 & Hz1).
  destruct (Hmask _ H2) as (a2 & Ha2 & Hl2 & Hz2).
  destruct (Hmask _ H3) as (a3 & Ha3 & Hl3 & Hz3).
  destruct (Hmask _ H4) as (a4 & Ha4 & Hl4 & Hz4).
  rewrite Ha1, bind_Some_l, Ha2, bind_Some_l, Ha3, bind_Some_l, Ha4, !bind_Some_l.
  eexists. eexists. split; [done|]. cbn.
  split_and!; try done.
  - by destruct (next_lstm_state st) as [[] []].
  - intros b Hb. split_and!; [by apply Hz1|by apply Hz2|by apply Hz3|by apply Hz4].
Qed.

Lemma rollout_spec (steps : list EnvStep) :
  Forall (λ e, well_formed e) steps →
  ∀ st, masked (next_done st) (next_lstm_state st) →
    ∃ final new,
      rollout args world_size agent steps st = Some final
      ∧ rb final = rb st ++ new
      ∧ length new = length steps
      ∧ masked (next_done final) (next_lstm_state final)
      ∧ next_done final = default (next_done st) (last ((λ e, done_of e) <$> steps))
      ∧ next_obs final = default (next_obs st) (last (env_obs <$> steps))
      ∧ ∀ t rec,
          new !! t = Some rec →
          masked (step_dones rec)
            ((step_actor_hxs rec, step_actor_cxs rec),
             (step_critic_hxs rec, step_critic_cxs rec))
          ∧ match t with
            | 0 => step_dones rec = next_done st ∧ step_observations rec = next_obs st
            | S t' => ∃ e, steps !! t' = Some e
                           ∧ step_dones rec = done_of e
                           ∧ step_observations rec = env_obs e
            end
          ∧ ∃ k,
              step_values rec
              = agent_values (agent (step_observations rec)
                                ((step_actor_hxs rec, step_actor_cxs rec),
                                 (step_critic_hxs rec, step_critic_cxs rec)) k)
              ∧ step_actions rec
                = agent_action (agent (step_observations rec)
                                  ((step_actor_hxs rec, step_actor_cxs rec),
                                   (step_critic_hxs rec, step_critic_cxs rec)) k)
              ∧ step_logprobs rec
                = agent_logprob (agent (step_observations rec)
                                   ((step_actor_hxs rec, step_actor_cxs rec),
                                    (step_critic_hxs rec, step_critic_cxs rec)) k).
Proof.
  induction 1 as [|e steps He _ IH]; intros st Hmasked.
  - exists st, []. unfold rollout. simpl. rewrite app_nil_r.
    split_and!; try done.
  - destruct (rollout_step_spec e st He)
      as (st1 & rec0 & Hstep & Hrb1 & Hstored & Hg1 & Hd1 & Ho1 & _ & Hm1).
    destruct (IH st1 Hm1) as (final & new & Hrun & Hrb & Hlen & Hm & Hd & Ho & Hrecs).
    exists final, (rec0 :: new). unfold rollout in *. cbn [foldl].
    rewrite bind_Some_l, Hstep. split; [exact Hrun|].
    split; [by rewrite Hrb, Hrb1, <- app_assoc|].
    split; [by simpl; rewrite Hlen|]. split; [exact Hm|].
    split; [rewrite Hd, Hd1, fmap_cons, last_cons;
            by destruct (last ((λ e, done_of e) <$> steps))|].
    split; [rewrite Ho, Ho1, fmap_cons, last_cons; by destruct (last (env_obs <$> steps))|].
    intros t rec Hrec. destruct t as [|t].
    + simpl in Hrec. injection Hrec as <-.
      destruct Hstored as (Hsd & Hso & Hss & Hv & Ha & Hl).
      split_and!.
      * rewrite Hsd, Hss. exact Hmasked.
      * done.
      * done.
      * eexists. rewrite Hso, Hss. by split_and!.
    + simpl in Hrec. destruct (Hrecs t rec Hrec) as (Hmr & Hdr & Hk).
      split; [exact Hmr|]. split; [|exact Hk].
      destruct t as [|t].
      * exists e. destruct Hdr as [Hdr Hor]. split; [done|]. by rewrite Hdr, Hor, Hd1, Ho1.
      * destruct Hdr as (e' & He' & Hdr & Hor). by exists e'.
Qed.

End ppo_rollout_facts.

(** X13. The rollout of recurrent PPO with
    [reset_recurrent_state_on_done], for an agent whose recurrent states
    have one row per environment.  The rollout runs through and adds one
    record per step.  The record of a step holds the observation and the
    recurrent state that the agent was given at that step, with the values,
    action and log-probability it returned for them, and as its done flag
    the one of the step before: the first record holds the values carried
    into the rollout.  Wherever the done flag of a record is one, the four
    recurrent states of the record are zero for that environment, provided
    this held for the values carried in; it then also holds for the values
    carried out, so it holds over all updates. *)
Theorem stored_state_is_reset_where_done :
  ∀ (args : ppo_recurrent.RecurrentPPOArgs) (world_size : Z)
    (agent : tensor2 → ppo_recurrent.lstm_states → Z → ppo_recurrent.AgentStep)
    (steps : list ppo_recurrent.EnvStep) (st : ppo_recurrent.Rollout),
    let n := ppo_recurrent.num_envs args in
    let zero_at (x : tensor2) b :=
      ∃ row, x !! b = Some row ∧ Forall (λ q, q == 0)%Q row in
    let masked (done : tensor2) (state : ppo_recurrent.lstm_states) :=
      ∀ b, done !! b = Some [1%Q] →
           zero_at state.1.1 b ∧ zero_at state.1.2 b
           ∧ zero_at state.2.1 b ∧ zero_at state.2.2 b in
    let done_of e :=
      (λ d : bool, [if d then 1 else 0]%Q)
        <$> zip_with orb (ppo_recurrent.env_done e) (ppo_recurrent.env_truncated e) in
    let state_of rec :=
      ((ppo_recurrent.step_actor_hxs rec, ppo_recurrent.step_actor_cxs rec),
       (ppo_recurrent.step_critic_hxs rec, ppo_recurrent.step_critic_cxs rec)) in
    ppo_recurrent.reset_recurrent_state_on_done args = true →
    (∀ obs s k,
       let state := ppo_recurrent.agent_state (agent obs s k) in
       length state.1.1 = n ∧ length state.1.2 = n
       ∧ length state.2.1 = n ∧ length state.2.2 = n) →
    Forall (λ e, length (ppo_recurrent.env_done e) = n
                 ∧ length (ppo_recurrent.env_truncated e) = n) steps →
    masked (ppo_recurrent.next_done st) (ppo_recurrent.next_lstm_state st) →
    ∃ final new,
      ppo_recurrent.rollout args world_size agent steps st = Some final
      ∧ ppo_recurrent.rb final = ppo_recurrent.rb st ++ new
      ∧ length new = length steps
      ∧ masked (ppo_recurrent.next_done final) (ppo_recurrent.next_lstm_state final)
      ∧ ppo_recurrent.next_done final
        = default (ppo_recurrent.next_done st) (last (done_of <$> steps))
      ∧ ppo_recurrent.next_obs final
        = default (ppo_recurrent.next_obs st) (last (ppo_recurrent.env_obs <$> steps))
      ∧ ∀ t rec,
          new !! t = Some rec →
          masked (ppo_recurrent.step_dones rec) (state_of rec)
          ∧ match t with
            | 0 => ppo_recurrent.step_dones rec = ppo_recurrent.next_done st
                   ∧ ppo_recurrent.step_observations rec = ppo_recurrent.next_obs st
            | S t' => ∃ e, steps !! t' = Some e
                           ∧ ppo_recurrent.step_dones rec = done_of e
                           ∧ ppo_recurrent.step_observations rec = ppo_recurrent.env_obs e
            end
          ∧ ∃ k,
              let out := agent (ppo_recurrent.step_observations rec) (state_of rec) k in
              ppo_recurrent.step_values rec = ppo_recurrent.agent_values out
              ∧ ppo_recurrent.step_actions rec = ppo_recurrent.agent_action out
              ∧ ppo_recurrent.step_logprobs rec = ppo_recurrent.agent_logprob out.
Proof.
  intros args world_size agent steps st n zero_at masked done_of state_of
    Hreset Hrows Hwf Hmasked.
  exact (rollout_spec args world_size agent Hreset Hrows steps Hwf st Hmasked).
Qed.

Lemma stored_state_is_reset_where_done_witness :
  ∃ final,
    ppo_recurrent.rollout more_examples.ppo_args2 1 more_examples.ppo_agent
      [more_examples.ppo_env_step 10 false; more_examples.ppo_env_step 20 true;
       more_examples.ppo_env_step 30 false]
      (ppo_recurrent.first_rollout more_examples.ppo_args2 [[0]; [1]]%Q
         (([[0; 0]; [0; 0]], [[0; 0]; [0; 0]]), ([[0; 0]; [0; 0]], [[0; 0]; [0; 0]]))%Q)
    = Some final
    ∧ fmap (M := list)
        (λ rec, (ppo_recurrent.step_observations rec, ppo_recurrent.step_dones rec,
                 ppo_recurrent.step_actor_hxs rec))
        (ppo_recurrent.rb final)
      = [([[0]; [1]], [[0]; [0]], [[0; 0]; [0; 0]]);
         ([[10]; [11]], [[0]; [0]], [[2; 2]; [2; 2]]);
         ([[20]; [21]], [[0]; [1]], [[2; 2]; [0; 0]])]%Q
    ∧ ∀ b, ppo_recurrent.next_done final !! b = Some [1%Q] →
           ∃ row, (ppo_recurrent.next_lstm_state final).1.1 !! b = Some row
                  ∧ Forall (λ q, q == 0)%Q row.
Proof.
  destruct (stored_state_is_reset_where_done more_examples.ppo_args2 1
              more_examples.ppo_agent
              [more_examples.ppo_env_step 10 false; more_examples.ppo_env_step 20 true;
       more_examples.ppo_env_step 30 false]
              (ppo_recurrent.first_rollout more_examples.ppo_args2 [[0]; [1]]%Q
                 (([[0; 0]; [0; 0]], [[0; 0]; [0; 0]]),
                  ([[0; 0]; [0; 0]], [[0; 0]; [0; 0]]))%Q))
    as (final & new & Hrun & _ & _ & Hmasked & _).
  - reflexivity.
  - intros obs s k. by split_and!.
  - repeat constructor.
  - intros b Hb. simpl in Hb. destruct b as [|[|b]]; simplify_eq/=.
  - exists final. split; [exact Hrun|]. split.
    + vm_compute in Hrun. injection Hrun as <-. reflexivity.
    + intros b Hb. by destruct (Hmasked b Hb) as (Hz & _).
Defined.

(** ** The intrinsic reward of Plan2Explore *)

Section intrinsic_reward_facts.
Import p2e.

Lemma expand1_same (slot v : tensor1) :
  length v = length slot → expand1 slot v = Some v.
Proof.
  intros Hlen. unfold expand1, expand. rewrite decide_True by done.
  revert v Hlen. induction slot as [|s slot IH]; intros [|x v] Hlen; simplify_eq/=; [done|].
  by rewrite IH.
Qed.

Lemma expand2_same (slot v : tensor2) :
  same_shape2 v slot → expand2 slot v = Some v.
Proof.
  intros Hs. unfold expand2, expand. rewrite decide_True by by eapply Forall2_length.
  induction Hs as [|x s v slot Hx _ IH]; [done|]. simpl.
  rewrite expand1_same by done. simpl. by rewrite IH.
Qed.

Lemma expand3_same (slot v : tensor3) :
  same_shape3 v slot → expand3 slot v = Some v.
Proof.
  intros Hs. unfold expand3, expand. rewrite decide_True by by eapply Forall2_length.
  induction Hs as [|x s v slot Hx _ IH]; [done|]. simpl.
  rewrite expand2_same by done. simpl. by rewrite IH.
Qed.

Lemma sum1_nonneg (l : tensor1) : Forall (λ q, 0 <= q)%Q l → (0 <= sum1 l)%Q.
Proof.
  induction 1 as [|q l Hq _ IH]; simpl; [apply Qle_refl|].
  replace 0%Q with (0 + 0)%Q by done. by apply Qplus_le_compat.
Qed.

Lemma sum1_zero (l : tensor1) : Forall (λ q, q == 0)%Q l → (sum1 l == 0)%Q.
Proof.
  induction 1 as [|q l Hq _ IH]; simpl; [reflexivity|]. rewrite Hq, IH. ring.
Qed.

Lemma div_nonneg (a : Q) (k : Z) : (0 <= a)%Q → (0 ≤ k)%Z → (0 <= a / inject_Z k)%Q.
Proof.
  intros Ha Hk. destruct (Z.eq_dec k 0%Z) as [->|Hne].
  - unfold Qdiv. simpl. rewrite Qmult_0_r. apply Qle_refl.
  - apply Qle_shift_div_l; [|by rewrite Qmult_0_l].
    change (inject_Z 0 < inject_Z k)%Q. rewrite <- Zlt_Qlt. lia.
Qed.

Lemma variance_nonneg (l : tensor1) : (0 <= variance l)%Q.
Proof.
  unfold variance. destruct l as [|x l]; [done|].
  apply div_nonneg; [|simpl length; lia].
  apply sum1_nonneg, Forall_fmap, Forall_true. intros q. apply Qsqr_nonneg.
Qed.

Lemma sum1_replicate (k : nat) (v : Q) :
  (sum1 (replicate k v) == inject_Z (Z.of_nat k) * v)%Q.
Proof.
  induction k as [|k IH]; simpl replicate; simpl sum1; [ring|].
  rewrite IH, Nat2Z.inj_succ. unfold Z.succ. rewrite inject_Z_plus. ring.
Qed.

Lemma variance_replicate (k : nat) (v : Q) : (variance (replicate k v) == 0)%Q.
Proof.
  unfold variance. rewrite length_replicate, fmap_replicate.
  set (m := (sum1 (replicate k v) / inject_Z (Z.of_nat k))%Q).
  destruct k as [|k]; [done|].
  assert (m == v)%Q as Hm.
  { unfold m. rewrite sum1_replicate. field.
    change (¬ inject_Z (Z.of_nat (S k)) == inject_Z 0)%Q. rewrite inject_Z_injective. lia. }
  rewrite sum1_replicate, Hm. unfold Qdiv. ring.
Qed.

Lemma omap_replicate {A B} (f : A → option B) (k : nat) (x : A) :
  omap f (replicate k x) = from_option (replicate k) [] (f x).
Proof.
  induction k as [|k IH]; [by destruct (f x)|].
  change (omap f (replicate (S k) x))
    with (match f x with
          | Some y => y :: omap f (replicate k x)
          | None => omap f (replicate k x)
          end).
  rewrite IH. by destruct (f x).
Qed.

Lemma columns_replicate {A} (n k : nat) (x : list A) :
  Forall (λ c, c = [] ∨ ∃ y, c = replicate k y) (columns n (replicate k x)).
Proof.
  unfold columns. apply Forall_fmap, Forall_true. intros t. simpl.
  rewrite omap_replicate. destruct (x !! t) as [y|]; simpl; [right; by exists y|by left].
Qed.

(** Where all members of the ensemble agree, the variance is zero. *)
Lemma var0_replicate (T N D k : nat) (x : tensor3) :
  Forall (Forall (Forall (λ v, v == 0)%Q)) (var0 T N D (replicate k x)).
Proof.
  unfold var0. apply Forall_fmap.
  eapply Forall_impl; [apply columns_replicate|]. intros xt Hxt. simpl.
  apply Forall_fmap.
  assert (Forall (λ c : list tensor1, c = [] ∨ ∃ y, c = replicate k y) (columns N xt))
    as Hcols.
  { destruct Hxt as [->|[y ->]]; [|apply columns_replicate].
    unfold columns. apply Forall_fmap, Forall_true. intros t. by left. }
  eapply Forall_impl; [exact Hcols|]. intros xtb Hxtb. simpl.
  apply Forall_fmap.
  assert (Forall (λ c : tensor1, c = [] ∨ ∃ y, c = replicate k y) (columns D xtb))
    as Hcols'.
  { destruct Hxtb as [->|[y ->]]; [|apply columns_replicate].
    unfold columns. apply Forall_fmap, Forall_true. intros t. by left. }
  eapply Forall_impl; [exact Hcols'|]. intros c [->|[v ->]]; simpl.
  - reflexivity.
  - apply variance_replicate.
Qed.

Lemma var0_nonneg (T N D : nat) (x : list tensor3) :
  Forall (Forall (Forall (λ v, 0 <= v)%Q)) (var0 T N D x).
Proof.
  unfold var0. do 3 (apply Forall_fmap, Forall_true; intros ?; simpl).
  apply variance_nonneg.
Qed.

Lemma var0_shape (T N D : nat) (x : list tensor3) :
  length (var0 T N D x) = T
  ∧ Forall (λ xt, length xt = N ∧ Forall (λ row, length row = D) xt) (var0 T N D x).
Proof.
  unfold var0, columns. split; [by rewrite !length_fmap, length_seq|].
  apply Forall_fmap, Forall_true. intros xt. simpl.
  split; [by rewrite !length_fmap, length_seq|].
  apply Forall_fmap, Forall_true. intros xtb. simpl.
  by rewrite !length_fmap, length_seq.
Qed.

Lemma scaled_mean_last (P : Q → Prop) (c : Q) (x : tensor3) :
  (∀ row, Forall P row → P (sum1 row / inject_Z (Z.of_nat (length row)) * c)%Q) →
  Forall (Forall (Forall P)) x →
  Forall (Forall (Forall P)) (map (map (map (λ v, v * c)%Q)) (mean_last x)).
Proof.
  intros HP Hx. unfold mean_last.
  induction Hx as [|xt x Hxt _ IH]; simpl; constructor; [|exact IH].
  clear IH. induction Hxt as [|row xt Hrow _ IH]; simpl; constructor; [|exact IH].
  constructor; [|constructor]. by apply HP.
Qed.

Lemma shape_mean_last (c : Q) (x : tensor3) (N : nat) :
  Forall (λ xt, length xt = N) x →
  let r := map (map (map (λ v, v * c)%Q)) (mean_last x) in
  length r = length x
  ∧ Forall (λ rt, length rt = N ∧ Forall (λ row, length row = 1) rt) r.
Proof.
  intros HN r. unfold r, mean_last. split; [by rewrite !length_map|].
  induction HN as [|xt x' Hxt _ IH]; simpl; [constructor|].
  constructor; [|exact IH].
  split; [by rewrite !length_map|].
  clear. induction xt as [|row xt IH]; simpl; [constructor|].
  constructor; [done|exact IH].
Qed.

Lemma fmap_agree {A B} (g : A → B) (l : list A) (y : B) :
  (∀ a, a ∈ l → g a = y) → g <$> l = replicate (length l) y.
Proof.
  induction l as [|a l IH]; intros Hy; simpl; [done|].
  rewrite (Hy a) by apply list_elem_of_here. f_equal. apply IH.
  intros a' Ha'. apply Hy. by apply list_elem_of_further.
Qed.

End intrinsic_reward_facts.

(** X14. The intrinsic reward of Plan2Explore, for members whose
    predictions have the shape (horizon - 1, batch, embedding).  With at
    least two members and a non-empty embedding the reward has the shape
    (horizon - 1, batch, 1); it is never negative when the multiplier is
    not; and it is zero everywhere when all members predict the same.  With fewer than two members, or an empty embedding, it is not a
    number. *)
Theorem intrinsic_reward_is_disagreement :
  ∀ (horizon batch encoder_output_size : nat) (multiplier : Q)
    (ensembles : list (tensor3 → tensor3 → tensor3))
    (imagined_trajectories all_actions : tensor3),
    0 < horizon →
    Forall (λ ens,
              same_shape3 (but_last 1 (ens imagined_trajectories all_actions))
                (replicate (horizon - 1) (zeros batch encoder_output_size)))
           ensembles →
    let result :=
      p2e.intrinsic_reward horizon batch encoder_output_size multiplier ensembles
        imagined_trajectories all_actions in
    (2 ≤ length ensembles → 0 < encoder_output_size →
       ∃ r,
         result = p2e.Reward r
         ∧ length r = horizon - 1
         ∧ Forall (λ rt, length rt = batch ∧ Forall (λ row, length row = 1) rt) r
         ∧ ((0 <= multiplier)%Q → Forall (Forall (Forall (λ v, 0 <= v)%Q)) r)
         ∧ ((∀ e1 e2, e1 ∈ ensembles → e2 ∈ ensembles →
               e1 imagined_trajectories all_actions
               = e2 imagined_trajectories all_actions) →
            Forall (Forall (Forall (λ v, v == 0)%Q)) r))
    ∧ (length ensembles < 2 ∨ encoder_output_size = 0 → result = p2e.NotANumber).
Proof.
  intros horizon batch D multiplier ensembles traj actions Hh Hshape result.
  unfold result, p2e.intrinsic_reward. destruct horizon as [|T]; [lia|].
  replace (S T - 1) with T in * by lia.
  assert (mapM (λ ens, p2e.expand3 (replicate T (zeros batch D))
                         (but_last 1 (ens traj actions))) ensembles
          = Some ((λ ens, but_last 1 (ens traj actions)) <$> ensembles)) as ->.
  { apply mapM_Some, Forall2_fmap_r, Forall_Forall2_diag.
    eapply Forall_impl; [exact Hshape|]. intros ens Hens. simpl.
    by apply expand3_same. }
  split.
  - intros HE HD. rewrite decide_True by done. eexists. split; [done|].
    destruct (var0_shape T batch D ((λ ens, but_last 1 (ens traj actions)) <$> ensembles))
      as [HlenT HlenN].
    destruct (shape_mean_last multiplier
                (p2e.var0 T batch D ((λ ens, but_last 1 (ens traj actions)) <$> ensembles))
                batch) as [Hr1 Hr2].
    { eapply Forall_impl; [exact HlenN|]. by intros xt [? _]. }
    split; [by rewrite Hr1|]. split; [exact Hr2|]. split.
    + intros Hm. apply scaled_mean_last; [|apply var0_nonneg].
      intros row Hrow. apply Qmult_le_0_compat; [|done].
      apply div_nonneg; [by apply sum1_nonneg | lia].
    + intros Hagree. destruct ensembles as [|e0 ensembles]; [simpl in HE; lia|].
      rewrite (fmap_agree _ (e0 :: ensembles) (but_last 1 (e0 traj actions))).
      2:{ intros e He. f_equal. apply Hagree; [done|apply list_elem_of_here]. }
      apply scaled_mean_last; [|apply var0_replicate].
      intros row Hrow. cbv beta. rewrite (sum1_zero row Hrow). unfold Qdiv. ring.
  - intros Hnan. rewrite decide_False; [done|]. lia.
Qed.

Lemma intrinsic_reward_is_disagreement_witness :
  (∃ r,
     p2e.intrinsic_reward 3 1 2 2 [more_examples.member 0; more_examples.member 1]
       more_examples.trajectory3 []
     = p2e.Reward r
     ∧ Forall (Forall (Forall (λ v, v == 1)%Q)) r)
  ∧ ∃ r,
      p2e.intrinsic_reward 3 1 2 2 [more_examples.member 1; more_examples.member 1]
        more_examples.trajectory3 []
      = p2e.Reward r
      ∧ Forall (Forall (Forall (λ v, v == 0)%Q)) r.
Proof.
  split.
  { eexists. split; [vm_compute; reflexivity|]. repeat constructor. }
  destruct (intrinsic_reward_is_disagreement 3 1 2 2
              [more_examples.member 1; more_examples.member 1]
              more_examples.trajectory3 []) as [Hreward _].
  - lia.
  - repeat constructor.
  - destruct Hreward as (r & Hr & _ & _ & _ & Hzero); [simpl; lia | lia |].
    exists r. split; [exact Hr|]. apply Hzero.
    intros e1 e2 He1 He2.
    apply elem_of_cons in He1 as [->|He1]; [|apply list_elem_of_singleton in He1 as ->];
      (apply elem_of_cons in He2 as [->|He2]; [|apply list_elem_of_singleton in He2 as ->]);
      reflexivity.
Defined.

(** ** The three updates of a training step *)

(** X15. The training step of dreamer_v2.py logs the gradient norms that
    [fabric.clip_gradients] returns.  With [clip_gradients] set to a
    positive value the world model, the actor and the critic are updated
    in this order, each one clipped just before its optimizer step, and no
    exception arises from the logging.  With [clip_gradients] at [None],
    zero or a negative value the variable holding the norms is never
    assigned: the step raises UnboundLocalError right after the optimizer
    step of the world model, before any metric is logged and before the
    actor and the critic are touched. *)
Theorem train_needs_gradient_clipping :
  ∀ clip_gradients : option Q,
    (∀ c, clip_gradients = Some c → (0 < c)%Q →
       (dreamer_v2_updates.train clip_gradients).2 = None
       ∧ List.filter (λ e, match e with
                           | dreamer_v2_updates.ClipGradients _ _
                           | dreamer_v2_updates.OptimizerStep _ => true
                           | _ => false
                           end) (dreamer_v2_updates.train clip_gradients).1
         = [dreamer_v2_updates.ClipGradients dreamer_v2_updates.WorldModel c;
            dreamer_v2_updates.OptimizerStep dreamer_v2_updates.WorldModel;
            dreamer_v2_updates.ClipGradients dreamer_v2_updates.Actor c;
            dreamer_v2_updates.OptimizerStep dreamer_v2_updates.Actor;
            dreamer_v2_updates.ClipGradients dreamer_v2_updates.Critic c;
            dreamer_v2_updates.OptimizerStep dreamer_v2_updates.Critic])
    ∧ ((clip_gradients = None ∨ ∃ c, clip_gradients = Some c ∧ (c <= 0)%Q) →
       dreamer_v2_updates.train clip_gradients
       = ([dreamer_v2_updates.ZeroGrad dreamer_v2_updates.WorldModel;
           dreamer_v2_updates.Backward dreamer_v2_updates.WorldModel;
           dreamer_v2_updates.OptimizerStep dreamer_v2_updates.WorldModel],
          Some (dreamer_v2_updates.UnboundLocalError "world_model_grads"))).
Proof.
  intros clip_gradients. split.
  - intros c -> Hc. unfold dreamer_v2_updates.train, dreamer_v2_updates.clip.
    destruct (Qlt_le_dec 0 c) as [_|Hle]; [|by apply Qle_not_lt in Hle].
    split; vm_compute; reflexivity.
  - intros [->|(c & -> & Hc)]; [reflexivity|].
    unfold dreamer_v2_updates.train, dreamer_v2_updates.clip.
    destruct (Qlt_le_dec 0 c) as [Hlt|_]; [by apply Qle_not_lt in Hc|].
    reflexivity.
Qed.

Lemma train_needs_gradient_clipping_witness :
  (dreamer_v2_updates.train (Some 100%Q)).2 = None
  ∧ (dreamer_v2_updates.train (Some 0%Q)).2
    = Some (dreamer_v2_updates.UnboundLocalError "world_model_grads").
Proof.
  split.
  - apply (proj1 (train_needs_gradient_clipping (Some 100%Q)) 100%Q eq_refl). reflexivity.
  - rewrite (proj2 (train_needs_gradient_clipping (Some 0%Q))); [reflexivity|].
    right. exists 0%Q. split; [reflexivity|]. apply Qle_refl.
Defined.

(** ** The exploration actions of the player *)

Section exploration_facts.
Import dreamer_v1_agent.PlayerDV1.

Lemma clip_unit_bounds (x : tensor2) :
  Forall (Forall (λ q, -1 <= q ∧ q <= 1)%Q) (clip_unit x).
Proof.
  unfold clip_unit. apply Forall_forall. intros row Hrow.
  apply list_elem_of_fmap in Hrow as (row' & -> & _).
  apply Forall_forall. intros q Hq.
  apply list_elem_of_fmap in Hq as (q' & -> & _). split.
  - apply Q.min_glb; [apply Q.le_max_r | done].
  - apply Q.le_min_r.
Qed.

Lemma clip_unit_shape (x : tensor2) : map length (clip_unit x) = map length x.
Proof.
  unfold clip_unit. rewrite map_map. apply map_ext. intros row. by rewrite length_map.
Qed.

Lemma imap_Forall2 {A B} (P : B → A → Prop) (l : list A) :
  ∀ h : nat → A → B, (∀ i x, P (h i x) x) → Forall2 P (imap h l) l.
Proof.
  induction l as [|x l IH]; intros h Hh; simpl; constructor; [done|].
  apply IH. intros i y. apply Hh.
Qed.

Lemma normal_sample_shape (loc : tensor2) (scale : Q) (w : world) :
  map length (normal_sample loc scale w).1 = map length loc.
Proof.
  unfold normal_sample, randn_like, add2, scale2. simpl.
  pose proof (imap_Forall2 (λ r row : tensor1, length r = length row) loc
                (λ i row, imap (λ j _, generator w (draws w) i j) row)) as Hshape.
  revert Hshape. generalize (imap (λ i row, imap (λ j (_ : Q), generator w (draws w) i j) row) loc).
  intros noise Hshape. specialize (Hshape (λ i x, length_imap _ _)).
  induction Hshape as [|r row noise loc Hr _ IH]; [done|]. simpl. f_equal; [|exact IH].
  rewrite length_zip_with, length_map. lia.
Qed.

Lemma one_hot_sample_rows (act : tensor2) (w : world) :
  Forall2 (λ er ar : tensor1, ∃ k, er = one_hot (length ar) k) (one_hot_sample act w).1 act.
Proof.
  unfold one_hot_sample. simpl. apply imap_Forall2. intros i row. by eexists.
Qed.

Lemma explore_heads_spec (self : t) (actions : list tensor2) :
  ∀ w,
    Forall2 (λ e act : tensor2,
               e = act ∨ Forall2 (λ er ar : tensor1, ∃ k, er = one_hot (length ar) k) e act)
      (explore_heads self actions w).1 actions
    ∧ draws (explore_heads self actions w).2 = draws w + 2 * length actions
    ∧ generator (explore_heads self actions w).2 = generator w
    ∧ calls (explore_heads self actions w).2 = calls w
    ∧ ((∀ d, expl_amount self <= generator w d 0 0)%Q →
       (explore_heads self actions w).1 = actions).
Proof.
  induction actions as [|act actions IH]; intros w.
  - simpl. split_and!; try done; lia.
  - set (w1 := (one_hot_sample act w).2).
    set (w2 := (rand w1).2).
    destruct (IH w2) as (IH1 & IH2 & IH3 & IH4 & IH5).
    change (explore_heads self (act :: actions) w)
      with ((if Qlt_le_dec (rand w1).1 (expl_amount self)
             then (one_hot_sample act w).1 else act)
            :: (explore_heads self actions w2).1,
            (explore_heads self actions w2).2).
    simpl fst. simpl snd. split_and!.
    + constructor; [|exact IH1].
      destruct (Qlt_le_dec _ _); [right; apply one_hot_sample_rows | by left].
    + rewrite IH2. simpl. lia.
    + by rewrite IH3.
    + by rewrite IH4.
    + intros Hu. rewrite IH5 by (intros d; apply Hu). f_equal.
      destruct (Qlt_le_dec _ _) as [Hlt|]; [|done].
      exfalso. simpl in Hlt. specialize (Hu (S (draws w))).
      by apply Qle_not_lt in Hu.
Qed.

End exploration_facts.

(** X16. The exploration actions of PlayerDV1, from the greedy actions.
    For continuous actions and a positive exploration amount the action is
    the concatenated greedy action plus scaled noise, clipped: every entry
    lies in [-1, 1] and the shape is kept.  With an exploration amount of
    zero or less the concatenated greedy action is returned as it is,
    without clipping and without a random draw.  For discrete actions
    every head is, as a whole and for all environments at once, either the
    greedy action or a sample of one-hot rows, decided by one random number
    per head; if no random number is below the exploration amount the
    greedy actions are returned.  In every case the last action held by the
    player afterwards is the concatenation of what was returned, and its
    recurrent and stochastic state are the ones it had. *)
Theorem exploration_actions :
  (∀ (self : dreamer_v1_agent.PlayerDV1.t) (actions : list tensor2) (greedy : tensor2)
     (w : world),
     dreamer_v1_agent.PlayerDV1.cat_heads actions = Some greedy →
     (0 < dreamer_v1_agent.PlayerDV1.expl_amount self)%Q →
     ∃ expl player,
       dreamer_v1_agent.PlayerDV1.explore self actions true w
       = (Some ([expl], player), World (generator w) (S (draws w)) (calls w))
       ∧ expl = dreamer_v1_agent.PlayerDV1.clip_unit
                  (add2 greedy
                     (scale2 (dreamer_v1_agent.PlayerDV1.expl_amount self)
                        (randn_like greedy w).1))
       ∧ map length expl = map length greedy
       ∧ Forall (Forall (λ q, -1 <= q ∧ q <= 1)%Q) expl
       ∧ dreamer_v1_agent.PlayerDV1.actions player = expl
       ∧ dreamer_v1_agent.PlayerDV1.recurrent_state player
         = dreamer_v1_agent.PlayerDV1.recurrent_state self
       ∧ dreamer_v1_agent.PlayerDV1.stochastic_state player
         = dreamer_v1_agent.PlayerDV1.stochastic_state self)
  ∧ (∀ (self : dreamer_v1_agent.PlayerDV1.t) (actions : list tensor2) (greedy : tensor2)
       (w : world),
       dreamer_v1_agent.PlayerDV1.cat_heads actions = Some greedy →
       (dreamer_v1_agent.PlayerDV1.expl_amount self <= 0)%Q →
       ∃ player,
         dreamer_v1_agent.PlayerDV1.explore self actions true w
         = (Some ([greedy], player), w)
         ∧ dreamer_v1_agent.PlayerDV1.actions player = greedy
         ∧ dreamer_v1_agent.PlayerDV1.recurrent_state player
           = dreamer_v1_agent.PlayerDV1.recurrent_state self
         ∧ dreamer_v1_agent.PlayerDV1.stochastic_state player
           = dreamer_v1_agent.PlayerDV1.stochastic_state self)
  ∧ (∀ (self : dreamer_v1_agent.PlayerDV1.t) (actions : list tensor2) (w : world),
       actions ≠ [] →
       ∃ expl_actions stored player,
         (dreamer_v1_agent.PlayerDV1.explore self actions false w).1
         = Some (expl_actions, player)
         ∧ dreamer_v1_agent.PlayerDV1.cat_heads expl_actions = Some stored
         ∧ dreamer_v1_agent.PlayerDV1.actions player = stored
         ∧ dreamer_v1_agent.PlayerDV1.recurrent_state player
           = dreamer_v1_agent.PlayerDV1.recurrent_state self
         ∧ dreamer_v1_agent.PlayerDV1.stochastic_state player
           = dreamer_v1_agent.PlayerDV1.stochastic_state self
         ∧ Forall2 (λ e act,
                      e = act
                      ∨ Forall2 (λ er ar : tensor1,
                                   ∃ k, er = dreamer_v1_agent.PlayerDV1.one_hot (length ar) k)
                          e act)
             expl_actions actions
         ∧ draws (dreamer_v1_agent.PlayerDV1.explore self actions false w).2
           = draws w + 2 * length actions
         ∧ ((∀ d, dreamer_v1_agent.PlayerDV1.expl_amount self <= generator w d 0 0)%Q →
            expl_actions = actions)).
Proof.
  split_and!.
  - intros self actions greedy w Hcat Hpos.
    unfold dreamer_v1_agent.PlayerDV1.explore. rewrite Hcat.
    destruct (Qlt_le_dec 0 (dreamer_v1_agent.PlayerDV1.expl_amount self)) as [_|Hle];
      [|by apply Qle_not_lt in Hle].
    eexists _, _. split; [reflexivity|]. split; [reflexivity|]. split_and!; try done.
    + rewrite clip_unit_shape.
      apply (normal_sample_shape greedy (dreamer_v1_agent.PlayerDV1.expl_amount self) w).
    + apply clip_unit_bounds.
  - intros self actions greedy w Hcat Hle.
    unfold dreamer_v1_agent.PlayerDV1.explore. rewrite Hcat.
    destruct (Qlt_le_dec 0 (dreamer_v1_agent.PlayerDV1.expl_amount self)) as [Hlt|_];
      [by apply Qle_not_lt in Hle|]. by eexists.
  - intros self actions w Hne.
    destruct (explore_heads_spec self actions w) as (H1 & H2 & H3 & H4 & H5).
    set (r := dreamer_v1_agent.PlayerDV1.explore_heads self actions w) in *.
    assert (∃ e es, r.1 = e :: es) as (e & es & Hr).
    { destruct actions as [|act actions]; [done|]. inversion H1; subst. by eexists _, _. }
    unfold dreamer_v1_agent.PlayerDV1.explore. unfold mbind, M_bind. cbv beta.
    fold r.
    assert (dreamer_v1_agent.PlayerDV1.cat_heads r.1 = Some (foldl cat e es)) as Hcat
      by (by rewrite Hr).
    rewrite Hcat. exists r.1, (foldl cat e es). eexists. by split_and!.
Qed.

Lemma exploration_actions_witness :
  (∃ expl player,
     dreamer_v1_agent.PlayerDV1.explore (more_examples.explorer 1)
       [[[0.5; -0.5]; [0; 0]]]%Q true more_examples.world3
     = (Some ([expl], player), World (generator more_examples.world3) 1 [])
     ∧ map length expl = [2; 2]
     ∧ Forall (Forall (λ q, -1 <= q ∧ q <= 1)%Q) expl
     ∧ dreamer_v1_agent.PlayerDV1.actions player = expl
     ∧ dreamer_v1_agent.PlayerDV1.recurrent_state player = [[0]; [0]]%Q)
  ∧ ∃ player,
      dreamer_v1_agent.PlayerDV1.explore (more_examples.explorer 0)
        [[[5; -5]; [0; 0]]]%Q true more_examples.world3
      = (Some ([[[5; -5]; [0; 0]]%Q], player), more_examples.world3)
      ∧ dreamer_v1_agent.PlayerDV1.actions player = [[5; -5]; [0; 0]]%Q.
Proof.
  split.
  - destruct (proj1 exploration_actions (more_examples.explorer 1)
                [[[0.5; -0.5]; [0; 0]]]%Q [[0.5; -0.5]; [0; 0]]%Q more_examples.world3)
      as (expl & player & Hrun & _ & Hshape & Hbounds & Hact & Hrec & _);
      [reflexivity..|].
    exists expl, player. split_and!; [exact Hrun|exact Hshape|exact Hbounds|exact Hact|].
    rewrite Hrec. reflexivity.
  - destruct (proj1 (proj2 exploration_actions) (more_examples.explorer 0)
                [[[5; -5]; [0; 0]]]%Q [[5; -5]; [0; 0]]%Q more_examples.world3)
      as (player & Hrun & Hact & _).
    + reflexivity.
    + apply Qle_refl.
    + exists player. split; [exact Hrun | exact Hact].
Defined.
